(** * Staging area of Spack ([lib/spack/spack/stage.py])

    A shallow embedding of the stage classes ([Stage], [ResourceStage],
    [CMakeBuildStage], [DIYStage]) and the properties of their fetch chain,
    checksum policy, scope protocol, lock registry, resource placement and
    external build-root allocator.

    Conventions.
    - Python exceptions are values of [exn]; a call that may raise returns a
      [result], together with the state it leaves.
    - A method takes the object and the [World] and returns both: the
      [World] holds the file system, the class attribute
      [Stage.stage_locks], an allocation counter for object identities and
      the trace of the calls made on collaborators (locks, fetchers, [tty]).
    - What stage.py only calls (fetch strategies, mirrors, configuration,
      the copy functions) is a field of [Env].
    - File names are [string]s of one-byte characters, paths are lists of
      components.  [Stage.stage_locks] is a [gmap]; the dictionary
      [mirror_urls], whose order matters, is an association list. *)

From Stdlib Require Import Ascii String.
From Stdlib Require Import Sorted.
From stdpp Require Import gmap strings list fin_maps.

Local Open Scope nat_scope.

(** ** Exceptions and results *)

Inductive exn : Type :=
| IndexError
| AttributeError (what : string)
| FileExistsError
| FileNotFoundError
| NotADirectoryError
| IsADirectoryError
| DirectoryNotEmpty          (* OSError, errno ENOTEMPTY *)
| SystemExit (msg : string)  (* raised by tty.die *)
| LockTimeoutError
| NoCacheError
| FailedDownloadError (what : string)
| FetchError (msg : string)
| ChecksumError
| ValueError (msg : string)
| StagePathError (msg : string)
| RestageError (msg : string)
| RecursionError.

(** The classes the handlers of stage.py name. *)
Definition is_OSError (e : exn) : bool :=
  match e with
  | FileExistsError | FileNotFoundError | NotADirectoryError
  | IsADirectoryError | DirectoryNotEmpty => true
  | _ => false
  end.

(** [except Exception] catches everything but [SystemExit]. *)
Definition is_Exception (e : exn) : bool :=
  match e with
  | SystemExit _ => false
  | _ => true
  end.

Inductive result (A : Type) : Type :=
| Return (a : A)
| Raise (e : exn).
Arguments Return {A} a.
Arguments Raise {A} e.

#[global] Instance result_ret : MRet result := @Return.
#[global] Instance result_bind : MBind result := λ A B k r,
  match r with
  | Return a => k a
  | Raise e => Raise e
  end.

Definition raised {A} (r : result A) : bool :=
  match r with Raise _ => true | Return _ => false end.

(** Truth value of [None], of a string and of an optional string. *)
Definition truthy_str (s : string) : bool :=
  match s with EmptyString => false | _ => true end.

Definition truthy (o : option string) : bool :=
  match o with Some s => truthy_str s | None => false end.

(** ** The external build-root name allocator

    [CMakeBuildStage._compute_next_open_subdir] and its local function [inc]. *)

Module Allocator.

(** [ord] and [chr] on one-byte characters. *)
Definition ord (c : ascii) : nat := nat_of_ascii c.
Definition chr (n : nat) : ascii := ascii_of_nat n.

(** The body of [inc], on the reversed name: [x] is [c[-1]] and [rest] is
    [c[:-1]] read backwards.
<<
    curr = ord(c[-1]); over = curr // 122
    if over: return (inc(c[:-1]) if len(c[:-1]) else "a") + "a"
    return c[:-1] + chr(curr + 1)
>> *)
Fixpoint inc_rev (x : ascii) (rest : list ascii) {struct rest} : list ascii :=
  let curr := ord x in
  let over := curr / 122 in
  if negb (over =? 0) then
    "a"%char :: match rest with
                | [] => ["a"%char]
                | y :: rest' => inc_rev y rest'
                end
  else chr (curr + 1) :: rest.

(** [inc c]; [c[-1]] of the empty string raises [IndexError]. *)
Definition inc (c : string) : result string :=
  match rev (list_ascii_of_string c) with
  | [] => Raise IndexError
  | x :: rest => Return (string_of_list_ascii (rev (inc_rev x rest)))
  end.

(** [sort_key = lambda x: (len(x.name), x.name)], and [<] on such pairs. *)
Definition sort_key (x : string) : nat * string := (String.length x, x).

Definition key_ltb (k1 k2 : nat * string) : bool :=
  if k1.1 <? k2.1 then true
  else if k2.1 <? k1.1 then false
  else String.ltb k1.2 k2.2.

(** [sorted(l, key=sort_key)]: a stable sort, here by insertion. *)
Fixpoint insert_by (x : string) (l : list string) : list string :=
  match l with
  | [] => [x]
  | y :: l' =>
      if key_ltb (sort_key x) (sort_key y) then x :: y :: l'
      else y :: insert_by x l'
  end.

Definition sorted (l : list string) : list string :=
  foldl (fun acc x => insert_by x acc) [] l.

(** [_compute_next_open_subdir], given [list(self._remote_root.iterdir())]
    as the names of the entries. *)
Definition _compute_next_open_subdir (current_ext_stages : list string)
  : result string :=
  match current_ext_stages with
  | [] => Return "a"
  | _ =>
      match last (sorted current_ext_stages) with
      | Some l => inc l
      | None => Raise IndexError
      end
  end.

(** The spec's reading of a name: a numeral of the bijective base-26 system
    with digits [a = 1] ... [z = 26], most significant digit first. *)
Definition is_lower (c : ascii) : bool :=
  (97 <=? ord c) && (ord c <=? 122).

Definition lower_name (s : string) : Prop :=
  s ≠ "" ∧ forallb is_lower (list_ascii_of_string s) = true.

Definition digit (c : ascii) : nat := ord c - 96.

Definition counter_value_chars (cs : list ascii) : nat :=
  foldl (fun acc c => 26 * acc + digit c) 0 cs.

Definition counter_value (s : string) : nat :=
  counter_value_chars (list_ascii_of_string s).

Definition is_z (c : ascii) : bool := ord c =? 122.

Definition all_z (s : string) : bool :=
  forallb is_z (list_ascii_of_string s).

(** [key_le k1 k2]: Python's [not (k2 < k1)] on sort keys. *)
Definition key_le (k1 k2 : nat * string) : Prop := key_ltb k2 k1 = false.

Definition name_le (x y : string) : Prop := key_le (sort_key x) (sort_key y).

(** The spec's order on names: by length first, then lexicographically. *)
Definition length_lex_le (x y : string) : Prop :=
  String.length x < String.length y
  ∨ (String.length x = String.length y ∧ String.compare x y ≠ Gt).

Definition alphabet : list string :=
  ["a"; "b"; "c"; "d"; "e"; "f"; "g"; "h"; "i"; "j"; "k"; "l"; "m";
   "n"; "o"; "p"; "q"; "r"; "s"; "t"; "u"; "v"; "w"; "x"; "y"; "z"].

End Allocator.


(** ** File system

    A file system is a finite map from absolute paths (lists of components,
    the root directory being [[]]) to nodes.  Symbolic links are followed when they
    are the last component of a path; files are addressed by their real
    paths otherwise.  Permissions are not part of the model. *)

Module FS.

Inductive node : Type :=
| File (content : string)
| Dir
| Link (target : list string).

#[global] Instance node_eq_dec : EqDecision node.
Proof. solve_decision. Defined.

Abbreviation path := (list string).
Abbreviation fs :=
  (@gmap (list string) (@list_eq_dec string String.eq_dec)
     (@list_countable string String.eq_dec String.countable) node).

(** [os.lstat]: the node at a path itself. *)
Definition lstat (p : path) (m : fs) : option node := m !! p.

(** Follow links at [p], at most [fuel] of them ([ELOOP] beyond). *)
Fixpoint follow (fuel : nat) (p : path) (m : fs) : option path :=
  match lstat p m with
  | None => None
  | Some (Link t) =>
      match fuel with
      | 0 => None
      | S k => follow k t m
      end
  | Some _ => Some p
  end.

Definition max_links : nat := 40.

(** [os.path.exists] / [Path.exists]: true when the path, links followed,
    names a file or directory. *)
Definition exists_ (p : path) (m : fs) : bool :=
  match follow max_links p m with
  | Some _ => true
  | None => false
  end.

(** [os.path.isdir] / [Path.is_dir]. *)
Definition is_dir (p : path) (m : fs) : bool :=
  match follow max_links p m with
  | Some r => match lstat r m with Some Dir => true | _ => false end
  | None => false
  end.

(** [os.path.islink]. *)
Definition is_link (p : path) (m : fs) : bool :=
  match lstat p m with
  | Some (Link _) => true
  | _ => false
  end.

(** [os.path.realpath] / [Path.resolve]: a path that cannot be resolved is
    returned as it is. *)
Definition realpath (p : path) (m : fs) : path :=
  default p (follow max_links p m).

Definition parent (p : path) : path := removelast p.

(** A path as Python code writes it: relative to something, or absolute.
    [join base q] is [os.path.join(base, q)]. *)
Inductive pathname : Type :=
| Rel (p : list string)
| Abs (p : list string).

Definition join (base : path) (q : pathname) : path :=
  match q with
  | Rel p => base ++ p
  | Abs p => p
  end.

(** Truth value of a path string: [""] is false. *)
Definition truthy_pathname (q : pathname) : bool :=
  match q with
  | Rel [] => false
  | _ => true
  end.

(** Names of the entries of directory [p]. *)
Definition children (p : path) (m : fs) : list string :=
  omap (λ k, match reverse k with
             | n :: rp => if decide (reverse rp = p) then Some n else None
             | [] => None
             end)
       (map fst (map_to_list m)).

(** [os.mkdir] / [Path.mkdir()]: exclusive creation. *)
Definition mkdir (p : path) (m : fs) : result fs :=
  match lstat p m with
  | Some _ => Raise FileExistsError
  | None =>
      if is_dir (parent p) m then Return (<[p := Dir]> m)
      else if exists_ (parent p) m then Raise NotADirectoryError
      else Raise FileNotFoundError
  end.

(** [Path.mkdir(parents=True, exist_ok=True)], as pathlib writes it:
<<
    try: os.mkdir(self)
    except FileNotFoundError:
        if not parents or self.parent == self: raise
        self.parent.mkdir(parents=True, exist_ok=True)
        self.mkdir(mode, parents=False, exist_ok=exist_ok)
    except OSError:
        if not exist_ok or not self.is_dir(): raise
>> *)
Definition mkdir_exist_ok (p : path) (m : fs) : result fs :=
  match mkdir p m with
  | Return m' => Return m'
  | Raise e => if is_OSError e && is_dir p m then Return m else Raise e
  end.

Fixpoint mkdir_parents_fuel (fuel : nat) (p : path) (m : fs) : result fs :=
  match mkdir p m with
  | Return m' => Return m'
  | Raise FileNotFoundError =>
      match fuel with
      | 0 => Raise FileNotFoundError
      | S k => m1 ← mkdir_parents_fuel k (parent p) m; mkdir_exist_ok p m1
      end
  | Raise e => if is_OSError e && is_dir p m then Return m else Raise e
  end.

Definition mkdir_parents (p : path) (m : fs) : result fs :=
  mkdir_parents_fuel (length p) p m.

(** [os.makedirs(name)], without [exist_ok]:
<<
    head, tail = path.split(name)
    if head and tail and not path.exists(head): makedirs(head)
    mkdir(name)
>> *)
Fixpoint makedirs_fuel (fuel : nat) (p : path) (m : fs) : result fs :=
  match fuel with
  | 0 => mkdir p m
  | S k =>
      if negb (exists_ (parent p) m)
      then m1 ← makedirs_fuel k (parent p) m; mkdir p m1
      else mkdir p m
  end.

Definition makedirs (p : path) (m : fs) : result fs :=
  makedirs_fuel (length p) p m.

(** [os.unlink] / [Path.unlink]. *)
Definition unlink (p : path) (m : fs) : result fs :=
  match lstat p m with
  | None => Raise FileNotFoundError
  | Some Dir => Raise IsADirectoryError
  | Some _ => Return (delete p m)
  end.

(** [os.rmdir] / [Path.rmdir]. *)
Definition rmdir (p : path) (m : fs) : result fs :=
  match lstat p m with
  | None => Raise FileNotFoundError
  | Some Dir =>
      match children p m with
      | [] => Return (delete p m)
      | _ => Raise DirectoryNotEmpty
      end
  | Some _ => Raise NotADirectoryError
  end.

(** [Path.iterdir], as the list of entry names. *)
Definition iterdir (p : path) (m : fs) : result (list string) :=
  match follow max_links p m with
  | None => Raise FileNotFoundError
  | Some r =>
      match lstat r m with
      | Some Dir => Return (children r m)
      | _ => Raise NotADirectoryError
      end
  end.

(** [os.symlink(target, link)]. *)
Definition symlink (target link : path) (m : fs) : result fs :=
  match lstat link m with
  | Some _ => Raise FileExistsError
  | None =>
      if is_dir (parent link) m then Return (<[link := Link target]> m)
      else Raise FileNotFoundError
  end.

(** [shutil.rmtree(p, ignore_errors=True)]: [p] and everything below it. *)
Definition rmtree (p : path) (m : fs) : fs :=
  filter (λ kv, ¬ (p `prefix_of` kv.1)) m.

End FS.

(** ** Fetch strategies, configuration and process state *)

(** What the code reads from a URL-based strategy. *)
Record URLAttrs : Type := {
  url : string;
  digest : option string;
  expand_archive_attr : bool;
  extension : option string
}.

(** The [connection] dictionary handed to [fs.from_url_scheme]. *)
Record Connection : Type := {
  access_token : option string;
  access_pair : option (string * string);
  access_profile : option string;
  endpoint_url : option string
}.

(** Where a fetch strategy object comes from: supplied by the caller (or
    yielded by [search_fn]), built by [fs.from_url_scheme], or built by
    [spack.caches.fetch_cache.fetcher]. *)
Inductive origin : Type :=
| Supplied (attrs : option URLAttrs) (is_cachable : bool)
| FromUrlScheme (u : string) (d : option string) (expand : bool)
    (ext : option string) (connection : option Connection)
| FromFetchCache (rel_path : string) (d : option string) (expand : bool)
    (ext : option string).

(** A fetch strategy object; [oid] is its identity ([is] compares it). *)
Record FetchStrategy : Type := {
  oid : nat;
  made : origin
}.

Definition same_object (f g : FetchStrategy) : bool := oid f =? oid g.

(** [isinstance(f, fs.URLFetchStrategy)] and the attributes of such an [f].
    Objects built by [fetch_cache.fetcher] are created inside [fetch] and
    never become a default fetcher; no attribute of theirs is read. *)
Definition url_attrs (f : FetchStrategy) : option URLAttrs :=
  match made f with
  | Supplied a _ => a
  | FromUrlScheme u d e x _ =>
      Some {| url := u; digest := d; expand_archive_attr := e; extension := x |}
  | FromFetchCache _ _ _ _ => None
  end.

(** [f.cachable]; a URL strategy is cachable when it has a digest. *)
Definition cachable (f : FetchStrategy) : bool :=
  match made f with
  | Supplied _ c => c
  | FromUrlScheme _ d _ _ _ => truthy d
  | FromFetchCache _ d _ _ => truthy d
  end.

(** The outcomes of [fetcher.fetch()] that the fetch loop tells apart. *)
Inductive fetch_result : Type :=
| Fetched
| NotCached                    (* raises NoCacheError *)
| FetchFailed (what : string). (* raises another SpackError *)

(** A configured mirror, as [fetch] reads it. *)
Record Mirror : Type := {
  fetch_url : string;
  get_access_pair : option (string * string);
  get_access_token : option string;
  get_profile : option string;
  get_endpoint_url : option string
}.

(** A [spack.util.lock.Lock] object. *)
Record Lock : Type := {
  lock_path : FS.path;
  lock_start : N;
  lock_length : nat;
  lock_desc : string
}.

(** What a call leaves behind besides the file system. *)
Inductive event : Type :=
| Warn (msg : string)
| AcquireWrite (l : nat) (timeout : nat)
| ReleaseWrite (l : nat)
| FetcherFetch (f : FetchStrategy)
| FetcherCheck (f : FetchStrategy)
| FetcherExpand (f : FetchStrategy)
| FetcherReset (f : FetchStrategy)
| SearchFn
| TryMkdir (p : FS.path).

(** Configuration and the collaborators outside stage.py. *)
Record Env : Type := {
  stage_root : FS.path;                 (* get_stage_root() *)
  candidate_name : nat → string;        (* tempfile._get_candidate_names() *)
  lock_id : string → N;                 (* prefix_bits(sha1(name), ...) *)
  mirrors : list Mirror;                (* MirrorCollection().values() *)
  url_join : string → string → string;  (* url_util.join *)
  config_checksum : bool;               (* config:checksum *)
  cmake_ext_build : FS.path;            (* config:cmake_ext_build *)
  can_access : FS.path → bool;
  acquire_ok : nat → bool;              (* the lock is obtained in time *)
  fetch_outcome : FetchStrategy → fetch_result;
  check_ok : FetchStrategy → bool;      (* fetcher.check() finds the digest *)
  fetcher_expand : FetchStrategy → FS.path → FS.fs → result FS.fs;
  fetcher_reset : FetchStrategy → FS.path → FS.fs → result FS.fs;
  install_tree : FS.path → FS.path → FS.fs → result FS.fs;
  install : FS.path → FS.path → FS.fs → result FS.fs
}.

(** The state of the process: the file system, the working directory, the
    class attribute [Stage.stage_locks], the objects it points to, the
    allocation counter and the events so far. *)
Record World : Type := {
  files : FS.fs;
  cwd : FS.path;
  stage_locks : gmap string nat;
  lock_heap : gmap nat Lock;
  next_oid : nat;
  trace : list event
}.

Definition set_files (m : FS.fs) (w : World) : World :=
  {| files := m; cwd := cwd w; stage_locks := stage_locks w;
     lock_heap := lock_heap w; next_oid := next_oid w; trace := trace w |}.

Definition set_cwd (p : FS.path) (w : World) : World :=
  {| files := files w; cwd := p; stage_locks := stage_locks w;
     lock_heap := lock_heap w; next_oid := next_oid w; trace := trace w |}.

Definition emit (e : event) (w : World) : World :=
  {| files := files w; cwd := cwd w; stage_locks := stage_locks w;
     lock_heap := lock_heap w; next_oid := next_oid w;
     trace := trace w ++ [e] |}.

(** Allocate an object identity. *)
Definition fresh (w : World) : nat * World :=
  (next_oid w,
   {| files := files w; cwd := cwd w; stage_locks := stage_locks w;
      lock_heap := lock_heap w; next_oid := S (next_oid w);
      trace := trace w |}).

(** [Stage.stage_locks[name] = lock] for a new [Lock] object at [l]. *)
Definition register_lock (nm : string) (l : nat) (lk : Lock) (w : World) : World :=
  {| files := files w; cwd := cwd w;
     stage_locks := <[nm := l]> (stage_locks w);
     lock_heap := <[l := lk]> (lock_heap w);
     next_oid := next_oid w; trace := trace w |}.

(** File-system call [op] on the world. *)
Definition on_files (op : FS.fs → result FS.fs) (w : World) : World * result unit :=
  match op (files w) with
  | Return m => (set_files m w, Return tt)
  | Raise e => (w, Raise e)
  end.

(** A call that returns the new state or raises and leaves the state. *)
Definition attempt {S : Type} (r : result S) (s : S) : S * result unit :=
  match r with
  | Return s' => (s', Return tt)
  | Raise e => (s, Raise e)
  end.

(** A [for] loop whose body may raise; the state is the one reached. *)
Fixpoint for_each {X S : Type} (f : X → S → S * result unit) (l : list X) (s : S)
  : S * result unit :=
  match l with
  | [] => (s, Return tt)
  | x :: l' =>
      match f x s with
      | (s', Return _) => for_each f l' s'
      | (s', Raise e) => (s', Raise e)
      end
  end.

(** Modelled from the spec: [llnl.util.filesystem.mkdirp], which makes a
    directory and its missing parents and accepts an existing directory. *)
Definition mkdirp (p : FS.path) (m : FS.fs) : result FS.fs :=
  if FS.exists_ p m then
    if FS.is_dir p m then Return m else Raise FileExistsError
  else FS.makedirs p m.

(** Modelled from the spec: [llnl.util.filesystem.remove_linked_tree], which
    removes a directory tree; for a link, the tree it points to and the link. *)
Definition remove_linked_tree (p : FS.path) (m : FS.fs) : FS.fs :=
  if FS.exists_ p m then
    if FS.is_link p m then delete p (FS.rmtree (FS.realpath p m) m)
    else FS.rmtree p m
  else m.

(** Modelled from the spec: [llnl.util.symlink.symlink], the file-system
    link at [link] pointing to [target]. *)
Definition symlink (target link : FS.path) (m : FS.fs) : result FS.fs :=
  FS.symlink target link m.

(** Modelled from the spec: [Lock.acquire_write(timeout)], which takes the
    exclusive lock or fails when the wait exceeds the bound. *)
Definition acquire_write (env : Env) (l : nat) (timeout : nat) (w : World)
  : World * result unit :=
  let w1 := emit (AcquireWrite l timeout) w in
  if acquire_ok env l then (w1, Return tt) else (w1, Raise LockTimeoutError).

(** Modelled from the spec: [Lock.release_write()]. *)
Definition release_write (l : nat) (w : World) : World :=
  emit (ReleaseWrite l) w.

(** ** [class Stage] *)

Module Stage.

Definition _source_path_subdir : string := "spack-src".
Definition stage_prefix : string := "spack-stage-".

(** The attributes of a [Stage] object.  [mirror_paths] is the list of
    relative mirror paths, [[]] standing for [None] as well; [search_fn] is
    [None] or the list a call of the search function yields. *)
Record t : Type := {
  name : string;
  _path : FS.path;
  keep : bool;
  created : bool;
  _lock : option nat;
  fetcher : FetchStrategy;
  default_fetcher : FetchStrategy;
  search_fn : option (list FetchStrategy);
  skip_checksum_for_mirror : bool;
  mirror_paths : list string;
  srcdir : option FS.pathname
}.

Definition set_fetcher (f : FetchStrategy) (s : t) : t :=
  {| name := name s; _path := _path s; keep := keep s; created := created s;
     _lock := _lock s; fetcher := f; default_fetcher := default_fetcher s;
     search_fn := search_fn s;
     skip_checksum_for_mirror := skip_checksum_for_mirror s;
     mirror_paths := mirror_paths s; srcdir := srcdir s |}.

Definition set_skip_checksum_for_mirror (b : bool) (s : t) : t :=
  {| name := name s; _path := _path s; keep := keep s; created := created s;
     _lock := _lock s; fetcher := fetcher s;
     default_fetcher := default_fetcher s; search_fn := search_fn s;
     skip_checksum_for_mirror := b;
     mirror_paths := mirror_paths s; srcdir := srcdir s |}.

Definition set_created (b : bool) (s : t) : t :=
  {| name := name s; _path := _path s; keep := keep s; created := b;
     _lock := _lock s; fetcher := fetcher s;
     default_fetcher := default_fetcher s; search_fn := search_fn s;
     skip_checksum_for_mirror := skip_checksum_for_mirror s;
     mirror_paths := mirror_paths s; srcdir := srcdir s |}.

Definition set_keep (b : bool) (s : t) : t :=
  {| name := name s; _path := _path s; keep := b; created := created s;
     _lock := _lock s; fetcher := fetcher s;
     default_fetcher := default_fetcher s; search_fn := search_fn s;
     skip_checksum_for_mirror := skip_checksum_for_mirror s;
     mirror_paths := mirror_paths s; srcdir := srcdir s |}.

(** The three parts of [Stage.__init__]: the fetcher,
<<
    if isinstance(url_or_fetch_strategy, str):
        self.fetcher = fs.from_url_scheme(url_or_fetch_strategy)
    elif isinstance(url_or_fetch_strategy, fs.FetchStrategy):
        self.fetcher = url_or_fetch_strategy
>> *)
Definition init_fetcher (url_or_fetch_strategy : string + FetchStrategy)
    (w : World) : FetchStrategy * World :=
  match url_or_fetch_strategy with
  | inl u =>
      let '(i, w) := fresh w in
      ({| oid := i; made := FromUrlScheme u None true None None |}, w)
  | inr f => (f, w)
  end.

(** the name,
<<
    self.name = name
    if name is None:
        self.name = stage_prefix + next(tempfile._get_candidate_names())
>> *)
Definition init_name (env : Env) (name : option string) (w : World)
  : string * World :=
  match name with
  | Some n => (n, w)
  | None =>
      let '(i, w) := fresh w in
      (stage_prefix +:+ candidate_name env i, w)
  end.

(** and the lock,
<<
    self._lock = None
    if lock:
        if self.name not in Stage.stage_locks:
            ...
            Stage.stage_locks[self.name] = spack.util.lock.Lock(
                stage_lock_path, lock_id, 1, desc=self.name)
        self._lock = Stage.stage_locks[self.name]
>> *)
Definition init_lock (env : Env) (nm : string) (lock : bool) (w : World)
  : World * option nat :=
  if lock then
    let w :=
      match stage_locks w !! nm with
      | Some _ => w
      | None =>
          let '(l, w) := fresh w in
          register_lock nm l
            {| lock_path := stage_root env ++ [".lock"];
               lock_start := lock_id env nm;
               lock_length := 1; lock_desc := nm |} w
      end in
    (w, stage_locks w !! nm)
  else (w, None).

(** [Stage.__init__].  The argument is a URL or a fetch strategy; the
    [ValueError] for anything else has no counterpart here. *)
Definition __init__ (env : Env) (url_or_fetch_strategy : string + FetchStrategy)
    (name : option string) (mirror_paths : list string) (keep : bool)
    (path : option FS.path) (lock : bool)
    (search_fn : option (list FetchStrategy)) (w : World) : World * t :=
  let '(f, w) := init_fetcher url_or_fetch_strategy w in
  let '(nm, w) := init_name env name w in
  let p :=
    match path with
    | Some p => p
    | None => stage_root env ++ [nm]
    end in
  let '(w, l) := init_lock env nm lock w in
  (w,
   {| name := nm; _path := p; keep := keep; created := false;
      _lock := l;
      fetcher := f; default_fetcher := f; search_fn := search_fn;
      skip_checksum_for_mirror := true;
      mirror_paths := mirror_paths; srcdir := None |}).

Definition path (s : t) : FS.path := _path s.
Definition source_path (s : t) : FS.path := _path s ++ [_source_path_subdir].
Definition expanded (s : t) (w : World) : bool := FS.exists_ (source_path s) (files w).

(** [ensure_access]: [tty.die] when the path cannot be accessed. *)
Definition ensure_access (env : Env) (file : FS.path) : result unit :=
  if can_access env file then Return tt
  else Raise (SystemExit "Insufficient permissions").

(** [Stage.create]:
<<
    if not self._path.exists():
        mkdirp(self.path, mode=...)
    elif not self._path.is_dir():
        self._path.unlink()
        mkdirp(self.path, mode=...)
    ensure_access(self._path)
    self.created = True
>> *)
Definition create (env : Env) (s : t) (w : World) : World * t * result unit :=
  let '(w, r) :=
    if negb (FS.exists_ (_path s) (files w)) then on_files (mkdirp (path s)) w
    else if negb (FS.is_dir (_path s) (files w)) then
      match on_files (FS.unlink (_path s)) w with
      | (w, Raise e) => (w, Raise e)
      | (w, Return _) => on_files (mkdirp (path s)) w
      end
    else (w, Return tt) in
  match r with
  | Raise e => (w, s, Raise e)
  | Return _ =>
      match ensure_access env (_path s) with
      | Raise e => (w, s, Raise e)
      | Return _ => (w, set_created true s, Return tt)
      end
  end.

(** [os.chdir(p)]; afterwards [os.getcwd()] is the directory that [p]
    leads to. *)
Definition chdir (p : FS.path) (w : World) : World * result unit :=
  if FS.is_dir p (files w) then (set_cwd (FS.realpath p (files w)) w, Return tt)
  else if FS.exists_ p (files w) then (w, Raise NotADirectoryError)
  else (w, Raise FileNotFoundError).

(** [Stage.destroy]:
<<
    remove_linked_tree(self.path)
    try:
        os.getcwd()
    except OSError as e:
        tty.debug(e)
        os.chdir(self._path.parent)
    self.created = False
>>
    [os.getcwd()] raises when the working directory is gone; an error of
    [os.chdir] in the handler leaves the method, before [created] is set. *)
Definition destroy (s : t) (w : World) : World * t * result unit :=
  let w := set_files (remove_linked_tree (path s) (files w)) w in
  if FS.exists_ (cwd w) (files w) then (w, set_created false s, Return tt)
  else
    match chdir (FS.parent (_path s)) w with
    | (w, Raise e) => (w, s, Raise e)
    | (w, Return _) => (w, set_created false s, Return tt)
    end.

(** What [__enter__] and [__exit__], which the subclasses inherit, use of
    the object they are called on: its [Stage] attributes, and its own
    [create] and [destroy], which a subclass may override. *)
Class StageLike (T : Type) : Type := {
  stage_of : T → t;
  set_stage : t → T → T;
  create_method : Env → T → World → World * T * result unit;
  destroy_method : T → World → World * T * result unit
}.

#[global] Instance stage_like : StageLike t := {|
  stage_of := λ s, s;
  set_stage := λ b _, b;
  create_method := create;
  destroy_method := destroy
|}.

(** [Stage.__enter__]; the value is what [with stage as s] binds to [s]. *)
Definition __enter__ {T} `{StageLike T} (env : Env) (self : T) (w : World)
  : World * T * result (option T) :=
  let '(w, r) :=
    match _lock (stage_of self) with
    | Some l => acquire_write env l 60 w
    | None => (w, Return tt)
    end in
  match r with
  | Raise e => (w, self, Raise e)
  | Return _ =>
      let '(w, self, r) := create_method env self w in
      match r with
      | Raise e => (w, self, Raise e)
      | Return _ => (w, self, Return (Some self))
      end
  end.

(** [Stage.__exit__]; [exc_type] is [None] when the body ended normally:
<<
    if exc_type is None and not self.keep:
        self.destroy()
    if self._lock is not None:
        self._lock.release_write()
>>
    An error of [destroy] leaves the method before the lock is released. *)
Definition __exit__ {T} `{StageLike T} (self : T) (exc_type : option exn)
    (w : World) : World * T * result unit :=
  let '(w, self, r) :=
    match exc_type with
    | None =>
        if negb (keep (stage_of self)) then destroy_method self w
        else (w, self, Return tt)
    | Some _ => (w, self, Return tt)
    end in
  match r with
  | Raise e => (w, self, Raise e)
  | Return _ =>
      match _lock (stage_of self) with
      | Some l => (release_write l w, self, Return tt)
      | None => (w, self, Return tt)
      end
  end.

Definition exc_of {A} (r : result A) : option exn :=
  match r with
  | Raise e => Some e
  | Return _ => None
  end.

(** [with stage as s: body].  An error of [__exit__] replaces the outcome
    of the body. *)
Definition with_stage {A T} `{StageLike T} (env : Env) (self : T)
    (body : option T → T → World → World * T * result A)
    (w : World) : World * T * result A :=
  match __enter__ env self w with
  | (w1, s1, Raise e) => (w1, s1, Raise e)
  | (w1, s1, Return bound) =>
      let '(w2, s2, r) := body bound s1 w1 in
      match __exit__ s2 (exc_of r) w2 with
      | (w3, s3, Raise e) => (w3, s3, Raise e)
      | (w3, s3, Return _) => (w3, s3, r)
      end
  end.

(** Assignment to a dictionary that keeps insertion order: an existing key
    keeps its place and takes the new value, a new key goes last. *)
Fixpoint dict_set {V} (k : string) (v : V) (d : list (string * V)) : list (string * V) :=
  match d with
  | [] => [(k, v)]
  | (k', v') :: d' =>
      if String.eqb k k' then (k, v) :: d' else (k', v') :: dict_set k v d'
  end.

Fixpoint dict_get {V} (k : string) (d : list (string * V)) : option V :=
  match d with
  | [] => None
  | (k', v') :: d' => if String.eqb k k' then Some v' else dict_get k d'
  end.

Definition has_credentials (mirror : Mirror) : bool :=
  (match get_access_pair mirror with Some _ => true | None => false end)
  || truthy (get_access_token mirror)
  || truthy (get_profile mirror).

(** The dictionary [mirror_urls] of [fetch]: URL to connection, [None]
    standing for the empty connection dictionary. *)
Definition mirror_urls (env : Env) (mirror_paths : list string)
  : list (string * option Connection) :=
  foldl (λ tbl mirror,
    foldl (λ tbl rel_path,
      let mirror_url := url_join env (fetch_url mirror) rel_path in
      let tbl := dict_set mirror_url None tbl in
      if has_credentials mirror then
        dict_set mirror_url
          (Some {| access_token := get_access_token mirror;
                   access_pair := get_access_pair mirror;
                   access_profile := get_profile mirror;
                   endpoint_url := get_endpoint_url mirror |}) tbl
      else tbl) tbl mirror_paths) [] (mirrors env).

(** [fetchers.insert(0, make(x))] for [x] in [xs], in that order; every
    object made gets a new identity. *)
Definition insert_front_all {X} (make : X → origin) (xs : list X)
    (acc : World * list FetchStrategy) : World * list FetchStrategy :=
  foldl (λ '(w, fetchers) x,
           let '(i, w) := fresh w in
           (w, {| oid := i; made := make x |} :: fetchers)) acc xs.

(** [digest], [expand] and [extension] for the mirror and cache fetchers:
    those of a URL-based default fetcher, [None], [True], [None] otherwise. *)
Definition mirror_metadata (s : t) : option string * bool * option string :=
  match url_attrs (default_fetcher s) with
  | Some a => (digest a, expand_archive_attr a, extension a)
  | None => (None, true, None)
  end.

(** The list [fetchers] that [fetch] builds before it iterates. *)
Definition build_fetchers (env : Env) (mirror_only : bool) (s : t) (w : World)
  : World * t * list FetchStrategy :=
  let fetchers := if mirror_only then [] else [default_fetcher s] in
  let s := set_skip_checksum_for_mirror true s in
  match mirror_paths s with
  | [] => (w, s, fetchers)
  | _ =>
      let urls := mirror_urls env (mirror_paths s) in
      let '(d, expand, ext) := mirror_metadata s in
      let s := set_skip_checksum_for_mirror (negb (truthy d)) s in
      let '(w, fetchers) :=
        insert_front_all
          (λ u, FromUrlScheme u d expand ext (default None (dict_get u urls)))
          (rev (map fst urls)) (w, fetchers) in
      let '(w, fetchers) :=
        if cachable (default_fetcher s) then
          insert_front_all (λ rel_path, FromFetchCache rel_path d expand ext)
            (rev (mirror_paths s)) (w, fetchers)
        else (w, fetchers) in
      (w, s, fetchers)
  end.

(** The loop [for fetcher in ...] over [cands]; the boolean tells whether it
    ended in [break].  [errors] collects the fetchers whose failure is
    reported. *)
Fixpoint try_fetchers (env : Env) (cands : list FetchStrategy)
    (errors : list FetchStrategy) (s : t) (w : World)
  : World * t * list FetchStrategy * bool :=
  match cands with
  | [] => (w, s, errors, false)
  | f :: rest =>
      let s := set_fetcher f s in
      let w := emit (FetcherFetch f) w in
      match fetch_outcome env f with
      | Fetched => (w, s, errors, true)
      | NotCached => try_fetchers env rest errors s w
      | FetchFailed _ => try_fetchers env rest (errors ++ [f]) s w
      end
  end.

Definition default_msg (s : t) : string := "All fetchers failed for " +:+ name s.

(** [err_msg or default_msg]. *)
Definition py_or (err_msg : option string) (dflt : string) : string :=
  match err_msg with
  | Some m => if truthy_str m then m else dflt
  | None => dflt
  end.

(** The message as the spec words it: the caller's, the default one when
    the caller gave none. *)
Definition supplied_or_default (err_msg : option string) (dflt : string) : string :=
  match err_msg with
  | Some m => m
  | None => dflt
  end.

(** [Stage.fetch].  The generator [generate_fetchers] yields the static list
    and calls [search_fn] only when that list is exhausted. *)
Definition fetch (env : Env) (mirror_only : bool) (err_msg : option string)
    (s : t) (w : World) : World * t * result unit :=
  let '(w, s, fetchers) := build_fetchers env mirror_only s w in
  let '(w, s, errors, broke) := try_fetchers env fetchers [] s w in
  let '(w, s, errors, broke) :=
    if broke then (w, s, errors, true)
    else
      match search_fn s with
      | Some dynamic_fetchers =>
          if negb mirror_only then
            try_fetchers env dynamic_fetchers errors s (emit SearchFn w)
          else (w, s, errors, false)
      | None => (w, s, errors, false)
      end in
  if broke then (w, s, Return tt)
  else (w, set_fetcher (default_fetcher s) s,
        Raise (FetchError (py_or err_msg (default_msg s)))).

(** The candidates in the order the generator would yield them all. *)
Definition candidates (env : Env) (mirror_only : bool) (s : t) (w : World)
  : list FetchStrategy :=
  (build_fetchers env mirror_only s w).2
  ++ (if negb mirror_only then default [] (search_fn s) else []).

(** The fetchers on which [fetch()] was called, in order. *)
Definition fetched_in (tr : list event) : list FetchStrategy :=
  omap (λ e, match e with FetcherFetch f => Some f | _ => None end) tr.

Definition succeeds (env : Env) (f : FetchStrategy) : bool :=
  match fetch_outcome env f with
  | Fetched => true
  | _ => false
  end.

(** The candidates up to and including the first one that succeeds. *)
Fixpoint tried (env : Env) (cands : list FetchStrategy) : list FetchStrategy :=
  match cands with
  | [] => []
  | f :: rest => f :: (if succeeds env f then [] else tried env rest)
  end.

(** What the mirror fetchers and the cache fetchers are made from, in the
    order of the configured mirror URLs and of the mirror paths. *)
Definition mirror_origins (env : Env) (s : t) : list origin :=
  let urls := mirror_urls env (mirror_paths s) in
  let '(d, expand, ext) := mirror_metadata s in
  map (λ u, FromUrlScheme u d expand ext (default None (dict_get u urls)))
      (map fst urls).

Definition cache_origins (s : t) : list origin :=
  let '(d, expand, ext) := mirror_metadata s in
  if cachable (default_fetcher s)
  then map (λ rel_path, FromFetchCache rel_path d expand ext) (mirror_paths s)
  else [].

Definition dynamic_fetchers (s : t) : list FetchStrategy :=
  default [] (search_fn s).

(** The order of the candidates as the spec words it: default fetcher,
    cache fetchers, mirror fetchers, discovered fetchers. *)
Definition default_first_order (env : Env) (s : t) : list origin :=
  [made (default_fetcher s)] ++ cache_origins s ++ mirror_origins env s
  ++ map made (dynamic_fetchers s).

(** The order with the default fetcher behind the mirrors. *)
Definition mirrors_first_order (env : Env) (s : t) : list origin :=
  cache_origins s ++ mirror_origins env s ++ [made (default_fetcher s)]
  ++ map made (dynamic_fetchers s).

Definition mirror_warning : string := "Fetching from mirror without a checksum!".

(** [Stage.check]. *)
Definition check (env : Env) (s : t) (w : World) : World * result unit :=
  if negb (same_object (fetcher s) (default_fetcher s))
     && skip_checksum_for_mirror s
  then (emit (Warn mirror_warning) w, Return tt)
  else if config_checksum env then
    let w := emit (FetcherCheck (fetcher s)) w in
    if check_ok env (fetcher s) then (w, Return tt)
    else (w, Raise ChecksumError)
  else (w, Return tt).

(** [Stage.expand_archive]. *)
Definition expand_archive (env : Env) (s : t) (w : World) : World * result unit :=
  if negb (expanded s w) then
    on_files (fetcher_expand env (fetcher s) (path s))
             (emit (FetcherExpand (fetcher s)) w)
  else (w, Return tt).

(** [Stage.restage]. *)
Definition restage (env : Env) (s : t) (w : World) : World * result unit :=
  on_files (fetcher_reset env (fetcher s) (path s))
           (emit (FetcherReset (fetcher s)) w).

(** The arguments of one [Stage(...)] call, and a run of such calls. *)
Record init_args : Type := {
  arg_fetcher : string + FetchStrategy;
  arg_name : option string;
  arg_mirror_paths : list string;
  arg_keep : bool;
  arg_path : option FS.path;
  arg_lock : bool;
  arg_search_fn : option (list FetchStrategy)
}.

Definition construct (env : Env) (a : init_args) (w : World) : World * t :=
  __init__ env (arg_fetcher a) (arg_name a) (arg_mirror_paths a) (arg_keep a)
    (arg_path a) (arg_lock a) (arg_search_fn a) w.

Fixpoint construct_all (env : Env) (l : list init_args) (w : World)
  : World * list t :=
  match l with
  | [] => (w, [])
  | a :: l' =>
      let '(w1, s) := construct env a w in
      let '(w2, ss) := construct_all env l' w1 in
      (w2, s :: ss)
  end.

End Stage.

(** ** [class DIYStage] *)

Module DIYStage.

Record t : Type := {
  archive_file : option FS.path;
  path : FS.path;
  source_path : FS.path;
  created : bool
}.

Definition __init__ (path : option FS.path) (w : World) : result t :=
  match path with
  | None => Raise (ValueError "Cannot construct DIYStage without a path.")
  | Some p =>
      if negb (FS.is_dir p (files w))
      then Raise (StagePathError "The stage path directory does not exist:")
      else Return {| archive_file := None; path := p; source_path := p;
                     created := true |}
  end.

(** [def __enter__(self): pass]: the value is [None]. *)
Definition __enter__ (d : t) (w : World) : World * t * result (option t) :=
  (w, d, Return None).

(** [def __exit__(self, exc_type, exc_val, exc_tb): pass]. *)
Definition __exit__ (d : t) (exc_type : option exn) (w : World) : World * t :=
  (w, d).

Definition fetch (d : t) (w : World) : World * t * result unit := (w, d, Return tt).
Definition check (d : t) (w : World) : World * result unit := (w, Return tt).
Definition expand_archive (d : t) (w : World) : World * result unit := (w, Return tt).
Definition expanded (d : t) (w : World) : bool := true.

Definition restage (d : t) (w : World) : World * result unit :=
  (w, Raise (RestageError "Cannot restage a DIY stage.")).

Definition create (d : t) (w : World) : World * t :=
  (w, {| archive_file := archive_file d; path := path d;
         source_path := source_path d; created := true |}).

Definition destroy (d : t) (w : World) : World * t := (w, d).

(** [with d as s: body]. *)
Definition with_stage {A} (d : t)
    (body : option t → t → World → World * t * result A)
    (w : World) : World * t * result A :=
  match __enter__ d w with
  | (w1, d1, Raise e) => (w1, d1, Raise e)
  | (w1, d1, Return bound) =>
      let '(w2, d2, r) := body bound d1 w1 in
      let '(w3, d3) := __exit__ d2 (Stage.exc_of r) w2 in
      (w3, d3, r)
  end.

End DIYStage.

(** ** [class ResourceStage] *)

Module ResourceStage.

(** [resource.placement]: a single path, or a dictionary from paths in the
    resource to paths below the destination, in insertion order. *)
Inductive placement_t : Type :=
| PlacementStr (p : FS.pathname)
| PlacementDict (d : list (FS.pathname * FS.pathname)).

Record Resource : Type := {
  destination : FS.pathname;
  placement : option placement_t
}.

Record t : Type := {
  base : Stage.t;
  root_stage : Stage.t;
  resource : Resource
}.

Definition set_base (b : Stage.t) (rs : t) : t :=
  {| base := b; root_stage := root_stage rs; resource := resource rs |}.

(** Truth value of [resource.placement]: [None], [""] and [{}] are false. *)
Definition placement_truthy (p : option placement_t) : bool :=
  match p with
  | None => false
  | Some (PlacementStr q) => FS.truthy_pathname q
  | Some (PlacementDict []) => false
  | Some (PlacementDict _) => true
  end.

(** The placement dictionary that [_add_to_root_stage] iterates over:
<<
    if resource.placement: placement = resource.placement
    elif self.srcdir:      placement = self.srcdir
    else:                  placement = self.source_path
    if not isinstance(placement, dict): placement = {"": placement}
>> *)
Definition placement_items (rs : t) : list (FS.pathname * FS.pathname) :=
  let chosen :=
    if placement_truthy (placement (resource rs)) then
      default (PlacementStr (FS.Rel [])) (placement (resource rs))
    else
      match Stage.srcdir (base rs) with
      | Some q =>
          if FS.truthy_pathname q then PlacementStr q
          else PlacementStr (FS.Abs (Stage.source_path (base rs)))
      | None => PlacementStr (FS.Abs (Stage.source_path (base rs)))
      end in
  match chosen with
  | PlacementDict d => d
  | PlacementStr q => [(FS.Rel [], q)]
  end.

Definition target_path (rs : t) : FS.path :=
  FS.join (Stage.source_path (root_stage rs)) (destination (resource rs)).

(** The body of the loop over [placement.items()]:
<<
    destination_path = os.path.join(target_path, value)
    source_path = os.path.join(self.source_path, key)
    if not os.path.exists(destination_path):
        src = os.path.realpath(source_path)
        if os.path.isdir(src): install_tree(src, destination_path)
        else:                  install(src, destination_path)
>> *)
Definition place_entry (env : Env) (rs : t) (entry : FS.pathname * FS.pathname)
    (m : FS.fs) : result FS.fs :=
  let '(key, value) := entry in
  let destination_path := FS.join (target_path rs) value in
  let source_path := FS.join (Stage.source_path (base rs)) key in
  if negb (FS.exists_ destination_path m) then
    let src := FS.realpath source_path m in
    if FS.is_dir src m then install_tree env src destination_path m
    else install env src destination_path m
  else Return m.

(** [os.makedirs(target_path)] under the handler
<<
    except OSError as err:
        if err.errno == errno.EEXIST and os.path.isdir(target_path): pass
        else: raise
>> *)
Definition make_target (p : FS.path) (m : FS.fs) : result FS.fs :=
  match FS.makedirs p m with
  | Return m' => Return m'
  | Raise FileExistsError => if FS.is_dir p m then Return m else Raise FileExistsError
  | Raise e => Raise e
  end.

(** [ResourceStage._add_to_root_stage]. *)
Definition _add_to_root_stage (env : Env) (rs : t) (w : World) : World * result unit :=
  match make_target (target_path rs) (files w) with
  | Raise e => (w, Raise e)
  | Return m1 =>
      let '(m2, r) :=
        for_each (λ entry m, attempt (place_entry env rs entry m) m)
                 (placement_items rs) m1 in
      (set_files m2 w, r)
  end.

(** [ResourceStage.expand_archive]. *)
Definition expand_archive (env : Env) (rs : t) (w : World) : World * result unit :=
  match Stage.expand_archive env (base rs) w with
  | (w1, Raise e) => (w1, Raise e)
  | (w1, Return _) => _add_to_root_stage env rs w1
  end.

(** [ResourceStage.restage]. *)
Definition restage (env : Env) (rs : t) (w : World) : World * result unit :=
  match Stage.restage env (base rs) w with
  | (w1, Raise e) => (w1, Raise e)
  | (w1, Return _) => _add_to_root_stage env rs w1
  end.

(** What the copy functions are trusted to do when the destination does not
    exist: add entries, and leave every entry that is there as it is. *)
Definition copies_add_only (env : Env) : Prop :=
  (∀ src dst (m m' : FS.fs),
     FS.exists_ dst m = false → install_tree env src dst m = Return m' → m ⊆ m')
  ∧ (∀ src dst (m m' : FS.fs),
     FS.exists_ dst m = false → install env src dst m = Return m' → m ⊆ m').

(** [ResourceStage] inherits [create] and [destroy]. *)
#[global] Instance stage_like : Stage.StageLike t := {|
  Stage.stage_of := base;
  Stage.set_stage := set_base;
  Stage.create_method := λ env rs w,
    let '(w, b, r) := Stage.create env (base rs) w in (w, set_base b rs, r);
  Stage.destroy_method := λ rs w,
    let '(w, b, r) := Stage.destroy (base rs) w in (w, set_base b rs, r)
|}.

End ResourceStage.

(** ** [class CMakeBuildStage] *)

Module CMakeBuildStage.

Record t : Type := {
  base : Stage.t;
  _hash : string;
  _remote_stage : option FS.path;
  _remote_root : FS.path
}.

Definition set_base (b : Stage.t) (c : t) : t :=
  {| base := b; _hash := _hash c; _remote_stage := _remote_stage c;
     _remote_root := _remote_root c |}.

Definition set_remote_stage (p : option FS.path) (c : t) : t :=
  {| base := base c; _hash := _hash c; _remote_stage := p;
     _remote_root := _remote_root c |}.

(** [CMakeBuildStage.__init__]. *)
Definition __init__ (env : Env) (hash : string) (a : Stage.init_args)
    (w : World) : World * t :=
  let '(w, b) := Stage.construct env a w in
  (w, {| base := b; _hash := hash; _remote_stage := None;
         _remote_root := cmake_ext_build env |}).

Definition root_stage_context (c : t) : FS.path :=
  Stage._path (base c) ++ ["spack-build-" +:+ _hash c].

Definition build_directory (c : t) : option FS.path := _remote_stage c.

(** What the other processes that share the external root do to the file
    system just before this process's [k]-th call on it. *)
Definition interference : Type := nat → FS.fs → FS.fs.

Definition alone : interference := λ _ m, m.

(** The loop of [_setup_remote_build_stage],
<<
    attempts = 0
    while True and attempts < 200:
        try:
            full_subdir.mkdir()
            break
        except FileExistsError:
            attempts += 1
>>
    by recursion on the attempts that remain, [200 - attempts]; [k] counts
    the calls on the file system.  The boolean tells whether the loop ended
    in [break]. *)
Fixpoint mkdir_attempts (others : interference) (remaining : nat) (k : nat)
    (full_subdir : FS.path) (w : World) : World * result bool :=
  match remaining with
  | 0 => (w, Return false)
  | S remaining' =>
      let w := emit (TryMkdir full_subdir) (set_files (others k (files w)) w) in
      match FS.mkdir full_subdir (files w) with
      | Return m => (set_files m w, Return true)
      | Raise FileExistsError =>
          mkdir_attempts others remaining' (S k) full_subdir w
      | Raise e => (w, Raise e)
      end
  end.

Definition max_attempts : nat := 200.

(** The paths on which the loop called [mkdir], in order. *)
Definition mkdir_tries (tr : list event) : list FS.path :=
  omap (λ e, match e with TryMkdir p => Some p | _ => None end) tr.

(** [CMakeBuildStage._setup_remote_build_stage]. *)
Definition _setup_remote_build_stage (others : interference) (c : t) (w : World)
  : World * result FS.path :=
  let w := set_files (others 0 (files w)) w in
  match FS.mkdir_parents (_remote_root c) (files w) with
  | Raise e => (w, Raise e)
  | Return m =>
      let w := set_files (others 1 m) w in
      match FS.iterdir (_remote_root c) (files w) with
      | Raise e => (w, Raise e)
      | Return current_ext_stages =>
          match Allocator._compute_next_open_subdir current_ext_stages with
          | Raise e => (w, Raise e)
          | Return sub_dir =>
              let full_subdir := _remote_root c ++ [sub_dir] in
              match mkdir_attempts others max_attempts 2 full_subdir w with
              | (w, Raise e) => (w, Raise e)
              | (w, Return _) => (w, Return full_subdir)
              end
          end
      end
  end.

(** The local function [teardown] of [_teardown_remote_stage]:
<<
    for sub_item in pth.iterdir():
        if sub_item.is_dir(): teardown(sub_item)
        else:                 sub_item.unlink()
    pth.rmdir()
>>
    [depth] bounds the nesting of the calls. *)
Fixpoint teardown (depth : nat) (pth : FS.path) (m : FS.fs) : FS.fs * result unit :=
  match depth with
  | 0 => (m, Raise RecursionError)
  | S depth' =>
      match FS.iterdir pth m with
      | Raise e => (m, Raise e)
      | Return names =>
          let '(m, r) :=
            for_each
              (λ n m,
                 let sub_item := pth ++ [n] in
                 if FS.is_dir sub_item m then teardown depth' sub_item m
                 else attempt (FS.unlink sub_item m) m)
              names m in
          match r with
          | Raise e => (m, Raise e)
          | Return _ =>
              match FS.rmdir pth m with
              | Return m' => (m', Return tt)
              | Raise e => (m, Raise e)
              end
          end
      end
  end.

(** [CMakeBuildStage._teardown_remote_stage]:
<<
    if self._remote_stage.exists():
        teardown(self._remote_stage)
    self._remote_stage = None
>>
    [self._remote_stage.exists()] on [None] raises [AttributeError]. *)
Definition _teardown_remote_stage (c : t) (w : World) : World * t * result unit :=
  match _remote_stage c with
  | None =>
      (w, c, Raise (AttributeError "'NoneType' object has no attribute 'exists'"))
  | Some remote =>
      if FS.exists_ remote (files w) then
        match teardown (S (size (files w))) remote (files w) with
        | (m, Raise e) => (set_files m w, c, Raise e)
        | (m, Return _) => (set_files m w, set_remote_stage None c, Return tt)
        end
      else (w, set_remote_stage None c, Return tt)
  end.

Definition _establish_context_link (c : t) (remote : FS.path) (w : World)
  : World * result unit :=
  on_files (symlink remote (root_stage_context c)) w.

Definition _remove_context_link (c : t) (w : World) : World * result unit :=
  on_files (FS.unlink (root_stage_context c)) w.

(** The handler of [create]:
<<
    except Exception:
        self._teardown_remote_stage()
        self.created = False
        raise
>> *)
Definition create_failed (e : exn) (c : t) (w : World) : World * t * result unit :=
  if is_Exception e then
    match _teardown_remote_stage c w with
    | (w, c, Raise e') => (w, c, Raise e')
    | (w, c, Return _) =>
        (w, set_base (Stage.set_created false (base c)) c, Raise e)
    end
  else (w, c, Raise e).

(** [CMakeBuildStage.create]. *)
Definition create (env : Env) (others : interference) (c : t) (w : World)
  : World * t * result unit :=
  if Stage.created (base c) then (w, c, Return tt)
  else
    match Stage.create env (base c) w with
    | (w, b, Raise e) => (w, set_base b c, Raise e)
    | (w, b, Return _) =>
        let c := set_base b c in
        if negb (FS.exists_ (root_stage_context c) (files w)) then
          match _setup_remote_build_stage others c w with
          | (w, Raise e) => create_failed e c w
          | (w, Return remote) =>
              let c := set_remote_stage (Some remote) c in
              match _establish_context_link c remote w with
              | (w, Raise e) => create_failed e c w
              | (w, Return _) => (w, c, Return tt)
              end
          end
        else
          (w, set_remote_stage
                (Some (FS.realpath (root_stage_context c) (files w))) c,
           Return tt)
    end.

(** [_return_destroy_remote]:
<<
    if self._remote_stage:
        try:     self._remove_context_link()
        finally: self._teardown_remote_stage()
>> *)
Definition _return_destroy_remote (c : t) (w : World) : World * t * result unit :=
  match _remote_stage c with
  | None => (w, c, Return tt)
  | Some _ =>
      let '(w, r) := _remove_context_link c w in
      match _teardown_remote_stage c w with
      | (w, c, Raise e) => (w, c, Raise e)
      | (w, c, Return _) => (w, c, r)
      end
  end.

(** [CMakeBuildStage.destroy]. *)
Definition destroy (c : t) (w : World) : World * t * result unit :=
  match _return_destroy_remote c w with
  | (w, c, Raise e) => (w, c, Raise e)
  | (w, c, Return _) =>
      let '(w, b, r) := Stage.destroy (base c) w in
      (w, set_base b c, r)
  end.

(** The class as [Stage.__enter__] and [Stage.__exit__] see it: [create] and
    [destroy] are the overriding methods. *)
Definition stage_like (others : interference) : Stage.StageLike t := {|
  Stage.stage_of := base;
  Stage.set_stage := set_base;
  Stage.create_method := λ env c w, create env others c w;
  Stage.destroy_method := destroy
|}.

End CMakeBuildStage.

(** ** A small configuration used in the examples *)

Module Scenario.

Definition mirror1 : Mirror :=
  {| fetch_url := "https://mirror.example/"; get_access_pair := None;
     get_access_token := None; get_profile := None; get_endpoint_url := None |}.

(** The upstream archive, with a digest. *)
Definition upstream : FetchStrategy :=
  {| oid := 1;
     made := Supplied
       (Some {| url := "https://upstream.example/pkg-1.0.tar.gz";
                digest := Some "abc123"; expand_archive_attr := true;
                extension := None |}) true |}.

(** Every download works but nothing is in the local cache. *)
Definition outcome_upstream_ok (f : FetchStrategy) : fetch_result :=
  match made f with
  | FromFetchCache _ _ _ _ => NotCached
  | _ => Fetched
  end.

(** The mirror works, upstream does not. *)
Definition outcome_mirror_ok (f : FetchStrategy) : fetch_result :=
  match made f with
  | FromFetchCache _ _ _ _ => NotCached
  | FromUrlScheme _ _ _ _ _ => Fetched
  | Supplied _ _ => FetchFailed "upstream is down"
  end.

Definition outcome_all_fail (f : FetchStrategy) : fetch_result :=
  match made f with
  | FromFetchCache _ _ _ _ => NotCached
  | _ => FetchFailed "no route to host"
  end.

(** A stand-in for the copy functions: it makes [dst], and refuses to
    replace anything that is there. *)
Definition copy_to (n : FS.node) (src dst : FS.path) (m : FS.fs) : result FS.fs :=
  match FS.lstat dst m with
  | None => Return (<[dst := n]> m)
  | Some _ => Raise FileExistsError
  end.

Definition env_with (outcome : FetchStrategy → fetch_result) (checks : bool)
    (digest_ok : bool) : Env :=
  {| stage_root := ["tmp"; "spack-stage"];
     candidate_name := λ _, "k3j2h1g0";
     lock_id := λ _, 7%N;
     mirrors := [mirror1];
     url_join := λ root rel, root +:+ rel;
     config_checksum := checks;
     cmake_ext_build := ["b"];
     can_access := λ _, true;
     acquire_ok := λ _, true;
     fetch_outcome := outcome;
     check_ok := λ _, digest_ok;
     fetcher_expand := λ _ _ m, Return m;
     fetcher_reset := λ _ _ m, Return m;
     install_tree := copy_to FS.Dir;
     install := copy_to (FS.File "copied") |}.

Definition world0 : World :=
  {| files := {[ [] := FS.Dir; ["tmp"] := FS.Dir ]}; cwd := ["tmp"];
     stage_locks := ∅;
     lock_heap := ∅; next_oid := 10; trace := [] |}.

(** The call that names the stage [pkg] and gives one mirror path. *)
Definition args_pkg : Stage.init_args :=
  {| Stage.arg_fetcher := inr upstream; Stage.arg_name := Some "pkg";
     Stage.arg_mirror_paths := ["pkg/pkg-1.0.tar.gz"];
     Stage.arg_keep := false; Stage.arg_path := None;
     Stage.arg_lock := true; Stage.arg_search_fn := None |}.

(** A later call with the same name, from a URL. *)
Definition args_pkg_again : Stage.init_args :=
  {| Stage.arg_fetcher := inl "https://upstream.example/pkg-1.0.tar.gz";
     Stage.arg_name := Some "pkg"; Stage.arg_mirror_paths := [];
     Stage.arg_keep := true; Stage.arg_path := None;
     Stage.arg_lock := true; Stage.arg_search_fn := None |}.

(** An unnamed stage. *)
Definition args_other : Stage.init_args :=
  {| Stage.arg_fetcher := inl "https://upstream.example/other.tar.gz";
     Stage.arg_name := None; Stage.arg_mirror_paths := [];
     Stage.arg_keep := false; Stage.arg_path := None;
     Stage.arg_lock := true; Stage.arg_search_fn := None |}.

Definition stage_pkg : Stage.t :=
  (Stage.construct (env_with outcome_upstream_ok true true) args_pkg world0).2.

Definition world_pkg : World :=
  (Stage.construct (env_with outcome_upstream_ok true true) args_pkg world0).1.

Definition cache_pkg : FetchStrategy :=
  {| oid := 12;
     made := FromFetchCache "pkg/pkg-1.0.tar.gz" (Some "abc123") true None |}.

Definition mirror_pkg : FetchStrategy :=
  {| oid := 11;
     made := FromUrlScheme "https://mirror.example/pkg/pkg-1.0.tar.gz"
               (Some "abc123") true None None |}.

(** A body that fails after entry, and one that ends normally. *)
Definition body_raises (bound : option Stage.t) (s : Stage.t) (w : World)
  : World * Stage.t * result unit :=
  (w, s, Raise (FailedDownloadError "build failed")).

Definition body_returns (bound : option Stage.t) (s : Stage.t) (w : World)
  : World * Stage.t * result unit :=
  (w, s, Return tt).

Definition pkg_dir : FS.path := ["tmp"; "spack-stage"; "pkg"].

Definition env_ok : Env := env_with outcome_upstream_ok true true.

(** A resource of [pkg], expanded in its own stage and already placed. *)
Definition args_res : Stage.init_args :=
  {| Stage.arg_fetcher := inl "https://upstream.example/res.tar.gz";
     Stage.arg_name := Some "res"; Stage.arg_mirror_paths := [];
     Stage.arg_keep := false; Stage.arg_path := None;
     Stage.arg_lock := false; Stage.arg_search_fn := None |}.

Definition resource_pkg : ResourceStage.t :=
  {| ResourceStage.base := (Stage.construct env_ok args_res world_pkg).2;
     ResourceStage.root_stage := stage_pkg;
     ResourceStage.resource :=
       {| ResourceStage.destination := FS.Rel ["ext"];
          ResourceStage.placement :=
            Some (ResourceStage.PlacementDict
                    [(FS.Rel ["lib"], FS.Rel ["lib"]);
                     (FS.Rel ["README"], FS.Rel ["doc"; "README"])]) |} |}.

Definition files_placed : FS.fs :=
  list_to_map
    [ ([], FS.Dir); (["tmp"], FS.Dir); (["tmp"; "spack-stage"], FS.Dir);
      (["tmp"; "spack-stage"; "pkg"], FS.Dir);
      (["tmp"; "spack-stage"; "pkg"; "spack-src"], FS.Dir);
      (["tmp"; "spack-stage"; "pkg"; "spack-src"; "ext"], FS.Dir);
      (["tmp"; "spack-stage"; "pkg"; "spack-src"; "ext"; "lib"], FS.Dir);
      (["tmp"; "spack-stage"; "pkg"; "spack-src"; "ext"; "lib"; "a.c"],
       FS.File "patched by hand");
      (["tmp"; "spack-stage"; "pkg"; "spack-src"; "ext"; "doc"], FS.Dir);
      (["tmp"; "spack-stage"; "pkg"; "spack-src"; "ext"; "doc"; "README"],
       FS.File "read me");
      (["tmp"; "spack-stage"; "res"], FS.Dir);
      (["tmp"; "spack-stage"; "res"; "spack-src"], FS.Dir);
      (["tmp"; "spack-stage"; "res"; "spack-src"; "lib"], FS.Dir);
      (["tmp"; "spack-stage"; "res"; "spack-src"; "lib"; "a.c"],
       FS.File "upstream");
      (["tmp"; "spack-stage"; "res"; "spack-src"; "README"],
       FS.File "read me") ].

Definition world_placed : World := set_files files_placed world_pkg.

(** The same before anything was placed. *)
Definition world_unplaced : World :=
  set_files
    (list_to_map
       [ ([], FS.Dir); (["tmp"], FS.Dir); (["tmp"; "spack-stage"], FS.Dir);
         (["tmp"; "spack-stage"; "pkg"], FS.Dir);
         (["tmp"; "spack-stage"; "pkg"; "spack-src"], FS.Dir);
         (["tmp"; "spack-stage"; "pkg"; "spack-src"; "main.c"],
          FS.File "int main");
         (["tmp"; "spack-stage"; "res"], FS.Dir);
         (["tmp"; "spack-stage"; "res"; "spack-src"], FS.Dir);
         (["tmp"; "spack-stage"; "res"; "spack-src"; "lib"], FS.Dir);
         (["tmp"; "spack-stage"; "res"; "spack-src"; "README"],
          FS.File "read me") ]) world_pkg.

(** An external build root [/b] that holds the directory [a]. *)
Definition ext_root : FS.path := ["b"].

Definition world_ext : World :=
  set_files
    (list_to_map
       [ ([], FS.Dir); (["tmp"], FS.Dir); (["b"], FS.Dir);
         (["b"; "a"], FS.Dir) ]) world_pkg.

(** [CMakeBuildStage("abcdefg", upstream, name="pkg", ...)], not created. *)
Definition cmake_pkg : CMakeBuildStage.t :=
  (CMakeBuildStage.__init__ env_ok "abcdefg" args_pkg world0).2.

(** Another process takes the name [b] after this process has listed the
    external root and before its first [mkdir]. *)
Definition racing : CMakeBuildStage.interference :=
  λ k m, if k =? 2 then <[ ["b"; "b"] := FS.Dir ]> m else m.

(** The external build root configured to a path that is a regular file. *)
Definition world_root_is_file : World :=
  set_files
    (list_to_map
       [ ([], FS.Dir); (["tmp"], FS.Dir); (["b"], FS.File "not a directory") ])
    world_pkg.

(** A stage directory in which the link of an earlier build dangles. *)
Definition world_dangling_link : World :=
  set_files
    (list_to_map
       [ ([], FS.Dir); (["tmp"], FS.Dir); (["tmp"; "spack-stage"], FS.Dir);
         (["tmp"; "spack-stage"; "pkg"], FS.Dir);
         (["tmp"; "spack-stage"; "pkg"; "spack-build-abcdefg"],
          FS.Link ["b"; "gone"]);
         (["b"], FS.Dir) ]) world_pkg.

End Scenario.

(** ** Further definitions

    The rest of stage.py, [util/compression.py] and
    [cmd/win_system_check.py]. *)

Module AllocatorOrder.

(** The strict order on names: shorter first, then lexicographically. *)
Definition length_lex_lt (x y : string) : Prop :=
  String.length x < String.length y
  ∨ (String.length x = String.length y ∧ String.compare x y = Lt).

End AllocatorOrder.

(** The lock registry as [Stage.__init__] keeps it: every registered lock
    object has been allocated, and no object is registered under two
    names. *)
Definition registry_ok (w : World) : Prop :=
  (∀ n l, stage_locks w !! n = Some l → l < next_oid w)
  ∧ (∀ n1 n2 l, stage_locks w !! n1 = Some l → stage_locks w !! n2 = Some l →
       n1 = n2).

(** The assignments that the two loops of [fetch] make to [mirror_urls], in
    order, as key-value pairs: for each mirror and each mirror path the URL
    with the mirror's connection, which is empty for a mirror without
    credentials. *)
Definition connection_of (mirror : Mirror) : option Connection :=
  if Stage.has_credentials mirror then
    Some {| access_token := get_access_token mirror;
            access_pair := get_access_pair mirror;
            access_profile := get_profile mirror;
            endpoint_url := get_endpoint_url mirror |}
  else None.

Definition assign_pair {V} (d : list (string * V)) (kv : string * V) :=
  Stage.dict_set kv.1 kv.2 d.

Definition mirror_url_pairs (env : Env) (mirror_paths : list string)
  : list (string * option Connection) :=
  flat_map (λ mirror,
    map (λ rel_path,
      (url_join env (fetch_url mirror) rel_path, connection_of mirror))
      mirror_paths) (mirrors env).

(** The value each mirror path leaves in [skip_checksum_for_mirror]. *)
Definition skip_after_fetch (s : Stage.t) : bool :=
  match Stage.mirror_paths s with
  | [] => true
  | _ => negb (truthy (Stage.mirror_metadata s).1.1)
  end.

(** A directory tree at [pth]: [pth] is a directory, every entry below it
    lies in a directory, and no link below it leads to a directory. *)
Definition plain_tree (pth : FS.path) (m : FS.fs) : Prop :=
  m !! pth = Some FS.Dir
  ∧ (∀ (q : FS.path) (n : string),
       pth `prefix_of` q → is_Some (m !! (q ++ [n])) → m !! q = Some FS.Dir)
  ∧ (∀ (q t : FS.path),
       pth `prefix_of` q → m !! q = Some (FS.Link t) → FS.is_dir q m = false).

(** The same, as a check on the entries of the file system. *)
Definition plain_treeb (pth : FS.path) (m : FS.fs) : bool :=
  bool_decide (m !! pth = Some FS.Dir)
  && forallb
       (λ kv : FS.path * FS.node,
          match reverse kv.1 with
          | [] => true
          | n :: rq =>
              if decide (pth `prefix_of` reverse rq)
              then bool_decide (m !! reverse rq = Some FS.Dir)
              else true
          end
          && match kv.2 with
             | FS.Link _ =>
                 if decide (pth `prefix_of` kv.1) then negb (FS.is_dir kv.1 m)
                 else true
             | _ => true
             end)
       (map_to_list m).

(** ** An external build directory in use *)

Module BuildTree.

(** [cmake_pkg] after [create()], alone, with [a] in the external root:
    the build directory is [b/b]. *)
Definition created : World * CMakeBuildStage.t * result unit :=
  CMakeBuildStage.create Scenario.env_ok CMakeBuildStage.alone
    Scenario.cmake_pkg Scenario.world_ext.

Definition cmake_built : CMakeBuildStage.t := created.1.2.

Definition remote : FS.path := ["b"; "b"].

(** The state after a build has written into the directory. *)
Definition world_built : World :=
  set_files
    (<[ ["b"; "b"; "CMakeFiles"; "main.obj"] := FS.File "obj" ]>
       (<[ ["b"; "b"; "CMakeFiles"] := FS.Dir ]>
          (<[ ["b"; "b"; "CMakeCache.txt"] := FS.File "cache" ]>
             (files created.1.1))))
    created.1.1.

(** The same with the link in the stage directory removed by hand. *)
Definition world_link_lost : World :=
  set_files
    (delete (CMakeBuildStage.root_stage_context cmake_built) (files world_built))
    world_built.

End BuildTree.

(** ** A body that removes the stage root *)

Module ScopeScenario.

(** The body ends normally after the whole of [/tmp], the stage root and
    the working directory with it, has been removed. *)
Definition body_wipes (bound : option Stage.t) (s : Stage.t) (w : World)
  : World * Stage.t * result unit :=
  (set_files (FS.rmtree ["tmp"] (files w)) w, s, Return tt).

End ScopeScenario.

(** ** [class StageComposite] *)

Module StageComposite.

Section Members.
Context {T : Type} `{Stage.StageLike T}.

(** Modelled from the spec: [pattern.Composite], an ordered sequence of
    members, each an object of [Stage] or of one of its subclasses.  The
    composite has an attribute [keep] once somebody has assigned it;
    [__exit__] reads it with [getattr(self, "keep", False)]. *)
Record t : Type := {
  items : list T;
  keep : option bool
}.

Definition set_items (l : list T) (c : t) : t :=
  {| items := l; keep := keep c |}.

(** The loop [for item in self: item.__enter__()]; the members come back as
    the calls left them. *)
Fixpoint enter_items (env : Env) (l : list T) (w : World)
  : World * list T * result unit :=
  match l with
  | [] => (w, [], Return tt)
  | s :: rest =>
      match Stage.__enter__ env s w with
      | (w1, s1, Raise e) => (w1, s1 :: rest, Raise e)
      | (w1, s1, Return _) =>
          let '(w2, rest', r) := enter_items env rest w1 in
          (w2, s1 :: rest', r)
      end
  end.

(** [StageComposite.__enter__]; the value bound is the composite. *)
Definition __enter__ (env : Env) (c : t) (w : World) : World * t * result unit :=
  let '(w', l, r) := enter_items env (items c) w in
  (w', set_items l c, r).

(** [item.keep = k]. *)
Definition set_member_keep (k : bool) (s : T) : T :=
  Stage.set_stage (Stage.set_keep k (Stage.stage_of s)) s.

(** The loop of [__exit__] over the members in the order given:
<<
    item.keep = getattr(self, "keep", False)
    item.__exit__(exc_type, exc_val, exc_tb)
>>
    An error of a member's [__exit__] ends the loop; the members after it are
    left as they are. *)
Fixpoint exit_items (k : bool) (exc_type : option exn) (l : list T) (w : World)
  : World * list T * result unit :=
  match l with
  | [] => (w, [], Return tt)
  | s :: rest =>
      match Stage.__exit__ (set_member_keep k s) exc_type w with
      | (w1, s1, Raise e) => (w1, s1 :: rest, Raise e)
      | (w1, s1, Return _) =>
          let '(w2, rest', r) := exit_items k exc_type rest w1 in
          (w2, s1 :: rest', r)
      end
  end.

(** [StageComposite.__exit__], over [reversed(self)]. *)
Definition __exit__ (c : t) (exc_type : option exn) (w : World)
  : World * t * result unit :=
  let '(w', l, r) :=
    exit_items (default false (keep c)) exc_type (rev (items c)) w in
  (w', set_items (rev l) c, r).



Definition releases (l : list T) : list event :=
  flat_map (λ s, match Stage._lock (Stage.stage_of s) with
                 | Some lk => [ReleaseWrite lk]
                 | None => []
                 end) l.

(** A member is still the stage it was: same lock, path and name. *)
Definition same_member (s1 s : T) : Prop :=
  Stage._lock (Stage.stage_of s1) = Stage._lock (Stage.stage_of s)
  ∧ Stage._path (Stage.stage_of s1) = Stage._path (Stage.stage_of s)
  ∧ Stage.name (Stage.stage_of s1) = Stage.name (Stage.stage_of s).

(** What every [destroy] of stage.py does, whichever class it belongs to:
    the object remains the stage it was, no lock is touched, nothing is added
    to the file system, and after a normal return the stage path does not
    exist.  The first part says that [stage_of] reads what [set_stage]
    writes. *)
Definition lawful : Prop :=
  (∀ (b : Stage.t) (x : T), Stage.stage_of (Stage.set_stage b x) = b)
  ∧ (∀ (x : T) (w : World),
       let d := Stage.destroy_method x w in
       same_member d.1.2 x
       ∧ trace d.1.1 = trace w
       ∧ files d.1.1 ⊆ files w
       ∧ (d.2 = Return tt →
          FS.exists_ (Stage.path (Stage.stage_of x)) (files d.1.1) = false)).

End Members.

Arguments t T : clear implicits.
Arguments lawful T {_}.

End StageComposite.

(** A composite of two stages; the first member asks to be kept, the
    composite does not. *)
Module CompositeScenario.

Definition members : World * list Stage.t :=
  Stage.construct_all Scenario.env_ok [Scenario.args_pkg; Scenario.args_other]
    Scenario.world0.

Definition composite : StageComposite.t Stage.t :=
  {| StageComposite.items :=
       match members.2 with
       | s :: rest => Stage.set_keep true s :: rest
       | [] => []
       end;
     StageComposite.keep := None |}.


End CompositeScenario.

(** A composite whose only member is the [CMakeBuildStage] of [BuildTree]. *)
Module CMakeComposite.

Definition composite : StageComposite.t CMakeBuildStage.t :=
  {| StageComposite.items := [BuildTree.cmake_built];
     StageComposite.keep := None |}.

End CMakeComposite.

(** ** [purge] *)

Module Purge.

(** [stage_dir.startswith(stage_prefix) or stage_dir == ".lock"]. *)
Definition is_stage_entry (stage_dir : string) : bool :=
  String.prefix Stage.stage_prefix stage_dir || String.eqb stage_dir ".lock".

(** The body of both loops:
<<
    if os.path.isdir(p): remove_linked_tree(p)
    else:                os.remove(p)
>> *)
Definition remove_entry (p : FS.path) (m : FS.fs) : FS.fs * result unit :=
  if FS.is_dir p m then (remove_linked_tree p m, Return tt)
  else attempt (FS.unlink p m) m.

(** [os.listdir(p)]. *)
Definition listdir (p : FS.path) (m : FS.fs) : result (list string) :=
  FS.iterdir p m.

(** The first loop, over the stage root; [os.path.join(root, stage_dir)] is
    an entry of the directory that [root] leads to. *)
Definition purge_stage_root (env : Env) (m : FS.fs) : FS.fs * result unit :=
  let root := stage_root env in
  if FS.is_dir root m then
    match listdir root m with
    | Raise e => (m, Raise e)
    | Return names =>
        for_each
          (λ stage_dir m,
             if is_stage_entry stage_dir then
               remove_entry (FS.realpath root m ++ [stage_dir]) m
             else (m, Return tt))
          names m
    end
  else (m, Return tt).

(** The second loop, over the external build root.  [ext_build_dir] is the
    value of [config:cmake_ext_build], [None] when it is not configured; the
    names that [os.listdir] returns are passed on as they are, and so are
    paths relative to the working directory. *)
Definition purge_external (cwd : FS.path) (ext_build_dir : option FS.pathname)
    (m : FS.fs) : FS.fs * result unit :=
  match ext_build_dir with
  | None => (m, Return tt)
  | Some d =>
      if FS.truthy_pathname d && FS.exists_ (FS.join cwd d) m then
        match listdir (FS.join cwd d) m with
        | Raise e => (m, Raise e)
        | Return names =>
            for_each (λ ext_build m, remove_entry (cwd ++ [ext_build]) m)
              names m
        end
      else (m, Return tt)
  end.

(** [purge]. *)
Definition purge (env : Env) (ext_build_dir : option FS.pathname) (w : World)
  : World * result unit :=
  match purge_stage_root env (files w) with
  | (m, Raise e) => (set_files m w, Raise e)
  | (m, Return _) =>
      let '(m', r) := purge_external (cwd w) ext_build_dir m in
      (set_files m' w, r)
  end.

End Purge.
(** * Properties *)

(** ** Order on sort keys *)

Section KeyOrder.
Import Allocator.

Lemma ascii_compare_refl c : Ascii.compare c c = Eq.
Proof. unfold Ascii.compare. apply N.compare_refl. Qed.

Lemma string_compare_refl s : String.compare s s = Eq.
Proof. induction s as [|c s IH]; simpl; [done|]. by rewrite ascii_compare_refl. Qed.

(** [String.compare] never answers [Gt] along a chain that does not. *)
Lemma string_compare_not_gt_trans s1 : ∀ s2 s3,
  String.compare s1 s2 ≠ Gt → String.compare s2 s3 ≠ Gt →
  String.compare s1 s3 ≠ Gt.
Proof.
  induction s1 as [|c1 s1 IH]; intros [|c2 s2] [|c3 s3]; simpl; try done.
  unfold Ascii.compare.
  destruct (N.compare_spec (N_of_ascii c1) (N_of_ascii c2)) as [E12|L12|G12];
    destruct (N.compare_spec (N_of_ascii c2) (N_of_ascii c3)) as [E23|L23|G23];
    try done; intros H12 H23.
  - rewrite E12, E23, N.compare_refl. by apply IH with s2.
  - rewrite E12. by apply N.compare_lt_iff in L23 as ->.
  - rewrite <- E23. by apply N.compare_lt_iff in L12 as ->.
  - assert (N_of_ascii c1 < N_of_ascii c3)%N as L by lia.
    by apply N.compare_lt_iff in L as ->.
Qed.

Lemma string_ltb_false s1 s2 :
  String.ltb s1 s2 = false ↔ String.compare s2 s1 ≠ Gt.
Proof.
  unfold String.ltb. rewrite (String.compare_antisym s2 s1).
  destruct (String.compare s1 s2); simpl; split; congruence.
Qed.

Lemma key_le_spec k1 k2 :
  key_le k1 k2 ↔
  k1.1 < k2.1 ∨ (k1.1 = k2.1 ∧ String.compare k1.2 k2.2 ≠ Gt).
Proof.
  unfold key_le, key_ltb.
  destruct (Nat.ltb_spec k2.1 k1.1) as [Hlt|Hge].
  { split; [discriminate | intros [?|[? _]]; lia]. }
  destruct (Nat.ltb_spec k1.1 k2.1) as [Hlt'|Hge'].
  { split; [intros _; by left | reflexivity]. }
  rewrite string_ltb_false. split.
  - intros H. right. split; [lia | exact H].
  - intros [?|[_ H]]; [lia | exact H].
Qed.

Lemma key_le_refl k : key_le k k.
Proof. apply key_le_spec. right. by rewrite string_compare_refl. Qed.

Lemma key_le_trans k1 k2 k3 : key_le k1 k2 → key_le k2 k3 → key_le k1 k3.
Proof.
  rewrite !key_le_spec. intros [?|[? ?]] [?|[? ?]]; try (left; lia).
  right. split; [lia|]. by apply string_compare_not_gt_trans with k2.2.
Qed.

Lemma key_le_total k1 k2 : key_le k1 k2 ∨ key_le k2 k1.
Proof.
  rewrite !key_le_spec.
  destruct (lt_eq_lt_dec k1.1 k2.1) as [[Hlt|Heq]|Hgt].
  - left. by left.
  - rewrite (String.compare_antisym k1.2 k2.2).
    destruct (String.compare k2.2 k1.2); simpl.
    + left. right. split; [exact Heq | done].
    + right. right. split; [by symmetry | done].
    + left. right. split; [exact Heq | done].
  - right. by left.
Qed.

Lemma key_le_antisym x y :
  key_le (sort_key x) (sort_key y) → key_le (sort_key y) (sort_key x) → x = y.
Proof.
  rewrite !key_le_spec. simpl. intros [Hl|[E1 H1]] [Hr|[E2 H2]]; try lia.
  rewrite (String.compare_antisym x y) in H1.
  destruct (String.compare y x) eqn:E; try done.
  symmetry. by apply String.compare_eq_iff.
Qed.
End KeyOrder.

(** ** [sorted(...)[-1]] is the greatest entry *)

Section SortedLast.
Import Allocator.

Lemma key_ltb_true_le x y :
  key_ltb (sort_key x) (sort_key y) = true → name_le x y.
Proof.
  intros Hlt. destruct (key_le_total (sort_key x) (sort_key y)) as [H|H]; [done|].
  unfold key_le in H. congruence.
Qed.

Lemma insert_by_elem x l y : y ∈ insert_by x l ↔ y = x ∨ y ∈ l.
Proof.
  induction l as [|z l IH]; simpl.
  - rewrite list_elem_of_singleton. set_solver.
  - destruct (key_ltb _ _); set_solver.
Qed.

Lemma sorted_elem_acc l : ∀ acc y,
  y ∈ foldl (λ acc x, insert_by x acc) acc l ↔ y ∈ acc ∨ y ∈ l.
Proof.
  induction l as [|x l IH]; intros acc y; simpl.
  - set_solver.
  - rewrite IH, insert_by_elem. set_solver.
Qed.

Lemma sorted_elem l y : y ∈ sorted l ↔ y ∈ l.
Proof. unfold sorted. rewrite sorted_elem_acc. set_solver. Qed.

Lemma insert_by_sorted x l :
  StronglySorted name_le l → StronglySorted name_le (insert_by x l).
Proof.
  induction 1 as [|z l Hs IH Hz]; simpl.
  - repeat constructor.
  - destruct (key_ltb (sort_key x) (sort_key z)) eqn:Hlt.
    + apply key_ltb_true_le in Hlt.
      constructor; [by constructor|].
      constructor; [done|].
      eapply Forall_impl; [exact Hz|].
      intros w Hw. by apply key_le_trans with (sort_key z).
    + constructor; [done|].
      apply Forall_forall. intros w Hw%insert_by_elem.
      destruct Hw as [->|Hw]; [exact Hlt|].
      by eapply Forall_forall in Hz.
Qed.

Lemma sorted_sorted l : StronglySorted name_le (sorted l).
Proof.
  unfold sorted. generalize (SSorted_nil name_le).
  generalize (@nil string) as acc.
  induction l as [|x l IH]; intros acc Hacc; simpl; [done|].
  apply IH. by apply insert_by_sorted.
Qed.

Lemma strongly_sorted_last l m :
  StronglySorted name_le l → last l = Some m → ∀ y, y ∈ l → name_le y m.
Proof.
  induction 1 as [|z l Hs IH Hz]; intros Hlast y Hy; [by inversion Hy|].
  destruct l as [|z' l'].
  - simpl in Hlast. apply list_elem_of_singleton in Hy. simplify_eq.
    apply key_le_refl.
  - change (last (z' :: l') = Some m) in Hlast.
    apply elem_of_cons in Hy as [->|Hy]; [|by apply IH].
    eapply Forall_forall in Hz; [exact Hz|].
    apply last_Some in Hlast as [l'' ->]. set_solver.
Qed.

(** The entry picked by [sorted(current_ext_stages, key=sort_key)[-1]]. *)
Lemma last_sorted_greatest l m :
  last (sorted l) = Some m → m ∈ l ∧ ∀ y, y ∈ l → name_le y m.
Proof.
  intros Hlast. split.
  - apply sorted_elem. apply last_Some in Hlast as [l' ->]. set_solver.
  - intros y Hy. apply strongly_sorted_last with (sorted l);
      [apply sorted_sorted | done | by apply sorted_elem].
Qed.

Lemma last_sorted_is_Some l : l ≠ [] → is_Some (last (sorted l)).
Proof.
  intros Hne. destruct (last (sorted l)) eqn:E; [by eexists|].
  apply last_None in E. destruct l as [|x l]; [done|].
  assert (x ∈ sorted (x :: l)) as Hx by (apply sorted_elem; set_solver).
  rewrite E in Hx. by inversion Hx.
Qed.

(** The pick depends on the set of names only, not on the listing order. *)
Lemma last_sorted_set l1 l2 :
  (∀ x, x ∈ l1 ↔ x ∈ l2) → last (sorted l1) = last (sorted l2).
Proof.
  intros Hset.
  destruct l1 as [|a l1], l2 as [|b l2]; [done| | |].
  - specialize (Hset b). set_solver.
  - specialize (Hset a). set_solver.
  - destruct (last_sorted_is_Some (a :: l1)) as [m1 H1]; [done|].
    destruct (last_sorted_is_Some (b :: l2)) as [m2 H2]; [done|].
    rewrite H1, H2. f_equal.
    apply last_sorted_greatest in H1 as [Hin1 Hmax1].
    apply last_sorted_greatest in H2 as [Hin2 Hmax2].
    apply key_le_antisym.
    + apply Hmax2, Hset, Hin1.
    + apply Hmax1, Hset, Hin2.
Qed.
End SortedLast.

(** ** [inc] as the successor of a base-26 counter *)

Section Counter.
Import Allocator.

Lemma ord_chr n : n < 256 → ord (chr n) = n.
Proof. apply nat_ascii_embedding. Qed.

Lemma is_lower_range c : is_lower c = true ↔ 97 ≤ ord c ≤ 122.
Proof.
  unfold is_lower. rewrite andb_true_iff, !Nat.leb_le. done.
Qed.

Lemma counter_value_chars_snoc cs c :
  counter_value_chars (cs ++ [c]) = 26 * counter_value_chars cs + digit c.
Proof. unfold counter_value_chars. by rewrite foldl_snoc. Qed.

Lemma string_length_chars s : String.length s = length (list_ascii_of_string s).
Proof. induction s as [|c s IH]; simpl; [done | by rewrite IH]. Qed.

Lemma forallb_rev {A} (f : A → bool) l : forallb f (rev l) = forallb f l.
Proof.
  induction l as [|x l IH]; simpl; [done|].
  rewrite forallb_app, IH. simpl. rewrite andb_true_r. apply andb_comm.
Qed.

Lemma over_zero n : (n / 122 =? 0) = true ↔ n < 122.
Proof. rewrite Nat.eqb_eq, Nat.div_small_iff by lia. done. Qed.

(** The two branches of [inc]. *)
Lemma inc_rev_step x rest :
  ord x < 122 → inc_rev x rest = chr (ord x + 1) :: rest.
Proof.
  intros Hlt%over_zero. destruct rest; cbn [inc_rev]; by rewrite Hlt.
Qed.

Lemma inc_rev_wrap x rest :
  122 ≤ ord x →
  inc_rev x rest
  = "a"%char :: match rest with [] => ["a"%char] | y :: r => inc_rev y r end.
Proof.
  intros Hge.
  assert ((ord x / 122 =? 0) = false) as Hq.
  { apply not_true_iff_false. rewrite over_zero. lia. }
  destruct rest; cbn [inc_rev]; by rewrite Hq.
Qed.

Lemma counter_value_chars_rev_cons x r :
  counter_value_chars (rev (x :: r))
  = 26 * counter_value_chars (rev r) + digit x.
Proof. cbn [rev]. apply counter_value_chars_snoc. Qed.

Lemma digit_a : digit "a"%char = 1.
Proof. reflexivity. Qed.

Lemma counter_value_chars_nil : counter_value_chars [] = 0.
Proof. reflexivity. Qed.

(** One step of the counter on the reversed name. *)
Lemma inc_rev_lower rest : ∀ x,
  is_lower x = true → forallb is_lower rest = true →
  forallb is_lower (inc_rev x rest) = true ∧
  counter_value_chars (rev (inc_rev x rest))
    = counter_value_chars (rev (x :: rest)) + 1 ∧
  length (inc_rev x rest)
    = length (x :: rest) + (if forallb is_z (x :: rest) then 1 else 0).
Proof.
  induction rest as [|y rest IH]; intros x Hx Hrest;
    pose proof Hx as Hr; apply is_lower_range in Hr;
    cbn [forallb]; unfold is_z at 1;
    destruct (Nat.eqb_spec (ord x) 122) as [Hz|Hz].
  - rewrite inc_rev_wrap by lia. split; [done|split; [|done]].
    rewrite !counter_value_chars_rev_cons. cbn [rev].
    rewrite counter_value_chars_nil, digit_a. unfold digit. lia.
  - rewrite inc_rev_step by lia. cbn [forallb andb length].
    rewrite counter_value_chars_rev_cons. cbn [rev].
    rewrite counter_value_chars_snoc, counter_value_chars_nil.
    unfold digit. rewrite ord_chr by lia.
    split; [|lia]. rewrite andb_true_r. apply is_lower_range.
    rewrite ord_chr; lia.
  - cbn [forallb] in Hrest. apply andb_true_iff in Hrest as [Hy Hrest].
    destruct (IH y Hy Hrest) as (IHl & IHv & IHn).
    rewrite inc_rev_wrap by lia. cbn [andb].
    split; [|split].
    + cbn [forallb]. by rewrite IHl.
    + rewrite (counter_value_chars_rev_cons "a"%char), IHv.
      rewrite (counter_value_chars_rev_cons x). rewrite digit_a.
      unfold digit. lia.
    + cbn [length forallb] in *. rewrite IHn. lia.
  - rewrite inc_rev_step by lia. cbn [andb].
    cbn [forallb] in Hrest. apply andb_true_iff in Hrest as [Hy Hrest].
    split; [|split].
    + cbn [forallb]. rewrite Hy, Hrest, !andb_true_r.
      apply is_lower_range. rewrite ord_chr; lia.
    + rewrite !(counter_value_chars_rev_cons _ (y :: rest)).
      unfold digit. rewrite ord_chr by lia. lia.
    + cbn [length]. lia.
Qed.

Lemma all_z_rev s :
  forallb is_z (rev (list_ascii_of_string s)) = all_z s.
Proof. apply forallb_rev. Qed.

(** [inc] on an allocated name: it returns, the result is again a
    lower-case name, its value is one more, and it is one character
    longer exactly when every digit wrapped. *)
Lemma inc_lower_name s :
  lower_name s →
  ∃ next, inc s = Return next ∧ lower_name next ∧
    counter_value next = counter_value s + 1 ∧
    String.length next = String.length s + (if all_z s then 1 else 0).
Proof.
  intros [Hne Hlow].
  assert (∃ r, rev (list_ascii_of_string s) = r ∧ list_ascii_of_string s = rev r)
    as (r & E & El).
  { eexists. split; [done|]. by rewrite rev_involutive. }
  unfold inc, all_z. rewrite E, (string_length_chars s).
  unfold counter_value. rewrite El, forallb_rev, length_rev.
  rewrite El, forallb_rev in Hlow.
  destruct r as [|x rest].
  { apply (f_equal string_of_list_ascii) in El.
    rewrite string_of_list_ascii_of_string in El. done. }
  cbn [forallb] in Hlow. apply andb_true_iff in Hlow as [Hx Hrest].
  destruct (inc_rev_lower rest x Hx Hrest) as (Hl & Hv & Hn).
  eexists. split; [done|]. unfold lower_name.
  rewrite string_length_chars, list_ascii_of_string_of_list_ascii.
  rewrite forallb_rev, length_rev.
  repeat split; try done.
  intros Heq. apply (f_equal String.length) in Heq.
  rewrite string_length_chars, list_ascii_of_string_of_list_ascii, length_rev in Heq.
  rewrite Hn in Heq. cbn [String.length length] in Heq. lia.
Qed.
End Counter.

(** ** [inc], case by case *)

Section IncEquations.
Import Allocator.

Lemma list_ascii_app a b :
  list_ascii_of_string (a +:+ b) = list_ascii_of_string a ++ list_ascii_of_string b.
Proof. induction a as [|c a IH]; simpl; [done|]. by rewrite IH. Qed.

Lemma string_of_list_app a b :
  string_of_list_ascii (a ++ b) = string_of_list_ascii a +:+ string_of_list_ascii b.
Proof. induction a as [|c a IH]; simpl; [done|]. by rewrite IH. Qed.

Lemma rev_chars_snoc body x :
  rev (list_ascii_of_string (body +:+ String x ""))
  = x :: rev (list_ascii_of_string body).
Proof. rewrite list_ascii_app. cbn [list_ascii_of_string]. apply rev_unit. Qed.

(** [return c[:-1] + chr(curr + 1)] *)
Lemma inc_step body x :
  ord x < 122 →
  inc (body +:+ String x "") = Return (body +:+ String (chr (ord x + 1)) "").
Proof.
  intros Hlt. unfold inc. rewrite rev_chars_snoc, inc_rev_step by done.
  cbn [rev]. rewrite rev_involutive, string_of_list_app.
  by rewrite string_of_list_ascii_of_string.
Qed.

(** [return "a" + "a"], when [c[:-1]] is empty *)
Lemma inc_wrap_single x : 122 ≤ ord x → inc (String x "") = Return "aa".
Proof.
  intros Hge. unfold inc. cbn [list_ascii_of_string rev app].
  by rewrite inc_rev_wrap.
Qed.

(** [return inc(c[:-1]) + "a"], when [c[:-1]] is not empty *)
Lemma inc_wrap body x :
  122 ≤ ord x → body ≠ "" →
  inc (body +:+ String x "") = (r ← inc body; Return (r +:+ "a")).
Proof.
  intros Hge Hne. unfold inc. rewrite rev_chars_snoc, inc_rev_wrap by done.
  destruct (rev (list_ascii_of_string body)) as [|y rest] eqn:E.
  { apply (f_equal (@rev ascii)) in E. rewrite rev_involutive in E.
    apply (f_equal string_of_list_ascii) in E.
    by rewrite string_of_list_ascii_of_string in E. }
  cbn [mbind result_bind rev]. by rewrite string_of_list_app.
Qed.
End IncEquations.

(** ** The allocator *)

Section NextOpenSubdir.
Import Allocator.

Lemma name_le_length_lex x y : name_le x y ↔ length_lex_le x y.
Proof. apply key_le_spec. Qed.

Lemma next_open_subdir_set l1 l2 :
  (∀ x, x ∈ l1 ↔ x ∈ l2) →
  _compute_next_open_subdir l1 = _compute_next_open_subdir l2.
Proof.
  intros Hset. unfold _compute_next_open_subdir.
  rewrite (last_sorted_set l1 l2 Hset).
  destruct l1 as [|a l1], l2 as [|b l2]; try done.
  - specialize (Hset b). set_solver.
  - specialize (Hset a). set_solver.
Qed.

Lemma next_open_subdir_greatest names :
  names ≠ [] →
  ∃ greatest,
    greatest ∈ names ∧ (∀ y, y ∈ names → length_lex_le y greatest) ∧
    _compute_next_open_subdir names = inc greatest.
Proof.
  intros Hne.
  destruct (last_sorted_is_Some names Hne) as [m Hm].
  destruct (last_sorted_greatest names m Hm) as [Hin Hmax].
  exists m. split; [done|]. split.
  { intros y Hy. by apply name_le_length_lex, Hmax. }
  unfold _compute_next_open_subdir. rewrite Hm. by destruct names.
Qed.

Lemma next_open_subdir_lower names :
  names ≠ [] → Forall lower_name names →
  ∃ greatest next,
    greatest ∈ names ∧ (∀ y, y ∈ names → length_lex_le y greatest) ∧
    _compute_next_open_subdir names = Return next ∧
    lower_name next ∧
    counter_value next = counter_value greatest + 1 ∧
    String.length next
      = String.length greatest + (if all_z greatest then 1 else 0).
Proof.
  intros Hne Hlow.
  destruct (next_open_subdir_greatest names Hne) as (m & Hin & Hmax & Heq).
  destruct (inc_lower_name m) as (next & Hinc & Hnext).
  { eapply Forall_forall in Hlow; eauto. }
  exists m, next. split; [done|]. split; [done|].
  split; [|done]. by rewrite Heq.
Qed.
End NextOpenSubdir.

(** C4.  [_compute_next_open_subdir] answers ["a"] for an empty external
    root, ["aa"] for the entries ["a"] ... ["z"] and ["ba"] for the single
    entry ["az"]; its answer depends on the set of names only; for a
    non-empty set it is [inc] of the name that is greatest by length, then
    lexicographically; and on lower-case names [inc] is the successor of a
    bijective base-26 numeral over [a]..[z], the result being one character
    longer exactly when the name was made of [z]s only. *)
Theorem next_open_subdir_counter :
  Allocator._compute_next_open_subdir [] = Return "a"
  ∧ Allocator._compute_next_open_subdir Allocator.alphabet = Return "aa"
  ∧ Allocator._compute_next_open_subdir ["az"] = Return "ba"
  ∧ (∀ l1 l2 : list string, (∀ x, x ∈ l1 ↔ x ∈ l2) →
       Allocator._compute_next_open_subdir l1
       = Allocator._compute_next_open_subdir l2)
  ∧ (∀ names : list string,
       names ≠ [] →
       ∃ greatest,
         greatest ∈ names
         ∧ (∀ y, y ∈ names → Allocator.length_lex_le y greatest)
         ∧ Allocator._compute_next_open_subdir names = Allocator.inc greatest)
  ∧ (∀ names : list string,
       names ≠ [] → Forall Allocator.lower_name names →
       ∃ greatest next,
         greatest ∈ names
         ∧ (∀ y, y ∈ names → Allocator.length_lex_le y greatest)
         ∧ Allocator._compute_next_open_subdir names = Return next
         ∧ Allocator.lower_name next
         ∧ Allocator.counter_value next = Allocator.counter_value greatest + 1
         ∧ String.length next
           = String.length greatest
             + (if Allocator.all_z greatest then 1 else 0)).
Proof.
  split; [reflexivity|]. split; [vm_compute; reflexivity|].
  split; [reflexivity|]. split; [apply next_open_subdir_set|].
  split; [apply next_open_subdir_greatest|apply next_open_subdir_lower].
Qed.

Lemma next_open_subdir_counter_witness :
  ∃ greatest next,
    greatest ∈ ["b"; "zz"; "a"]
    ∧ (∀ y, y ∈ ["b"; "zz"; "a"] → Allocator.length_lex_le y greatest)
    ∧ Allocator._compute_next_open_subdir ["b"; "zz"; "a"] = Return next
    ∧ Allocator.lower_name next
    ∧ Allocator.counter_value next = Allocator.counter_value greatest + 1
    ∧ String.length next
      = String.length greatest + (if Allocator.all_z greatest then 1 else 0).
Proof.
  apply (proj2 (proj2 (proj2 (proj2 (proj2 next_open_subdir_counter))))).
  - discriminate.
  - repeat constructor; discriminate.
Defined.

(** ** The fetch chain *)

Section FetchChain.
Import Stage.

Lemma insert_front_all_cons {X} (make : X → origin) x xs w acc :
  insert_front_all make (x :: xs) (w, acc)
  = insert_front_all make xs
      ((fresh w).2, {| oid := (fresh w).1; made := make x |} :: acc).
Proof. reflexivity. Qed.

Lemma insert_front_all_spec {X} (make : X → origin) (xs : list X) :
  ∀ w acc, ∃ w' news,
    insert_front_all make xs (w, acc) = (w', news ++ acc)
    ∧ map made news = rev (map make xs)
    ∧ trace w' = trace w ∧ files w' = files w.
Proof.
  induction xs as [|x xs IH]; intros w acc.
  - exists w, []. done.
  - rewrite insert_front_all_cons.
    destruct (IH (fresh w).2 ({| oid := (fresh w).1; made := make x |} :: acc))
      as (w' & news & -> & Hmade & Htr & Hfs).
    exists w', (news ++ [{| oid := (fresh w).1; made := make x |}]).
    rewrite <- app_assoc. split; [done|]. split; [|done].
    rewrite map_app, Hmade. done.
Qed.

Lemma mirror_urls_no_paths env : mirror_urls env [] = [].
Proof.
  unfold mirror_urls. induction (mirrors env) as [|m ms IH]; [done|]. exact IH.
Qed.

Lemma default_fetcher_set_skip b s :
  default_fetcher (set_skip_checksum_for_mirror b s) = default_fetcher s.
Proof. reflexivity. Qed.

(** The list built by [fetch]: new objects for the cache and the mirrors,
    in that order, in front of the default fetcher. *)
Lemma build_fetchers_spec env mirror_only s w :
  ∃ w' s' news,
    build_fetchers env mirror_only s w
      = (w', s', news ++ (if mirror_only then [] else [default_fetcher s]))
    ∧ map made news = cache_origins s ++ mirror_origins env s
    ∧ trace w' = trace w ∧ files w' = files w
    ∧ default_fetcher s' = default_fetcher s
    ∧ search_fn s' = search_fn s ∧ name s' = name s.
Proof.
  unfold build_fetchers, cache_origins, mirror_origins.
  cbn [mirror_paths set_skip_checksum_for_mirror].
  destruct (mirror_paths s) as [|p ps] eqn:Hmp.
  { exists w, (set_skip_checksum_for_mirror true s), [].
    rewrite mirror_urls_no_paths.
    destruct (mirror_metadata s) as [[d e] x].
    by destruct (cachable (default_fetcher s)). }
  change (mirror_metadata (set_skip_checksum_for_mirror true s))
    with (mirror_metadata s).
  destruct (mirror_metadata s) as [[d e] x].
  cbn [default_fetcher set_skip_checksum_for_mirror].
  set (urls := mirror_urls env (p :: ps)).
  set (base := if mirror_only then [] else [default_fetcher s]).
  destruct (insert_front_all_spec
    (λ u, FromUrlScheme u d e x (default None (dict_get u urls)))
    (rev (map fst urls)) w base) as (w1 & ms & -> & Hms & Htr1 & Hfs1).
  rewrite map_rev, rev_involutive in Hms.
  destruct (cachable (default_fetcher s)).
  - destruct (insert_front_all_spec
      (λ rel_path, FromFetchCache rel_path d e x)
      (rev (p :: ps)) w1 (ms ++ base)) as (w2 & cs & -> & Hcs & Htr2 & Hfs2).
    rewrite map_rev, rev_involutive in Hcs.
    eexists w2, _, (cs ++ ms). rewrite <- app_assoc. split; [done|].
    rewrite map_app, Hcs, Hms. repeat split; congruence.
  - eexists w1, _, ms. split; [done|]. rewrite Hms. done.
Qed.

Lemma fetched_in_app tr1 tr2 :
  fetched_in (tr1 ++ tr2) = fetched_in tr1 ++ fetched_in tr2.
Proof. unfold fetched_in. apply omap_app. Qed.

(** The loop tries the candidates in order and stops at the first success. *)
Lemma try_fetchers_spec env cands : ∀ errors s w,
  ∃ w' s' errors' broke,
    try_fetchers env cands errors s w = (w', s', errors', broke)
    ∧ fetched_in (trace w') = fetched_in (trace w) ++ tried env cands
    ∧ files w' = files w
    ∧ default_fetcher s' = default_fetcher s
    ∧ search_fn s' = search_fn s ∧ name s' = name s
    ∧ match find (succeeds env) cands with
      | Some f => broke = true ∧ fetcher s' = f
      | None => broke = false
      end.
Proof.
  induction cands as [|f rest IH]; intros errors s w.
  - exists w, s, errors, false. cbn. rewrite app_nil_r. done.
  - cbn [try_fetchers tried find].
    destruct (fetch_outcome env f) eqn:Hf.
    + assert (succeeds env f = true) as -> by (unfold succeeds; by rewrite Hf).
      eexists _, _, _, _. split; [done|].
      cbn [trace emit]. rewrite fetched_in_app. done.
    + assert (succeeds env f = false) as -> by (unfold succeeds; by rewrite Hf).
      destruct (IH errors (set_fetcher f s) (emit (FetcherFetch f) w))
        as (w' & s' & e' & b & -> & Htr & Hfs & Hd & Hsf & Hn & Hfind).
      eexists _, _, _, _. split; [done|].
      rewrite Htr. cbn [trace emit]. rewrite fetched_in_app, <- app_assoc.
      done.
    + assert (succeeds env f = false) as -> by (unfold succeeds; by rewrite Hf).
      destruct (IH (errors ++ [f]) (set_fetcher f s) (emit (FetcherFetch f) w))
        as (w' & s' & e' & b & -> & Htr & Hfs & Hd & Hsf & Hn & Hfind).
      eexists _, _, _, _. split; [done|].
      rewrite Htr. cbn [trace emit]. rewrite fetched_in_app, <- app_assoc.
      done.
Qed.

Lemma tried_app env a b :
  tried env (a ++ b)
  = tried env a ++ (match find (succeeds env) a with Some _ => [] | None => tried env b end).
Proof.
  induction a as [|f a IH]; [done|].
  cbn [app tried find]. destruct (succeeds env f); [done|].
  by rewrite IH.
Qed.

Lemma find_app {A} (p : A → bool) a b :
  find p (a ++ b) = match find p a with Some x => Some x | None => find p b end.
Proof.
  induction a as [|x a IH]; [done|]. cbn. by destruct (p x).
Qed.

Lemma candidates_eq env mirror_only s w :
  ∃ w' s' static,
    build_fetchers env mirror_only s w = (w', s', static)
    ∧ candidates env mirror_only s w
      = static ++ (if negb mirror_only then dynamic_fetchers s else []).
Proof.
  unfold candidates.
  destruct (build_fetchers env mirror_only s w) as [[w' s'] static].
  by exists w', s', static.
Qed.

(** [fetch] as a whole. *)
Lemma fetch_spec env mirror_only err_msg s w :
  ∃ w' s' r,
    fetch env mirror_only err_msg s w = (w', s', r)
    ∧ fetched_in (trace w')
      = fetched_in (trace w) ++ tried env (candidates env mirror_only s w)
    ∧ files w' = files w
    ∧ default_fetcher s' = default_fetcher s
    ∧ match find (succeeds env) (candidates env mirror_only s w) with
      | Some f => r = Return tt ∧ fetcher s' = f
      | None =>
          r = Raise (FetchError (py_or err_msg (default_msg s)))
          ∧ fetcher s' = default_fetcher s
      end.
Proof.
  destruct (candidates_eq env mirror_only s w) as (w0 & s0 & static & Hb & ->).
  destruct (build_fetchers_spec env mirror_only s w)
    as (w0' & s0' & news & Hb' & _ & Htr0 & Hfs0 & Hd0 & Hsf0 & Hn0).
  rewrite Hb in Hb'. injection Hb' as <- <- Hstatic.
  unfold fetch. rewrite Hb.
  destruct (try_fetchers_spec env static [] s0 w0)
    as (w1 & s1 & e1 & b1 & -> & Htr1 & Hfs1 & Hd1 & Hsf1 & Hn1 & Hfind1).
  rewrite tried_app, find_app.
  unfold dynamic_fetchers. rewrite <- Hsf0, <- Hsf1.
  assert (default_msg s1 = default_msg s) as Hmsg.
  { unfold default_msg. congruence. }
  destruct (find (succeeds env) static) as [f|].
  - destruct Hfind1 as [-> Hf]. eexists _, _, _. split; [done|].
    rewrite app_nil_r, Htr1, Htr0. repeat split; congruence.
  - subst b1. destruct (search_fn s1) as [dyn|] eqn:Hsf; cbn [default from_option id].
    + destruct mirror_only; cbn [negb].
      * eexists _, _, _. split; [done|].
        cbn [find tried]. rewrite app_nil_r, Hmsg, Htr1, Htr0.
        repeat split; try congruence; cbn; congruence.
      * destruct (try_fetchers_spec env dyn e1 s1 (emit SearchFn w1))
          as (w2 & s2 & e2 & b2 & -> & Htr2 & Hfs2 & Hd2 & Hsf2 & Hn2 & Hfind2).
        cbn [trace emit] in Htr2. rewrite fetched_in_app in Htr2.
        cbn [fetched_in omap app] in Htr2. rewrite app_nil_r in Htr2.
        cbn [files emit] in Hfs2.
        assert (default_msg s2 = default_msg s) as Hmsg2.
        { unfold default_msg. congruence. }
        destruct (find (succeeds env) dyn) as [f|].
        -- destruct Hfind2 as [-> Hf]. eexists _, _, _. split; [done|].
           rewrite Htr2, Htr1, Htr0, app_assoc.
           repeat split; congruence.
        -- subst b2. eexists _, _, _. split; [done|].
           rewrite Htr2, Htr1, Htr0, app_assoc, Hmsg2.
           repeat split; try congruence; cbn; congruence.
    + eexists _, _, _. split; [done|].
      assert ((if negb mirror_only then @nil FetchStrategy else []) = []) as ->
        by (by destruct mirror_only).
      cbn [tried find]. rewrite app_nil_r, Hmsg, Htr1, Htr0.
      repeat split; try congruence; cbn; congruence.
Qed.
End FetchChain.

Section FetchClaims.
Import Stage.

Lemma tried_first_success env pre f post :
  Forall (λ g, succeeds env g = false) pre → succeeds env f = true →
  tried env (pre ++ f :: post) = pre ++ [f].
Proof.
  induction 1 as [|g pre Hg _ IH]; intros Hf; cbn [app tried].
  - by rewrite Hf.
  - by rewrite Hg, IH.
Qed.

Lemma tried_all_fail env cands :
  Forall (λ g, succeeds env g = false) cands → tried env cands = cands.
Proof.
  induction 1 as [|g cands Hg _ IH]; cbn [tried]; [done|]. by rewrite Hg, IH.
Qed.

Lemma find_none_all_fail env cands :
  Forall (λ g, succeeds env g = false) cands → find (succeeds env) cands = None.
Proof.
  induction 1 as [|g cands Hg _ IH]; cbn [find]; [done|]. by rewrite Hg.
Qed.

Lemma find_some_exists env cands :
  Exists (λ g, succeeds env g = true) cands →
  ∃ f, find (succeeds env) cands = Some f ∧ f ∈ cands ∧ succeeds env f = true.
Proof.
  induction 1 as [g cands Hg|g cands _ IH]; cbn [find].
  - rewrite Hg. exists g. split; [done|]. split; [set_solver|done].
  - destruct (succeeds env g) eqn:Hg.
    + exists g. split; [done|]. split; [set_solver|done].
    + destruct IH as (f & -> & Hin & Hf). exists f. set_solver.
Qed.

Lemma candidates_order env s w :
  ∃ news,
    candidates env false s w = news ++ [default_fetcher s] ++ dynamic_fetchers s
    ∧ map made news = cache_origins s ++ mirror_origins env s.
Proof.
  destruct (candidates_eq env false s w) as (w0 & s0 & static & Hb & ->).
  destruct (build_fetchers_spec env false s w)
    as (w0' & s0' & news & Hb' & Hmade & _).
  rewrite Hb in Hb'. injection Hb' as _ _ ->.
  exists news. by rewrite <- app_assoc.
Qed.
End FetchClaims.

(** C1, as the code has it.  With [mirror_only] false the candidates are, in
    this order: the cache fetchers (one per mirror path, only for a cachable
    default fetcher), the mirror fetchers (one per mirror URL), the default
    fetcher, and the fetchers found by [search_fn]; [fetch] calls them in
    that order and stops after the first one that succeeds. *)
Theorem fetch_candidates_mirrors_first (env : Env) (err_msg : option string)
    (s : Stage.t) (w : World) :
  let cands := Stage.candidates env false s w in
  let w' := (Stage.fetch env false err_msg s w).1.1 in
  (∃ news,
     cands = news ++ [Stage.default_fetcher s] ++ Stage.dynamic_fetchers s
     ∧ map made news = Stage.cache_origins s ++ Stage.mirror_origins env s)
  ∧ map made cands = Stage.mirrors_first_order env s
  ∧ (∀ pre f post,
       cands = pre ++ f :: post →
       Forall (λ g, Stage.succeeds env g = false) pre →
       Stage.succeeds env f = true →
       Stage.fetched_in (trace w') = Stage.fetched_in (trace w) ++ pre ++ [f])
  ∧ (Forall (λ g, Stage.succeeds env g = false) cands →
       Stage.fetched_in (trace w') = Stage.fetched_in (trace w) ++ cands).
Proof.
  intros cands w'.
  destruct (fetch_spec env false err_msg s w)
    as (w1 & s1 & r & Hfetch & Htr & _).
  assert (w' = w1) as -> by (unfold w'; by rewrite Hfetch).
  destruct (candidates_order env s w) as (news & Hc & Hmade).
  fold cands in Hc, Htr.
  split; [by exists news|]. split.
  - rewrite Hc, !map_app, Hmade. unfold Stage.mirrors_first_order.
    by rewrite <- app_assoc.
  - split.
    + intros pre f post Heq Hpre Hf. rewrite Htr, Heq.
      by rewrite tried_first_success.
    + intros Hall. by rewrite Htr, tried_all_fail.
Qed.

Lemma fetch_candidates_mirrors_first_witness :
  Stage.fetched_in
    (trace (Stage.fetch (Scenario.env_with Scenario.outcome_upstream_ok true true)
              false None Scenario.stage_pkg Scenario.world_pkg).1.1)
  = [Scenario.cache_pkg; Scenario.mirror_pkg].
Proof.
  apply (proj1 (proj2 (proj2
    (fetch_candidates_mirrors_first
       (Scenario.env_with Scenario.outcome_upstream_ok true true) None
       Scenario.stage_pkg Scenario.world_pkg)))
    [Scenario.cache_pkg] Scenario.mirror_pkg [Scenario.upstream]).
  - reflexivity.
  - repeat constructor.
  - reflexivity.
Defined.

(** C1 as stated fails: for a stage with one mirror path, one configured
    mirror and [mirror_only] false, the candidates do not start with the
    default fetcher; with a working upstream and a working mirror, [fetch]
    takes the archive from the mirror and never calls the default fetcher. *)
Lemma fetch_default_first_counterexample :
  Stage.mirror_paths Scenario.stage_pkg ≠ []
  ∧ mirrors (Scenario.env_with Scenario.outcome_upstream_ok true true) ≠ []
  ∧ map made
      (Stage.candidates (Scenario.env_with Scenario.outcome_upstream_ok true true)
         false Scenario.stage_pkg Scenario.world_pkg)
    ≠ Stage.default_first_order
        (Scenario.env_with Scenario.outcome_upstream_ok true true)
        Scenario.stage_pkg
  ∧ Stage.succeeds (Scenario.env_with Scenario.outcome_upstream_ok true true)
      (Stage.default_fetcher Scenario.stage_pkg) = true
  ∧ Stage.fetched_in
      (trace (Stage.fetch (Scenario.env_with Scenario.outcome_upstream_ok true true)
                false None Scenario.stage_pkg Scenario.world_pkg).1.1)
    = [Scenario.cache_pkg; Scenario.mirror_pkg].
Proof.
  split; [discriminate|]. split; [discriminate|].
  split; [vm_compute; discriminate|].
  split; reflexivity.
Qed.

(** C2, as the code has it.  When every candidate fails, [fetch] puts the
    default fetcher back and raises [FetchError] with [err_msg or
    default_msg]: the caller's message when it is a non-empty string, the
    default message when it is [None] or empty.  When some candidate
    succeeds, [fetch] returns and the active fetcher is a candidate that
    succeeded. *)
Theorem fetch_exhausted_or_success (env : Env) (mirror_only : bool)
    (err_msg : option string) (s s' : Stage.t) (w w' : World) (r : result unit) :
  Stage.fetch env mirror_only err_msg s w = (w', s', r) →
  let cands := Stage.candidates env mirror_only s w in
  (Forall (λ f, Stage.succeeds env f = false) cands →
     Stage.fetcher s' = Stage.default_fetcher s
     ∧ r = Raise (FetchError (Stage.py_or err_msg (Stage.default_msg s)))
     ∧ (∀ m, err_msg = Some m → m ≠ "" →
          r = Raise (FetchError m))
     ∧ (err_msg = None ∨ err_msg = Some "" →
          r = Raise (FetchError ("All fetchers failed for " +:+ Stage.name s))))
  ∧ (Exists (λ f, Stage.succeeds env f = true) cands →
     r = Return tt
     ∧ Stage.fetcher s' ∈ cands
     ∧ Stage.succeeds env (Stage.fetcher s') = true).
Proof.
  intros Hfetch cands.
  destruct (fetch_spec env mirror_only err_msg s w)
    as (w1 & s1 & r1 & Hfetch1 & _ & _ & _ & Hfind).
  rewrite Hfetch in Hfetch1. injection Hfetch1 as <- <- <-.
  fold cands in Hfind. split.
  - intros Hall. rewrite (find_none_all_fail env cands Hall) in Hfind.
    destruct Hfind as [-> ->]. split; [done|]. split; [done|]. split.
    + intros m -> Hm. cbn [Stage.py_or]. by destruct m.
    + intros [->| ->]; reflexivity.
  - intros Hex. destruct (find_some_exists env cands Hex) as (f & Hf & Hin & Hok).
    rewrite Hf in Hfind. destruct Hfind as [-> ->]. done.
Qed.

Lemma fetch_exhausted_or_success_witness :
  Stage.fetcher
    (Stage.fetch (Scenario.env_with Scenario.outcome_all_fail true true)
       false (Some "could not fetch pkg") Scenario.stage_pkg Scenario.world_pkg).1.2
  = Scenario.upstream
  ∧ (Stage.fetch (Scenario.env_with Scenario.outcome_all_fail true true)
       false (Some "could not fetch pkg") Scenario.stage_pkg Scenario.world_pkg).2
    = Raise (FetchError "could not fetch pkg").
Proof.
  destruct (Stage.fetch (Scenario.env_with Scenario.outcome_all_fail true true)
       false (Some "could not fetch pkg") Scenario.stage_pkg Scenario.world_pkg)
    as [[w' s'] r] eqn:Hfetch.
  destruct (proj1 (fetch_exhausted_or_success _ _ _ _ _ _ _ _ Hfetch))
    as (Hf & _ & Hmsg & _).
  - repeat constructor.
  - split; [exact Hf|]. apply (Hmsg "could not fetch pkg"); [reflexivity|discriminate].
Defined.

(** C2 as stated fails for an empty message: every candidate fails, the
    caller supplies [""], and the error carries the default message. *)
Lemma fetch_error_message_counterexample :
  Forall (λ f, Stage.succeeds (Scenario.env_with Scenario.outcome_all_fail true true) f = false)
    (Stage.candidates (Scenario.env_with Scenario.outcome_all_fail true true)
       false Scenario.stage_pkg Scenario.world_pkg)
  ∧ (Stage.fetch (Scenario.env_with Scenario.outcome_all_fail true true)
       false (Some "") Scenario.stage_pkg Scenario.world_pkg).2
    = Raise (FetchError "All fetchers failed for pkg")
  ∧ (Stage.fetch (Scenario.env_with Scenario.outcome_all_fail true true)
       false (Some "") Scenario.stage_pkg Scenario.world_pkg).2
    ≠ Raise (FetchError
        (Stage.supplied_or_default (Some "") (Stage.default_msg Scenario.stage_pkg))).
Proof.
  split; [repeat constructor|]. split; [reflexivity|].
  vm_compute. discriminate.
Qed.

(** ** Checksum policy *)

(** C3.  [check] raises, and then [ChecksumError], exactly when checksum
    verification is enabled, the active fetcher is not a mirror substitute
    without digest (an object other than the default fetcher while
    [skip_checksum_for_mirror] is set) and the fetcher's own check fails.
    With verification disabled it returns.  For a mirror substitute without
    digest it emits the warning, does not call the fetcher's check and
    returns. *)
Theorem check_raises_iff (env : Env) (s : Stage.t) (w : World) :
  let substitute :=
    negb (same_object (Stage.fetcher s) (Stage.default_fetcher s))
    && Stage.skip_checksum_for_mirror s in
  let w' := (Stage.check env s w).1 in
  let r := (Stage.check env s w).2 in
  (raised r = true ↔
     config_checksum env = true ∧ substitute = false
     ∧ check_ok env (Stage.fetcher s) = false)
  ∧ (raised r = true → r = Raise ChecksumError)
  ∧ (config_checksum env = false → r = Return tt)
  ∧ (substitute = true →
       r = Return tt ∧ trace w' = trace w ++ [Warn Stage.mirror_warning])
  ∧ (substitute = false → config_checksum env = true →
       trace w' = trace w ++ [FetcherCheck (Stage.fetcher s)]).
Proof.
  cbv zeta. unfold Stage.check.
  destruct (negb (same_object (Stage.fetcher s) (Stage.default_fetcher s))
            && Stage.skip_checksum_for_mirror s);
    destruct (config_checksum env);
    destruct (check_ok env (Stage.fetcher s)); cbn;
    repeat split; try done; try (intros; naive_solver).
Qed.

Lemma check_raises_iff_witness :
  (Stage.check (Scenario.env_with Scenario.outcome_upstream_ok true false)
     Scenario.stage_pkg Scenario.world_pkg).2 = Raise ChecksumError.
Proof.
  pose proof (check_raises_iff
    (Scenario.env_with Scenario.outcome_upstream_ok true false)
    Scenario.stage_pkg Scenario.world_pkg) as (Hiff & Hexn & _).
  apply Hexn, Hiff. repeat split; reflexivity.
Defined.

(** ** The lock registry *)

Section LockRegistry.
Import Stage.

Lemma init_fetcher_locks x w : stage_locks (init_fetcher x w).2 = stage_locks w.
Proof. by destruct x. Qed.

Lemma init_name_locks env nm w : stage_locks (init_name env nm w).2 = stage_locks w.
Proof. by destruct nm. Qed.

Lemma init_name_given env n w : (init_name env (Some n) w).1 = n.
Proof. reflexivity. Qed.

(** With [lock=True] the stage gets the registered object, and the
    registry keeps every entry it had. *)
Lemma init_lock_spec env nm lock w :
  let w' := (init_lock env nm lock w).1 in
  let l := (init_lock env nm lock w).2 in
  (lock = true → l = stage_locks w' !! nm ∧ is_Some l)
  ∧ (lock = false → l = None)
  ∧ (∀ n x, stage_locks w !! n = Some x → stage_locks w' !! n = Some x).
Proof.
  unfold init_lock. destruct lock; cbn [fst snd]; [|done].
  destruct (stage_locks w !! nm) as [x|] eqn:Hnm.
  - rewrite Hnm. split; [intros _; split; [done|by eexists]|]. split; done.
  - cbn [fresh]. unfold register_lock; cbn [stage_locks].
    rewrite lookup_insert_eq.
    split; [intros _; split; [done|by eexists]|]. split; [done|].
    intros n x Hn. rewrite lookup_insert_ne; [done|]. congruence.
Qed.

Lemma construct_unfold env a w :
  construct env a w
  = let fw := init_fetcher (arg_fetcher a) w in
    let nw := init_name env (arg_name a) fw.2 in
    let lw := init_lock env nw.1 (arg_lock a) nw.2 in
    (lw.1,
     {| name := nw.1;
        _path := match arg_path a with
                 | Some p => p
                 | None => stage_root env ++ [nw.1]
                 end;
        keep := arg_keep a; created := false; _lock := lw.2;
        fetcher := fw.1; default_fetcher := fw.1;
        search_fn := arg_search_fn a; skip_checksum_for_mirror := true;
        mirror_paths := arg_mirror_paths a; srcdir := None |}).
Proof.
  unfold construct, __init__.
  destruct (init_fetcher (arg_fetcher a) w) as [f w1]. cbn [fst snd].
  destruct (init_name env (arg_name a) w1) as [nm w2]. cbn [fst snd].
  by destruct (init_lock env nm (arg_lock a) w2) as [w3 l].
Qed.

(** One construction never changes an entry of [Stage.stage_locks]. *)
Lemma construct_keeps_locks env a w n x :
  stage_locks w !! n = Some x →
  stage_locks (construct env a w).1 !! n = Some x.
Proof.
  intros Hn. rewrite construct_unfold. cbn [fst].
  apply init_lock_spec. by rewrite init_name_locks, init_fetcher_locks.
Qed.

Lemma construct_all_keeps_locks env l : ∀ w n x,
  stage_locks w !! n = Some x →
  stage_locks (construct_all env l w).1 !! n = Some x.
Proof.
  induction l as [|a l IH]; intros w n x Hn; [done|].
  cbn [construct_all].
  pose proof (construct_keeps_locks env a w n x Hn) as H1.
  destruct (construct env a w) as [w1 s]. cbn [fst] in H1.
  specialize (IH w1 n x H1).
  by destruct (construct_all env l w1) as [w2 ss].
Qed.

(** A named construction with [lock=True] yields the registered object. *)
Lemma construct_named_lock env a w n :
  arg_name a = Some n → arg_lock a = true →
  name (construct env a w).2 = n
  ∧ _lock (construct env a w).2 = stage_locks (construct env a w).1 !! n
  ∧ is_Some (stage_locks (construct env a w).1 !! n).
Proof.
  intros Hn Hl. rewrite construct_unfold. cbn [fst snd name _lock].
  rewrite Hn, Hl, init_name_given.
  destruct (init_lock_spec env n true (init_name env (Some n)
    (init_fetcher (arg_fetcher a) w).2).2) as ([H1 H2] & _); [done|].
  rewrite <- H1. done.
Qed.
End LockRegistry.

(** C7.  Two constructions [Stage(..., name=n, lock=True)] in one process,
    whatever other stages are constructed in between, hold the same lock
    object, the one registered for [n] in [Stage.stage_locks]; and no
    construction ever replaces the object registered for a name. *)
Theorem same_name_same_lock (env : Env) (a1 a2 : Stage.init_args)
    (between : list Stage.init_args) (n : string) (w : World) :
  Stage.arg_name a1 = Some n → Stage.arg_lock a1 = true →
  Stage.arg_name a2 = Some n → Stage.arg_lock a2 = true →
  let w1 := (Stage.construct env a1 w).1 in
  let s1 := (Stage.construct env a1 w).2 in
  let w2 := (Stage.construct_all env between w1).1 in
  let w3 := (Stage.construct env a2 w2).1 in
  let s2 := (Stage.construct env a2 w2).2 in
  (∃ l, Stage._lock s1 = Some l ∧ Stage._lock s2 = Some l
        ∧ stage_locks w1 !! n = Some l ∧ stage_locks w3 !! n = Some l)
  ∧ (∀ (a : Stage.init_args) (w0 : World) (m : string) (l : nat),
       stage_locks w0 !! m = Some l →
       stage_locks (Stage.construct env a w0).1 !! m = Some l).
Proof.
  intros Hn1 Hl1 Hn2 Hl2 w1 s1 w2 w3 s2. split.
  - destruct (construct_named_lock env a1 w n Hn1 Hl1) as (_ & Hs1 & [l Hw1]).
    destruct (construct_named_lock env a2 w2 n Hn2 Hl2) as (_ & Hs2 & _).
    fold w1 s1 in Hs1, Hw1. fold w3 s2 in Hs2.
    assert (stage_locks w2 !! n = Some l) as Hw2
      by (by apply construct_all_keeps_locks).
    assert (stage_locks w3 !! n = Some l) as Hw3
      by (by apply construct_keeps_locks).
    exists l. rewrite Hs1, Hs2. done.
  - intros a w0 m l. apply construct_keeps_locks.
Qed.

Lemma same_name_same_lock_witness :
  ∃ l,
    Stage._lock Scenario.stage_pkg = Some l
    ∧ Stage._lock
        (Stage.construct (Scenario.env_with Scenario.outcome_upstream_ok true true)
           Scenario.args_pkg_again
           (Stage.construct_all
              (Scenario.env_with Scenario.outcome_upstream_ok true true)
              [Scenario.args_other] Scenario.world_pkg).1).2 = Some l.
Proof.
  destruct (proj1 (same_name_same_lock
    (Scenario.env_with Scenario.outcome_upstream_ok true true)
    Scenario.args_pkg Scenario.args_pkg_again [Scenario.args_other] "pkg"
    Scenario.world0 eq_refl eq_refl eq_refl eq_refl)) as (l & H1 & H2 & _).
  exists l. split; [exact H1 | exact H2].
Defined.

(** ** Scoped use of a stage *)

Section FileSystemFacts.
Import FS.

Lemma follow_missing (fuel : nat) (p : path) (m : fs) : lstat p m = None → follow fuel p m = None.
Proof. intros H. destruct fuel; cbn [follow]; by rewrite H. Qed.

Lemma follow_dir (fuel : nat) (p : path) (m : fs) : lstat p m = Some Dir → follow fuel p m = Some p.
Proof. intros H. destruct fuel; cbn [follow]; by rewrite H. Qed.

Lemma exists_missing (p : path) (m : fs) : m !! p = None → exists_ p m = false.
Proof. intros H. unfold exists_. by rewrite follow_missing. Qed.

Lemma exists_dir (p : path) (m : fs) : m !! p = Some Dir → exists_ p m = true.
Proof. intros H. unfold exists_. by rewrite follow_dir. Qed.

Lemma mkdir_result (p : path) (m m' : fs) : mkdir p m = Return m' → m' = <[p := Dir]> m.
Proof.
  unfold mkdir. destruct (lstat p m); [done|].
  destruct (is_dir (parent p) m); [congruence|].
  by destruct (exists_ (parent p) m).
Qed.

Lemma makedirs_fuel_result k : ∀ (p : path) (m m' : fs),
  makedirs_fuel k p m = Return m' → m' !! p = Some Dir.
Proof.
  induction k as [|k IH]; intros p m m'; cbn [makedirs_fuel].
  - intros ->%mkdir_result. apply lookup_insert_eq.
  - destruct (negb (exists_ (parent p) m)).
    + destruct (makedirs_fuel k (parent p) m) as [m1|e]; cbn; [|done].
      intros ->%mkdir_result. apply lookup_insert_eq.
    + intros ->%mkdir_result. apply lookup_insert_eq.
Qed.

Lemma mkdirp_exists (p : path) (m m' : fs) : mkdirp p m = Return m' → exists_ p m' = true.
Proof.
  unfold mkdirp. destruct (exists_ p m) eqn:He.
  - destruct (is_dir p m); [|done]. by intros [= <-].
  - intros H%makedirs_fuel_result. by apply exists_dir.
Qed.

Lemma rmtree_gone (p : path) (m : fs) : rmtree p m !! p = None.
Proof.
  unfold rmtree. apply map_lookup_filter_None. right.
  intros x _ Hnot. by apply Hnot.
Qed.

Lemma is_link_lookup (p : path) (m : fs) : is_link p m = true → ∃ t, m !! p = Some (Link t).
Proof.
  unfold is_link, lstat. destruct (m !! p) as [[| |t]|]; try done. by exists t.
Qed.

(** After [remove_linked_tree] the path names nothing. *)
Lemma remove_linked_tree_gone (p : path) (m : fs) :
  exists_ p (remove_linked_tree p m) = false.
Proof.
  unfold remove_linked_tree. destruct (exists_ p m) eqn:He; [|done].
  destruct (is_link p m).
  - apply exists_missing, lookup_delete_eq.
  - apply exists_missing, rmtree_gone.
Qed.
End FileSystemFacts.

Section Scope.
Import Stage.

Lemma on_files_trace op w : trace (on_files op w).1 = trace w.
Proof. unfold on_files. by destruct (op (files w)). Qed.

Lemma on_files_return op w w' :
  on_files op w = (w', Return tt) → op (files w) = Return (files w').
Proof. unfold on_files. destruct (op (files w)); [|done]. by intros [= <-]. Qed.

Lemma create_spec env s w w' s' :
  create env s w = (w', s', Return tt) →
  FS.exists_ (_path s) (files w') = true
  ∧ s' = set_created true s
  ∧ trace w' = trace w.
Proof.
  unfold create, Stage.path.
  destruct (negb (FS.exists_ (_path s) (files w))) eqn:He.
  - pose proof (on_files_trace (mkdirp (_path s)) w) as Htr.
    destruct (on_files (mkdirp (_path s)) w) as [w1 [[]|e]] eqn:Hm; [|done].
    destruct (ensure_access env (_path s)); [|done].
    intros [= <- <-]. split; [|done].
    apply on_files_return in Hm. by apply mkdirp_exists in Hm.
  - destruct (negb (FS.is_dir (_path s) (files w))) eqn:Hd.
    + pose proof (on_files_trace (FS.unlink (_path s)) w) as Htr0.
      destruct (on_files (FS.unlink (_path s)) w) as [w0 [[]|e]]; [|done].
      pose proof (on_files_trace (mkdirp (_path s)) w0) as Htr.
      destruct (on_files (mkdirp (_path s)) w0) as [w1 [[]|e]] eqn:Hm; [|done].
      destruct (ensure_access env (_path s)); [|done].
      intros [= <- <-]. split; [|split; [done|]; cbn [fst] in *; congruence].
      apply on_files_return in Hm. by apply mkdirp_exists in Hm.
    + destruct (ensure_access env (_path s)); [|done].
      intros [= <- <-]. split; [|done].
      by apply negb_false_iff in He.
Qed.

Lemma enter_spec env (s s' : t) w w' bound :
  __enter__ env s w = (w', s', Return bound) →
  bound = Some s'
  ∧ FS.exists_ (_path s') (files w') = true
  ∧ created s' = true
  ∧ _lock s' = _lock s ∧ keep s' = keep s ∧ _path s' = _path s
  ∧ trace w' = trace w ++ match _lock s with
                          | Some l => [AcquireWrite l 60]
                          | None => []
                          end.
Proof.
  unfold __enter__. cbn [stage_of create_method stage_like].
  destruct (_lock s) as [l|] eqn:Hl.
  - unfold acquire_write. destruct (acquire_ok env l); [|done].
    destruct (create env s (emit (AcquireWrite l 60) w)) as [[w1 s1] [[]|e]] eqn:Hc;
      [|done].
    apply create_spec in Hc as (Hex & -> & Htr).
    intros [= <- <- <-]. by rewrite Htr.
  - destruct (create env s w) as [[w1 s1] [[]|e]] eqn:Hc; [|done].
    apply create_spec in Hc as (Hex & -> & Htr).
    intros [= <- <- <-]. by rewrite Htr, app_nil_r.
Qed.

(** [destroy]: the tree is removed first; the call raises exactly when the
    working directory is gone afterwards and the parent of the stage path is
    not a directory, and then [created] is not reset. *)
Lemma destroy_spec (s : t) w :
  let r := destroy s w in
  files r.1.1 = remove_linked_tree (path s) (files w)
  ∧ FS.exists_ (path s) (files r.1.1) = false
  ∧ trace r.1.1 = trace w
  ∧ _lock r.1.2 = _lock s ∧ _path r.1.2 = _path s
  ∧ name r.1.2 = name s ∧ keep r.1.2 = keep s
  ∧ (r.2 = Return tt
     ↔ FS.exists_ (cwd w) (files r.1.1) = true
       ∨ FS.is_dir (FS.parent (_path s)) (files r.1.1) = true)
  ∧ (r.2 = Return tt → created r.1.2 = false)
  ∧ (∀ e, r.2 = Raise e →
       r.1.2 = s ∧ cwd r.1.1 = cwd w
       ∧ (e = FileNotFoundError ∨ e = NotADirectoryError)).
Proof.
  cbn zeta. unfold destroy, chdir.
  set (w1 := set_files (remove_linked_tree (path s) (files w)) w).
  assert (FS.exists_ (path s) (files w1) = false) as Hgone
    by apply remove_linked_tree_gone.
  change (cwd w1) with (cwd w). change (files w1) with
    (remove_linked_tree (path s) (files w)) in *.
  destruct (FS.exists_ (cwd w) (remove_linked_tree (path s) (files w))) eqn:Hcwd.
  { cbn [fst snd files trace cwd w1 set_files _lock _path name keep created
         set_created]. rewrite Hcwd.
    repeat split; try done; auto. }
  destruct (FS.is_dir (FS.parent (_path s))
              (remove_linked_tree (path s) (files w))) eqn:Hpar.
  { cbn [fst snd files trace cwd w1 set_files set_cwd _lock _path name keep
         created set_created]. rewrite Hcwd, Hpar.
    repeat split; try done; auto. }
  destruct (FS.exists_ (FS.parent (_path s))
              (remove_linked_tree (path s) (files w)));
    cbn [fst snd files trace cwd w1 set_files _lock _path name keep created
         set_created]; rewrite Hcwd, Hpar;
    repeat split; try done; try (by intros [|]); try (intros e [= <-]; auto).
  all: match goal with Heq : Raise _ = Raise _ |- _ => injection Heq as <-; auto end.
Qed.

End Scope.

Section ScopedUse.
Context {T : Type} `{Stage.StageLike T}.

(** [__exit__] when [destroy] is not called. *)
Lemma exit_keeps (self : T) (exc_type : option exn) (w : World) :
  is_Some exc_type ∨ Stage.keep (Stage.stage_of self) = true →
  Stage.__exit__ self exc_type w
  = (match Stage._lock (Stage.stage_of self) with
     | Some l => release_write l w
     | None => w
     end, self, Return tt).
Proof.
  intros Hk. unfold Stage.__exit__.
  assert (match exc_type with
          | None => if negb (Stage.keep (Stage.stage_of self))
                    then Stage.destroy_method self w else (w, self, Return tt)
          | Some _ => (w, self, Return tt)
          end = (w, self, Return tt)) as ->.
  { destruct exc_type as [e|]; [done|]. destruct Hk as [[? [=]]|Hk].
    by rewrite Hk. }
  by destruct (Stage._lock (Stage.stage_of self)).
Qed.

(** [__exit__] when [destroy] is called. *)
Lemma exit_destroys (self : T) (w : World) :
  Stage.keep (Stage.stage_of self) = false →
  Stage.__exit__ self None w
  = match Stage.destroy_method self w with
    | (wd, sd, Raise e) => (wd, sd, Raise e)
    | (wd, sd, Return _) =>
        (match Stage._lock (Stage.stage_of sd) with
         | Some l => release_write l wd
         | None => wd
         end, sd, Return tt)
    end.
Proof.
  intros Hk. unfold Stage.__exit__. rewrite Hk. cbn [negb].
  destruct (Stage.destroy_method self w) as [[wd sd] [[]|e]]; [|done].
  by destruct (Stage._lock (Stage.stage_of sd)).
Qed.

End ScopedUse.

(** C6.  A scoped use of a stage, or of an object of a subclass, whose
    entry succeeded.  When the body raises, or [keep] is set, [__exit__]
    calls no [destroy]: the file system is as the body left it, so the
    directory is still there, and a stage with a lock releases it as the
    last thing it does.  When the body ends normally and [keep] is false,
    [destroy] is called; if it returns, the lock is released after it; if it
    raises, the error leaves the scope and no [release_write] is called.
    [Stage.destroy] itself always removes the directory first, and raises
    exactly when the working directory is gone afterwards and the parent of
    the stage path is not a directory. *)
Theorem scope_exit {A T : Type} `{Stage.StageLike T} (env : Env) (s s1 s2 : T)
    (body : option T → T → World → World * T * result A)
    (w w1 w2 : World) (bound : option T) (r : result A) :
  Stage.__enter__ env s w = (w1, s1, Return bound) →
  body bound s1 w1 = (w2, s2, r) →
  let release (x : T) :=
    match Stage._lock (Stage.stage_of x) with
    | Some l => [ReleaseWrite l]
    | None => []
    end in
  let out := Stage.with_stage env s body w in
  let d := Stage.destroy_method s2 w2 in
  bound = Some s1
  ∧ (raised r = true ∨ Stage.keep (Stage.stage_of s2) = true →
     out.2 = r ∧ out.1.2 = s2 ∧ files out.1.1 = files w2
     ∧ trace out.1.1 = trace w2 ++ release s2)
  ∧ (raised r = false → Stage.keep (Stage.stage_of s2) = false →
     d.2 = Return tt →
     out.2 = r ∧ out.1.2 = d.1.2 ∧ files out.1.1 = files d.1.1
     ∧ trace out.1.1 = trace d.1.1 ++ release d.1.2)
  ∧ (raised r = false → Stage.keep (Stage.stage_of s2) = false →
     ∀ e, d.2 = Raise e → out = (d.1.1, d.1.2, Raise e))
  ∧ (∀ (p : Stage.t) (wp : World),
       let dp := Stage.destroy p wp in
       FS.exists_ (Stage.path p) (files dp.1.1) = false
       ∧ trace dp.1.1 = trace wp
       ∧ Stage._lock dp.1.2 = Stage._lock p
       ∧ (dp.2 = Return tt
          ↔ FS.exists_ (cwd wp) (files dp.1.1) = true
            ∨ FS.is_dir (FS.parent (Stage._path p)) (files dp.1.1) = true)).
Proof.
  intros Henter Hbody. cbn zeta.
  assert (bound = Some s1) as Hbound.
  { revert Henter. unfold Stage.__enter__.
    destruct (match Stage._lock (Stage.stage_of s) with
              | Some l => acquire_write env l 60 w
              | None => (w, Return tt)
              end) as [w0 [[]|e]]; [|done].
    destruct (Stage.create_method env s w0) as [[w0' s0'] [[]|e]]; [|done].
    by intros [= _ <- <-]. }
  split; [exact Hbound|].
  unfold Stage.with_stage. rewrite Henter, Hbody.
  split; [|split; [|split]].
  - intros Hk. rewrite exit_keeps.
    + destruct (Stage._lock (Stage.stage_of s2)); cbn;
        by rewrite ?app_nil_r.
    + destruct Hk as [Hr|Hk]; [left|by right].
      destruct r; [done|]. by eexists.
  - intros Hr Hk Hd. destruct r as [a|e]; [|done]. cbn [Stage.exc_of].
    rewrite (exit_destroys _ _ Hk).
    destruct (Stage.destroy_method s2 w2) as [[wd sd] [[]|e]]; [|done].
    cbn [fst snd].
    destruct (Stage._lock (Stage.stage_of sd)); cbn; by rewrite ?app_nil_r.
  - intros Hr Hk e Hd. destruct r as [a|e']; [|done]. cbn [Stage.exc_of].
    rewrite (exit_destroys _ _ Hk).
    destruct (Stage.destroy_method s2 w2) as [[wd sd] [[]|e']]; [done|].
    cbn [fst snd] in *. by injection Hd as ->.
  - intros p wp.
    destruct (destroy_spec p wp) as (_ & Hgone & Htr & Hl & _ & _ & _ & Hiff & _).
    done.
Qed.

Lemma scope_exit_witness :
  FS.exists_ Scenario.pkg_dir
    (files (Stage.with_stage Scenario.env_ok Scenario.stage_pkg
              Scenario.body_raises Scenario.world_pkg).1.1) = true
  ∧ FS.exists_ Scenario.pkg_dir
      (files (Stage.with_stage Scenario.env_ok Scenario.stage_pkg
                Scenario.body_returns Scenario.world_pkg).1.1) = false.
Proof.
  pose (e := Stage.__enter__ Scenario.env_ok Scenario.stage_pkg Scenario.world_pkg).
  assert (e.2 = Return (Some e.1.2)) as H2 by (vm_compute; reflexivity).
  assert (e = (e.1.1, e.1.2, Return (Some e.1.2))) as He.
  { rewrite <- H2. rewrite <- !surjective_pairing. reflexivity. }
  split.
  - destruct (scope_exit Scenario.env_ok Scenario.stage_pkg e.1.2 e.1.2
      Scenario.body_raises Scenario.world_pkg e.1.1 e.1.1 (Some e.1.2)
      (Raise (FailedDownloadError "build failed")) He eq_refl)
      as (_ & Hstay & _).
    destruct Hstay as (_ & _ & -> & _); [left; reflexivity|].
    vm_compute. reflexivity.
  - destruct (scope_exit Scenario.env_ok Scenario.stage_pkg e.1.2 e.1.2
      Scenario.body_returns Scenario.world_pkg e.1.1 e.1.1 (Some e.1.2)
      (Return tt) He eq_refl)
      as (_ & _ & Hgone & _).
    destruct Hgone as (_ & _ & -> & _);
      [reflexivity|reflexivity|vm_compute; reflexivity|].
    vm_compute. reflexivity.
Defined.

(** The body ends normally, [keep] is false and the stage has a lock, but
    the body has removed the whole stage root with the working directory in
    it: [destroy] raises in [os.chdir], the scope raises
    [FileNotFoundError], and the lock taken on entry is never released. *)
Lemma scope_exit_lock_counterexample :
  (ScopeScenario.body_wipes (Some Scenario.stage_pkg) Scenario.stage_pkg
     Scenario.world_pkg).2 = Return tt
  ∧ Stage.keep Scenario.stage_pkg = false
  ∧ Stage._lock Scenario.stage_pkg = Some 10
  ∧ (Stage.with_stage Scenario.env_ok Scenario.stage_pkg
       ScopeScenario.body_wipes Scenario.world_pkg).2
    = Raise FileNotFoundError
  ∧ trace (Stage.with_stage Scenario.env_ok Scenario.stage_pkg
             ScopeScenario.body_wipes Scenario.world_pkg).1.1
    = [AcquireWrite 10 60]
  ∧ ReleaseWrite 10
    ∉ trace (Stage.with_stage Scenario.env_ok Scenario.stage_pkg
               ScopeScenario.body_wipes Scenario.world_pkg).1.1.
Proof.
  assert (trace (Stage.with_stage Scenario.env_ok Scenario.stage_pkg
                   ScopeScenario.body_wipes Scenario.world_pkg).1.1
          = [AcquireWrite 10 60]) as Htr by (vm_compute; reflexivity).
  split; [reflexivity|]. split; [reflexivity|]. split; [reflexivity|].
  split; [vm_compute; reflexivity|]. split; [exact Htr|].
  rewrite Htr. intros Hin.
  inversion Hin as [|? ? ? Hin']; inversion Hin'.
Qed.

(** ** [DIYStage] as a context manager *)

(** C10.  [DIYStage.__enter__] returns [None], so [with d as s] binds [s]
    to [None] and the scoped use is just the body; entry and exit change
    neither the world nor the stage.  [Stage.__enter__], when it returns,
    returns the stage itself. *)
Theorem diy_enter_binds_none (d : DIYStage.t) (w : World) :
  DIYStage.__enter__ d w = (w, d, Return None)
  ∧ (∀ exc_type, DIYStage.__exit__ d exc_type w = (w, d))
  ∧ (∀ (A : Type)
       (body : option DIYStage.t → DIYStage.t → World → World * DIYStage.t * result A),
       DIYStage.with_stage d body w = body None d w)
  ∧ (∀ (env : Env) (s s' : Stage.t) (w' : World) (bound : option Stage.t),
       Stage.__enter__ env s w = (w', s', Return bound) → bound = Some s').
Proof.
  split; [reflexivity|]. split; [reflexivity|]. split.
  - intros A body. unfold DIYStage.with_stage. cbn.
    by destruct (body None d w) as [[w2 d2] r].
  - intros env s s' w' bound Henter. by apply enter_spec in Henter as (-> & _).
Qed.

Lemma diy_enter_binds_none_witness :
  (Stage.__enter__ Scenario.env_ok Scenario.stage_pkg Scenario.world_pkg).2
  = Return (Some (Stage.__enter__ Scenario.env_ok Scenario.stage_pkg
                    Scenario.world_pkg).1.2).
Proof.
  pose (e := Stage.__enter__ Scenario.env_ok Scenario.stage_pkg Scenario.world_pkg).
  assert (e = (e.1.1, e.1.2, Return (Some e.1.2))) as He
    by (vm_compute; reflexivity).
  change (e.2 = Return (Some e.1.2)).
  destruct e as [[w' s'] [bound|x]] eqn:E; [|discriminate He].
  cbn [fst snd] in *. f_equal.
  exact (proj2 (proj2 (proj2 (diy_enter_binds_none
    {| DIYStage.archive_file := None; DIYStage.path := Scenario.pkg_dir;
       DIYStage.source_path := Scenario.pkg_dir; DIYStage.created := true |}
    Scenario.world_pkg))) Scenario.env_ok Scenario.stage_pkg s' w' bound E).
Defined.

(** ** Placement of a resource *)

Section Placement.
Import ResourceStage.

Lemma set_files_same w : set_files (files w) w = w.
Proof. by destruct w. Qed.

Lemma place_entry_existing env rs key value (m : FS.fs) :
  FS.exists_ (FS.join (target_path rs) value) m = true →
  place_entry env rs (key, value) m = Return m.
Proof. intros He. unfold place_entry. by rewrite He. Qed.

Lemma place_all_existing env rs items (m : FS.fs) :
  Forall (λ entry, FS.exists_ (FS.join (target_path rs) entry.2) m = true) items →
  for_each (λ entry m, attempt (place_entry env rs entry m) m) items m
  = (m, Return tt).
Proof.
  induction 1 as [|[key value] items He _ IH]; cbn [for_each]; [done|].
  by rewrite (place_entry_existing env rs key value m He).
Qed.

Lemma is_dir_lookup (p : FS.path) (m : FS.fs) :
  FS.is_dir p m = true → is_Some (m !! p).
Proof.
  unfold FS.is_dir. destruct (m !! p) eqn:Hp; [by eexists|].
  by rewrite follow_missing.
Qed.

Lemma mkdir_existing (p : FS.path) (m : FS.fs) :
  is_Some (m !! p) → FS.mkdir p m = Raise FileExistsError.
Proof. intros [n Hn]. unfold FS.mkdir, FS.lstat. by rewrite Hn. Qed.

(** [os.makedirs] on a directory that is there, under the handler. *)
Lemma make_target_existing (p : FS.path) (m : FS.fs) :
  FS.is_dir p m = true → FS.exists_ (FS.parent p) m = true →
  make_target p m = Return m.
Proof.
  intros Hd Hp. pose proof (mkdir_existing p m (is_dir_lookup p m Hd)) as Hmk.
  unfold make_target, FS.makedirs.
  destruct (length p); cbn [FS.makedirs_fuel]; rewrite ?Hp; cbn [negb];
    by rewrite Hmk, Hd.
Qed.
Lemma mkdir_subseteq (p : FS.path) (m m' : FS.fs) :
  FS.mkdir p m = Return m' → m ⊆ m'.
Proof.
  unfold FS.mkdir, FS.lstat. destruct (m !! p) eqn:Hp; [done|].
  destruct (FS.is_dir (FS.parent p) m);
    [|by destruct (FS.exists_ (FS.parent p) m)].
  intros [= <-]. by apply insert_subseteq.
Qed.

Lemma makedirs_fuel_subseteq k : ∀ (p : FS.path) (m m' : FS.fs),
  FS.makedirs_fuel k p m = Return m' → m ⊆ m'.
Proof.
  induction k as [|k IH]; intros p m m'; cbn [FS.makedirs_fuel].
  - apply mkdir_subseteq.
  - destruct (negb (FS.exists_ (FS.parent p) m)); [|apply mkdir_subseteq].
    destruct (FS.makedirs_fuel k (FS.parent p) m) as [m1|e] eqn:H1; cbn; [|done].
    intros H2%mkdir_subseteq. apply IH in H1. by transitivity m1.
Qed.

Lemma make_target_subseteq (p : FS.path) (m m' : FS.fs) :
  make_target p m = Return m' → m ⊆ m'.
Proof.
  unfold make_target, FS.makedirs.
  destruct (FS.makedirs_fuel (length p) p m) as [m1|e] eqn:H1.
  - intros [= <-]. by apply makedirs_fuel_subseteq in H1.
  - destruct e; try done. destruct (FS.is_dir p m); [|done]. by intros [= <-].
Qed.

Lemma place_entry_subseteq env rs entry (m m' : FS.fs) :
  copies_add_only env → place_entry env rs entry m = Return m' → m ⊆ m'.
Proof.
  intros [Htree Hfile]. destruct entry as [key value]. unfold place_entry.
  destruct (FS.exists_ (FS.join (target_path rs) value) m) eqn:He; cbn [negb].
  - by intros [= <-].
  - destruct (FS.is_dir _ m); [by apply Htree | by apply Hfile].
Qed.

Lemma place_all_subseteq env rs items : ∀ (m : FS.fs),
  copies_add_only env →
  m ⊆ (for_each (λ entry m, attempt (place_entry env rs entry m) m) items m).1.
Proof.
  induction items as [|entry items IH]; intros m Hc; cbn [for_each]; [done|].
  destruct (place_entry env rs entry m) as [m1|e] eqn:H1; cbn [attempt]; [|done].
  apply place_entry_subseteq in H1; [|done].
  transitivity m1; [done|]. by apply IH.
Qed.

(** Whatever the placement, no entry of the file system is changed or
    removed by [_add_to_root_stage]. *)
Lemma add_to_root_stage_subseteq env rs w :
  copies_add_only env → files w ⊆ files (_add_to_root_stage env rs w).1.
Proof.
  intros Hc. unfold _add_to_root_stage.
  destruct (make_target (target_path rs) (files w)) as [m1|e] eqn:H1; [|done].
  apply make_target_subseteq in H1.
  pose proof (place_all_subseteq env rs (placement_items rs) m1 Hc) as H2.
  destruct (for_each _ (placement_items rs) m1) as [m2 r].
  cbn [fst files set_files] in *. by transitivity m1.
Qed.
End Placement.

(** C8.  An entry of the placement whose destination exists is skipped:
    its step returns the file system as it found it, whatever the copy
    functions would do.  Hence, when the destination root is a directory
    and every destination of the placement exists, [_add_to_root_stage]
    changes nothing, and neither does [expand_archive] on a stage that is
    already expanded.  And for copy functions that only add entries below a
    destination that does not exist, every entry of the file system is
    still there, with the same content, after [_add_to_root_stage]. *)
Theorem placement_never_overwrites (env : Env) (rs : ResourceStage.t) (w : World) :
  (∀ (key value : FS.pathname) (m : FS.fs),
     FS.exists_ (FS.join (ResourceStage.target_path rs) value) m = true →
     ResourceStage.place_entry env rs (key, value) m = Return m)
  ∧ (FS.is_dir (ResourceStage.target_path rs) (files w) = true →
     FS.exists_ (FS.parent (ResourceStage.target_path rs)) (files w) = true →
     Forall (λ entry,
               FS.exists_ (FS.join (ResourceStage.target_path rs) entry.2)
                          (files w) = true)
            (ResourceStage.placement_items rs) →
     ResourceStage._add_to_root_stage env rs w = (w, Return tt)
     ∧ (Stage.expanded (ResourceStage.base rs) w = true →
        ResourceStage.expand_archive env rs w = (w, Return tt)))
  ∧ (ResourceStage.copies_add_only env →
     ∀ (p : FS.path) (n : FS.node),
       files w !! p = Some n →
       files (ResourceStage._add_to_root_stage env rs w).1 !! p = Some n).
Proof.
  split; [intros key value m; apply place_entry_existing|]. split.
  - intros Hd Hp Hall.
    assert (ResourceStage._add_to_root_stage env rs w = (w, Return tt)) as Hadd.
    { unfold ResourceStage._add_to_root_stage.
      rewrite (make_target_existing _ _ Hd Hp), (place_all_existing _ _ _ _ Hall).
      by rewrite set_files_same. }
    split; [exact Hadd|].
    intros Hexp. unfold ResourceStage.expand_archive, Stage.expand_archive.
    rewrite Hexp. cbn [negb]. exact Hadd.
  - intros Hc p n Hp.
    pose proof (add_to_root_stage_subseteq env rs w Hc) as Hsub.
    by eapply lookup_weaken.
Qed.

Lemma scenario_copies_add_only : ResourceStage.copies_add_only Scenario.env_ok.
Proof.
  split; intros src dst m m' _; cbn; unfold Scenario.copy_to, FS.lstat;
    destruct (m !! dst) eqn:Hd; try done; intros [= <-];
    by apply insert_subseteq.
Qed.

Lemma placement_never_overwrites_witness :
  ResourceStage.expand_archive Scenario.env_ok Scenario.resource_pkg
    Scenario.world_placed = (Scenario.world_placed, Return tt)
  ∧ files (ResourceStage._add_to_root_stage Scenario.env_ok
             Scenario.resource_pkg Scenario.world_unplaced).1
      !! ["tmp"; "spack-stage"; "pkg"; "spack-src"; "main.c"]
    = Some (FS.File "int main").
Proof.
  split.
  - apply (proj1 (proj2 (placement_never_overwrites Scenario.env_ok
                    Scenario.resource_pkg Scenario.world_placed))).
    + vm_compute. reflexivity.
    + vm_compute. reflexivity.
    + repeat constructor.
    + vm_compute. reflexivity.
  - apply (proj2 (proj2 (placement_never_overwrites Scenario.env_ok
                    Scenario.resource_pkg Scenario.world_unplaced))).
    + exact scenario_copies_add_only.
    + vm_compute. reflexivity.
Defined.

(** ** The external build directory *)

Section ExternalBuildDir.
Import CMakeBuildStage.

Lemma mkdir_tries_app tr1 tr2 :
  mkdir_tries (tr1 ++ tr2) = mkdir_tries tr1 ++ mkdir_tries tr2.
Proof. apply omap_app. Qed.

(** Every attempt of the loop is made on the path computed before it. *)
Lemma mkdir_attempts_same_path others remaining : ∀ k p w,
  ∃ n, n ≤ remaining
    ∧ mkdir_tries (trace (mkdir_attempts others remaining k p w).1)
      = mkdir_tries (trace w) ++ replicate n p.
Proof.
  induction remaining as [|r IH]; intros k p w; cbn [mkdir_attempts].
  - exists 0. cbn. by rewrite app_nil_r.
  - set (w1 := emit (TryMkdir p) (set_files (others k (files w)) w)).
    assert (mkdir_tries (trace w1) = mkdir_tries (trace w) ++ [p]) as Hw1.
    { unfold w1. cbn [trace emit set_files]. by rewrite mkdir_tries_app. }
    destruct (FS.mkdir p (files w1)) as [m|e] eqn:Hmk.
    + exists 1. split; [lia|]. cbn [fst trace set_files]. by rewrite Hw1.
    + assert (∃ n, n ≤ S r ∧ mkdir_tries (trace w1) = mkdir_tries (trace w) ++ replicate n p)
        as Hstop by (exists 1; split; [lia|by rewrite Hw1]).
      destruct e; try exact Hstop.
      destruct (IH (S k) p w1) as (n & Hn & Htr).
      exists (S n). split; [lia|]. rewrite Htr, Hw1, <- app_assoc. done.
Qed.

(** When the path is taken at every attempt, the loop runs out of attempts
    and ends without [break] and without an exception. *)
Lemma mkdir_attempts_exhausted others remaining : ∀ k (p : FS.path) w,
  (∀ j (m : FS.fs), is_Some (others j m !! p)) →
  (mkdir_attempts others remaining k p w).2 = Return false.
Proof.
  induction remaining as [|r IH]; intros k p w Htaken; cbn [mkdir_attempts];
    [done|].
  cbn [files emit set_files].
  destruct (Htaken k (files w)) as [n Hn].
  unfold FS.mkdir, FS.lstat. rewrite Hn. by apply IH.
Qed.
End ExternalBuildDir.

Section Allocation.
Import CMakeBuildStage.

(** One call of [_setup_remote_build_stage] calls [mkdir] on one path only,
    at most [max_attempts] times. *)
Lemma setup_tries_one_path others c w :
  ∃ n p, n ≤ max_attempts
    ∧ mkdir_tries (trace (_setup_remote_build_stage others c w).1)
      = mkdir_tries (trace w) ++ replicate n p.
Proof.
  unfold _setup_remote_build_stage.
  assert (∀ w0 : World, trace w0 = trace w →
            ∃ n (p : FS.path), n ≤ max_attempts
              ∧ mkdir_tries (trace w0) = mkdir_tries (trace w) ++ replicate n p)
    as Hnone.
  { intros w0 ->. exists 0, []. split; [lia|]. cbn. by rewrite app_nil_r. }
  destruct (FS.mkdir_parents _ _) as [m|e]; [|by apply Hnone].
  cbn [files set_files].
  destruct (FS.iterdir _ _) as [names|e]; [|by apply Hnone].
  destruct (Allocator._compute_next_open_subdir names) as [sub_dir|e];
    [|by apply Hnone].
  set (w1 := set_files (others 1 m) (set_files (others 0 (files w)) w)).
  destruct (mkdir_attempts_same_path others max_attempts 2
              (_remote_root c ++ [sub_dir]) w1) as (n & Hn & Htr).
  exists n, (_remote_root c ++ [sub_dir]). split; [done|].
  destruct (mkdir_attempts others max_attempts 2 (_remote_root c ++ [sub_dir]) w1)
    as [w2 [b|e]]; exact Htr.
Qed.
End Allocation.

(** C5, the code at a race.  Whatever the other processes do, one call of
    [_setup_remote_build_stage] tries a single name, at most 200 times.
    With [a] in the external root and another process creating [b] right
    after the listing, the call tries [b] 200 times, creates nothing, and
    returns the path of [b] without raising, although [c] is free. *)
Theorem setup_remote_exhausts_budget :
  (∀ others c w, ∃ n p, n ≤ 200
     ∧ CMakeBuildStage.mkdir_tries
         (trace (CMakeBuildStage._setup_remote_build_stage others c w).1)
       = CMakeBuildStage.mkdir_tries (trace w) ++ replicate n p)
  ∧ (CMakeBuildStage._setup_remote_build_stage Scenario.racing
       Scenario.cmake_pkg Scenario.world_ext).2 = Return ["b"; "b"]
  ∧ CMakeBuildStage.mkdir_tries
      (trace (CMakeBuildStage._setup_remote_build_stage Scenario.racing
                Scenario.cmake_pkg Scenario.world_ext).1)
    = replicate 200 ["b"; "b"]
  ∧ files (CMakeBuildStage._setup_remote_build_stage Scenario.racing
             Scenario.cmake_pkg Scenario.world_ext).1
    = <[ ["b"; "b"] := FS.Dir ]> (files Scenario.world_ext)
  ∧ Allocator._compute_next_open_subdir ["a"; "b"] = Return "c".
Proof.
  split; [apply setup_tries_one_path|].
  split; [vm_compute; reflexivity|].
  split; [vm_compute; reflexivity|].
  split; [vm_compute; reflexivity|reflexivity].
Qed.

(** C9, the code when the allocation fails.  On a stage that has no
    external directory yet, an exception raised by
    [_setup_remote_build_stage] reaches the handler of [create], whose
    [_teardown_remote_stage] calls [exists] on [None]: [create] raises
    [AttributeError] in place of the failure, and [created] stays true. *)
Theorem create_allocation_failure_masked (env : Env)
    (others : CMakeBuildStage.interference) (c : CMakeBuildStage.t)
    (w w1 w2 : World) (b1 : Stage.t) (e : exn) :
  Stage.created (CMakeBuildStage.base c) = false →
  CMakeBuildStage._remote_stage c = None →
  Stage.create env (CMakeBuildStage.base c) w = (w1, b1, Return tt) →
  FS.exists_ (CMakeBuildStage.root_stage_context (CMakeBuildStage.set_base b1 c))
    (files w1) = false →
  CMakeBuildStage._setup_remote_build_stage others
    (CMakeBuildStage.set_base b1 c) w1 = (w2, Raise e) →
  is_Exception e = true →
  CMakeBuildStage.create env others c w
  = (w2, CMakeBuildStage.set_base b1 c,
     Raise (AttributeError "'NoneType' object has no attribute 'exists'"))
  ∧ Stage.created (CMakeBuildStage.base (CMakeBuildStage.set_base b1 c)) = true.
Proof.
  intros Hnew Hnone Hcreate Hctx Hsetup Hexn.
  apply create_spec in Hcreate as Hb1. destruct Hb1 as (_ & Hb1 & _).
  split; [|by rewrite Hb1].
  unfold CMakeBuildStage.create. rewrite Hnew, Hcreate, Hctx. cbn [negb].
  rewrite Hsetup. unfold CMakeBuildStage.create_failed. rewrite Hexn.
  unfold CMakeBuildStage._teardown_remote_stage. cbn. by rewrite Hnone.
Qed.

Lemma create_allocation_failure_masked_witness :
  (CMakeBuildStage.create Scenario.env_ok CMakeBuildStage.alone
     Scenario.cmake_pkg Scenario.world_root_is_file).2
  = Raise (AttributeError "'NoneType' object has no attribute 'exists'")
  ∧ Stage.created
      (CMakeBuildStage.base
         (CMakeBuildStage.create Scenario.env_ok CMakeBuildStage.alone
            Scenario.cmake_pkg Scenario.world_root_is_file).1.2) = true.
Proof.
  pose (b := Stage.create Scenario.env_ok
               (CMakeBuildStage.base Scenario.cmake_pkg)
               Scenario.world_root_is_file).
  pose (a := CMakeBuildStage._setup_remote_build_stage CMakeBuildStage.alone
               (CMakeBuildStage.set_base b.1.2 Scenario.cmake_pkg) b.1.1).
  destruct (create_allocation_failure_masked Scenario.env_ok
    CMakeBuildStage.alone Scenario.cmake_pkg Scenario.world_root_is_file
    b.1.1 a.1 b.1.2 FileExistsError) as [Hrun Hcreated].
  - reflexivity.
  - reflexivity.
  - vm_compute. reflexivity.
  - vm_compute. reflexivity.
  - vm_compute. reflexivity.
  - reflexivity.
  - rewrite Hrun. split; [reflexivity|exact Hcreated].
Defined.

(** The other failure, for comparison: when the link cannot be made, the
    directory just allocated is removed, the failure itself is raised and
    [created] is false. *)
Lemma create_link_failure_example :
  (CMakeBuildStage.create Scenario.env_ok CMakeBuildStage.alone
     Scenario.cmake_pkg Scenario.world_dangling_link).2 = Raise FileExistsError
  ∧ Stage.created
      (CMakeBuildStage.base
         (CMakeBuildStage.create Scenario.env_ok CMakeBuildStage.alone
            Scenario.cmake_pkg Scenario.world_dangling_link).1.2) = false
  ∧ files (CMakeBuildStage.create Scenario.env_ok CMakeBuildStage.alone
             Scenario.cmake_pkg Scenario.world_dangling_link).1.1 !! ["b"; "a"]
    = None.
Proof. split; [|split]; vm_compute; reflexivity. Qed.

(** * Further properties *)

(** ** The allocator never hands out a name that is taken *)

Section AllocatorFresh.
Import Allocator AllocatorOrder.

Lemma string_length_app a b :
  String.length (a +:+ b) = String.length a + String.length b.
Proof. induction a as [|c a IH]; simpl; [done|]. by rewrite IH. Qed.

Lemma string_compare_app_same p a b :
  String.compare (p +:+ a) (p +:+ b) = String.compare a b.
Proof.
  induction p as [|c p IH]; simpl; [done|]. by rewrite ascii_compare_refl.
Qed.

Lemma string_compare_app_lt u : ∀ v a b,
  String.length u = String.length v → String.compare u v = Lt →
  String.compare (u +:+ a) (v +:+ b) = Lt.
Proof.
  induction u as [|c u IH]; intros [|d v] a b; simpl; try done.
  intros [= Hlen]. destruct (Ascii.compare c d); try done. by apply IH.
Qed.

Lemma ascii_compare_succ x :
  ord x < 122 → Ascii.compare x (chr (ord x + 1)) = Lt.
Proof.
  intros Hlt. unfold Ascii.compare, chr, ord, ascii_of_nat, nat_of_ascii in *.
  rewrite N_ascii_embedding by lia.
  apply N.compare_lt_iff. lia.
Qed.

Lemma string_compare_last_succ p x :
  ord x < 122 →
  String.compare (p +:+ String x "") (p +:+ String (chr (ord x + 1)) "") = Lt.
Proof.
  intros Hlt. rewrite string_compare_app_same.
  change (match Ascii.compare x (chr (ord x + 1)) with
          | Eq => Eq | ne => ne end = Lt).
  by rewrite ascii_compare_succ.
Qed.

Lemma key_ltb_true x y :
  key_ltb (sort_key x) (sort_key y) = true ↔ length_lex_lt x y.
Proof.
  unfold key_ltb, sort_key, length_lex_lt, String.ltb. simpl.
  destruct (Nat.ltb_spec (String.length x) (String.length y)) as [Hlt|Hge].
  { split; [by left|done]. }
  destruct (Nat.ltb_spec (String.length y) (String.length x)) as [Hlt'|Hge'].
  { split; [done|]. intros [?|[? _]]; lia. }
  destruct (String.compare x y); split; try done; try (intros [?|[_ ?]]; [lia|done]).
  intros _. right. split; [lia|done].
Qed.

(** Every non-empty name is some [body] followed by one character. *)
Lemma string_snoc_cases (c : string) :
  c ≠ "" → ∃ body x, c = body +:+ String x "".
Proof.
  intros Hne.
  destruct (rev (list_ascii_of_string c)) as [|x rest] eqn:E.
  - apply (f_equal (@rev ascii)) in E. rewrite rev_involutive in E.
    apply (f_equal string_of_list_ascii) in E.
    by rewrite string_of_list_ascii_of_string in E.
  - exists (string_of_list_ascii (rev rest)), x.
    apply (f_equal (@rev ascii)) in E. rewrite rev_involutive in E.
    apply (f_equal string_of_list_ascii) in E.
    rewrite string_of_list_ascii_of_string in E. rewrite E. cbn [rev].
    by rewrite string_of_list_app.
Qed.

(** [inc] returns on every non-empty name, and what it returns comes later
    in the order by which the allocator picks the greatest name. *)
Lemma inc_greater (n : nat) : ∀ c,
  String.length c = S n →
  ∃ r, inc c = Return r ∧ length_lex_lt c r.
Proof.
  induction n as [|n IH]; intros c Hlen.
  - destruct c as [|x [|? ?]]; try done.
    destruct (Nat.lt_ge_cases (ord x) 122) as [Hlt|Hge].
    + pose proof (inc_step "" x Hlt) as Hinc.
      pose proof (string_compare_last_succ "" x Hlt) as Hcmp.
      eexists. split; [exact Hinc|]. right. split; [done|exact Hcmp].
    + rewrite inc_wrap_single by done.
      eexists. split; [done|]. left. cbn [String.length]. lia.
  - destruct (string_snoc_cases c) as (body & x & ->); [by destruct c|].
    rewrite string_length_app in Hlen. cbn in Hlen.
    assert (String.length body = S n) as Hbody by lia.
    destruct (Nat.lt_ge_cases (ord x) 122) as [Hlt|Hge].
    + rewrite inc_step by done. eexists. split; [done|]. right.
      rewrite !string_length_app. split; [done|].
      by apply string_compare_last_succ.
    + destruct (IH body Hbody) as (rb & Hrb & Hlt).
      rewrite inc_wrap by (done || by destruct body). rewrite Hrb.
      exists (rb +:+ "a"). split; [done|]. unfold length_lex_lt.
      rewrite !string_length_app. cbn [String.length].
      destruct Hlt as [Hlt|[Heq Hlt]]; [left; lia|right].
      split; [lia|]. by apply string_compare_app_lt.
Qed.

Lemma length_lex_lt_not_le x y : length_lex_lt x y → ¬ length_lex_le y x.
Proof.
  intros [Hlt|[Heq Hlt]] [Hle|[Heq' Hle]]; try lia.
  rewrite String.compare_antisym, Hlt in Hle. done.
Qed.

Lemma length_lex_le_lt_trans x y z :
  length_lex_le x y → length_lex_lt y z → length_lex_lt x z.
Proof.
  intros Hxy Hyz. apply key_ltb_true.
  destruct (key_ltb (sort_key x) (sort_key z)) eqn:E; [done|].
  exfalso. apply (length_lex_lt_not_le y z Hyz).
  apply name_le_length_lex. apply key_le_trans with (sort_key x).
  - exact E.
  - by apply name_le_length_lex.
Qed.
End AllocatorFresh.

(** The name computed comes after every entry. *)
Lemma next_open_subdir_above (names : list string) :
  Forall (λ n, n ≠ "") names →
  ∃ next,
    Allocator._compute_next_open_subdir names = Return next
    ∧ (∀ y, y ∈ names → AllocatorOrder.length_lex_lt y next).
Proof.
  intros Hne.
  destruct (decide (names = [])) as [->|Hnonempty].
  { exists "a". split; [done|]. intros y Hy. by inversion Hy. }
  destruct (next_open_subdir_greatest names Hnonempty) as (m & Hin & Hmax & Heq).
  assert (m ≠ "") as Hm by (eapply Forall_forall in Hne; eauto).
  destruct (inc_greater (pred (String.length m)) m) as (next & Hinc & Hlt).
  { destruct m; [done|]. reflexivity. }
  exists next. rewrite Heq. split; [done|].
  intros y Hy. eapply length_lex_le_lt_trans; [by apply Hmax|done].
Qed.

Lemma length_lex_lt_irrefl (x : string) : ¬ AllocatorOrder.length_lex_lt x x.
Proof.
  intros [?|[_ Hc]]; [lia|]. by rewrite string_compare_refl in Hc.
Qed.

(** X1.  Whatever the entries of the external root are called (any
    non-empty names, lower-case or not), [_compute_next_open_subdir] returns
    a name, that name comes after every entry in the order by length and
    then by character codes, and so it is not the name of an entry. *)
Theorem next_open_subdir_fresh (names : list string) :
  Forall (λ n, n ≠ "") names →
  ∃ next,
    Allocator._compute_next_open_subdir names = Return next
    ∧ (∀ y, y ∈ names → AllocatorOrder.length_lex_lt y next)
    ∧ next ∉ names.
Proof.
  intros Hne.
  destruct (next_open_subdir_above names Hne) as (next & Heq & Hall).
  exists next. split; [done|]. split; [done|].
  intros Hin. exact (length_lex_lt_irrefl next (Hall next Hin)).
Qed.

Lemma next_open_subdir_fresh_witness :
  ∃ next,
    Allocator._compute_next_open_subdir ["Build"; "zz"; "a~"] = Return next
    ∧ (∀ y, y ∈ ["Build"; "zz"; "a~"] → AllocatorOrder.length_lex_lt y next)
    ∧ next ∉ ["Build"; "zz"; "a~"].
Proof.
  apply next_open_subdir_fresh. repeat constructor; discriminate.
Defined.

(** ** [Stage.create] and [Stage.destroy] on the file system *)

Section CreateDestroy.
Import Stage.

Lemma is_dir_exists (p : FS.path) (m : FS.fs) :
  FS.is_dir p m = true → FS.exists_ p m = true.
Proof.
  unfold FS.is_dir, FS.exists_. by destruct (FS.follow FS.max_links p m).
Qed.

Lemma is_dir_of_dir (p : FS.path) (m : FS.fs) :
  m !! p = Some FS.Dir → FS.is_dir p m = true.
Proof.
  intros H. unfold FS.is_dir. rewrite follow_dir by done.
  unfold FS.lstat. by rewrite H.
Qed.

Lemma mkdirp_is_dir (p : FS.path) (m m' : FS.fs) :
  mkdirp p m = Return m' → FS.is_dir p m' = true.
Proof.
  unfold mkdirp. destruct (FS.exists_ p m) eqn:He.
  - destruct (FS.is_dir p m) eqn:Hd; [|done]. by intros [= <-].
  - intros H%makedirs_fuel_result. by apply is_dir_of_dir.
Qed.

(** When [create] returns, the stage path is a directory and the access
    check has passed. *)
Lemma create_is_dir env s w w' s' :
  create env s w = (w', s', Return tt) →
  FS.is_dir (_path s) (files w') = true
  ∧ ensure_access env (_path s) = Return tt
  ∧ s' = set_created true s.
Proof.
  unfold create, Stage.path.
  destruct (negb (FS.exists_ (_path s) (files w))) eqn:He.
  - destruct (on_files (mkdirp (_path s)) w) as [w1 [[]|e]] eqn:Hm; [|done].
    destruct (ensure_access env (_path s)) as [[]|]; [|done].
    intros [= <- <-]. split; [|done].
    apply on_files_return in Hm. by apply mkdirp_is_dir in Hm.
  - destruct (negb (FS.is_dir (_path s) (files w))) eqn:Hd.
    + destruct (on_files (FS.unlink (_path s)) w) as [w0 [[]|e]]; [|done].
      destruct (on_files (mkdirp (_path s)) w0) as [w1 [[]|e]] eqn:Hm; [|done].
      destruct (ensure_access env (_path s)) as [[]|]; [|done].
      intros [= <- <-]. split; [|done].
      apply on_files_return in Hm. by apply mkdirp_is_dir in Hm.
    + destruct (ensure_access env (_path s)) as [[]|]; [|done].
      intros [= <- <-]. split; [|done]. by apply negb_false_iff in Hd.
Qed.

(** On a path that is a directory [create] touches nothing. *)
Lemma create_on_directory env s w :
  FS.is_dir (_path s) (files w) = true →
  (create env s w).1.1 = w.
Proof.
  intros Hd. unfold create. rewrite (is_dir_exists _ _ Hd), Hd. cbn [negb].
  by destruct (ensure_access env (_path s)).
Qed.

Lemma rmtree_subseteq (p : FS.path) (m : FS.fs) : FS.rmtree p m ⊆ m.
Proof. apply map_filter_subseteq. Qed.

Lemma rmtree_outside (p q : FS.path) (m : FS.fs) :
  ¬ p `prefix_of` q → FS.rmtree p m !! q = m !! q.
Proof.
  intros Hq. unfold FS.rmtree. rewrite map_lookup_filter.
  destruct (m !! q) as [n|]; [|done]. cbn.
  by rewrite option_guard_True.
Qed.

Lemma rmtree_inside (p q : FS.path) (m : FS.fs) :
  p `prefix_of` q → FS.rmtree p m !! q = None.
Proof.
  intros Hq. unfold FS.rmtree. apply map_lookup_filter_None. right.
  intros x _ Hnot. by apply Hnot.
Qed.

Lemma remove_linked_tree_subseteq (p : FS.path) (m : FS.fs) :
  remove_linked_tree p m ⊆ m.
Proof.
  unfold remove_linked_tree. destruct (FS.exists_ p m); [|done].
  destruct (FS.is_link p m).
  - transitivity (FS.rmtree (FS.realpath p m) m);
      [apply delete_subseteq|apply rmtree_subseteq].
  - apply rmtree_subseteq.
Qed.
End CreateDestroy.

(** X2.  [create] is idempotent: when a first call has returned, a second
    call returns too and changes neither the file system nor the stage;
    and whenever the stage path already is a directory, [create] leaves
    the world as it is. *)
Theorem create_idempotent (env : Env) (s s1 : Stage.t) (w w1 : World) :
  Stage.create env s w = (w1, s1, Return tt) →
  Stage.create env s1 w1 = (w1, s1, Return tt)
  ∧ Stage.created s1 = true
  ∧ FS.is_dir (Stage.path s1) (files w1) = true
  ∧ (FS.is_dir (Stage.path s) (files w) = true → w1 = w).
Proof.
  intros Hc. pose proof (create_is_dir env s w w1 s1 Hc) as (Hd & Ha & ->).
  split; [|split; [done|split; [done|]]].
  - unfold Stage.create. cbn [Stage._path Stage.set_created].
    rewrite (is_dir_exists _ _ Hd), Hd. cbn [negb]. by rewrite Ha.
  - intros Hd0. pose proof (create_on_directory env s w Hd0) as Hsame.
    by rewrite Hc in Hsame.
Qed.

Lemma create_idempotent_witness :
  Stage.create Scenario.env_ok
    (Stage.create Scenario.env_ok Scenario.stage_pkg Scenario.world_pkg).1.2
    (Stage.create Scenario.env_ok Scenario.stage_pkg Scenario.world_pkg).1.1
  = Stage.create Scenario.env_ok Scenario.stage_pkg Scenario.world_pkg.
Proof.
  pose (c := Stage.create Scenario.env_ok Scenario.stage_pkg Scenario.world_pkg).
  assert (c = (c.1.1, c.1.2, Return tt)) as Hc by (vm_compute; reflexivity).
  change (Stage.create Scenario.env_ok c.1.2 c.1.1 = c).
  rewrite Hc at 3.
  exact (proj1 (create_idempotent Scenario.env_ok Scenario.stage_pkg c.1.2
                  Scenario.world_pkg c.1.1 Hc)).
Defined.

(** X3.  [destroy] only removes: every entry left was there before, with
    the same content.  For a stage path that is not a link, everything at or
    below the path is gone and everything else is untouched.  The call
    returns, with the stage marked not created, exactly when the working
    directory still exists afterwards or the parent of the stage path is a
    directory; the working directory is then kept in the first case and moved
    to that parent in the second.  Otherwise the call raises the error of
    [os.chdir] and neither the working directory nor [created] is changed. *)
Theorem destroy_only_stage_tree (s : Stage.t) (w : World) :
  let r := Stage.destroy s w in
  files r.1.1 ⊆ files w
  ∧ (FS.is_link (Stage.path s) (files w) = false →
     FS.exists_ (Stage.path s) (files w) = true →
     ∀ q, files r.1.1 !! q
          = if decide (Stage.path s `prefix_of` q) then None else files w !! q)
  ∧ (FS.exists_ (Stage.path s) (files w) = false → files r.1.1 = files w)
  ∧ (r.2 = Return tt
     ↔ FS.exists_ (cwd w) (files r.1.1) = true
       ∨ FS.is_dir (FS.parent (Stage._path s)) (files r.1.1) = true)
  ∧ (r.2 = Return tt →
     Stage.created r.1.2 = false
     ∧ cwd r.1.1 = (if FS.exists_ (cwd w) (files r.1.1) then cwd w
                    else FS.realpath (FS.parent (Stage._path s)) (files r.1.1)))
  ∧ (∀ e, r.2 = Raise e →
       (e = FileNotFoundError ∨ e = NotADirectoryError)
       ∧ r.1.2 = s ∧ cwd r.1.1 = cwd w).
Proof.
  cbn zeta.
  destruct (destroy_spec s w)
    as (Hfiles & _ & _ & _ & _ & _ & _ & Hiff & Hcr & Hraise).
  split; [rewrite Hfiles; apply remove_linked_tree_subseteq|].
  split; [|split; [|split; [exact Hiff|split]]].
  - intros Hl He q. rewrite Hfiles. unfold remove_linked_tree. rewrite He, Hl.
    destruct (decide (Stage.path s `prefix_of` q)).
    + by apply rmtree_inside.
    + by apply rmtree_outside.
  - intros He. rewrite Hfiles. unfold remove_linked_tree. by rewrite He.
  - intros Hret. split; [by apply Hcr|].
    revert Hret. rewrite Hfiles. unfold Stage.destroy, Stage.chdir.
    cbn [files cwd set_files].
    destruct (FS.exists_ (cwd w) (remove_linked_tree (Stage.path s) (files w)));
      [done|].
    destruct (FS.is_dir (FS.parent (Stage._path s))
                (remove_linked_tree (Stage.path s) (files w))); [done|].
    by destruct (FS.exists_ (FS.parent (Stage._path s))
                   (remove_linked_tree (Stage.path s) (files w))).
  - intros e He. destruct (Hraise e He) as (? & ? & ?). done.
Qed.

Lemma destroy_only_stage_tree_witness :
  files (Stage.destroy Scenario.stage_pkg Scenario.world_placed).1.1
    !! ["tmp"; "spack-stage"; "res"; "spack-src"; "README"]
  = Some (FS.File "read me")
  ∧ files (Stage.destroy Scenario.stage_pkg Scenario.world_placed).1.1
      !! ["tmp"; "spack-stage"; "pkg"; "spack-src"; "ext"; "lib"; "a.c"]
    = None.
Proof.
  destruct (destroy_only_stage_tree Scenario.stage_pkg Scenario.world_placed)
    as (_ & Hframe & _).
  rewrite !Hframe by (vm_compute; reflexivity).
  split; vm_compute; reflexivity.
Defined.

(** ** Lock objects of different names *)

Section RegistryInvariant.
Import Stage.

Lemma registry_ok_fresh w : registry_ok w → registry_ok (fresh w).2.
Proof.
  intros [Hlt Hinj]. split; cbn; [|done].
  intros n l Hn. specialize (Hlt n l Hn). lia.
Qed.

Lemma registry_ok_init_fetcher x w :
  registry_ok w → registry_ok (init_fetcher x w).2.
Proof. destruct x; [apply registry_ok_fresh|done]. Qed.

Lemma registry_ok_init_name env nm w :
  registry_ok w → registry_ok (init_name env nm w).2.
Proof. destruct nm; [done|apply registry_ok_fresh]. Qed.

Lemma registry_ok_init_lock env nm lock w :
  registry_ok w → registry_ok (init_lock env nm lock w).1.
Proof.
  intros [Hlt Hinj]. unfold init_lock. destruct lock; [|done]. cbn [fst].
  destruct (stage_locks w !! nm) as [x|] eqn:Hnm; [done|].
  cbn [fresh]. unfold register_lock. split; cbn [stage_locks next_oid].
  - intros n l. destruct (decide (nm = n)) as [->|Hne].
    + rewrite lookup_insert_eq. intros [= <-]. lia.
    + rewrite lookup_insert_ne by done. intros Hn. specialize (Hlt n l Hn). lia.
  - intros n1 n2 l.
    destruct (decide (nm = n1)) as [E1|Hne1], (decide (nm = n2)) as [E2|Hne2];
      subst; rewrite ?lookup_insert_eq, ?lookup_insert_ne by done; try done.
    + intros [= <-] Hn2. specialize (Hlt n2 _ Hn2). lia.
    + intros Hn1 [= <-]. specialize (Hlt n1 _ Hn1). lia.
    + apply Hinj.
Qed.

Lemma registry_ok_empty w : stage_locks w = ∅ → registry_ok w.
Proof. intros He. split; intros *; rewrite He, lookup_empty; done. Qed.

Lemma registry_ok_construct env a w :
  registry_ok w → registry_ok (construct env a w).1.
Proof.
  intros Hok. rewrite construct_unfold. cbn [fst].
  by apply registry_ok_init_lock, registry_ok_init_name, registry_ok_init_fetcher.
Qed.

Lemma registry_ok_construct_all env l : ∀ w,
  registry_ok w → registry_ok (construct_all env l w).1.
Proof.
  induction l as [|a l IH]; intros w Hok; [done|].
  cbn [construct_all].
  pose proof (registry_ok_construct env a w Hok) as H1.
  destruct (construct env a w) as [w1 s]. cbn [fst] in H1.
  specialize (IH w1 H1). by destruct (construct_all env l w1) as [w2 ss].
Qed.

(** A construction with [lock=True] holds the object registered under the
    name the stage ends up with. *)
Lemma construct_lock_registered env a w :
  arg_lock a = true →
  ∃ l, _lock (construct env a w).2 = Some l
       ∧ stage_locks (construct env a w).1 !! name (construct env a w).2 = Some l.
Proof.
  intros Hl. rewrite construct_unfold. cbn [fst snd name _lock]. rewrite Hl.
  set (nw := init_name env (arg_name a) (init_fetcher (arg_fetcher a) w).2).
  destruct (init_lock_spec env nw.1 true nw.2) as ([H1 [l H2]] & _); [done|].
  exists l. by rewrite <- H1.
Qed.
End RegistryInvariant.

(** X4.  In a process whose registry is in order (an empty one is), two
    stages constructed with [lock=True] that end up with different names,
    given or generated, hold different lock objects; and the registry stays
    in order through any constructions. *)
Theorem distinct_names_distinct_locks (env : Env) (a1 a2 : Stage.init_args)
    (between : list Stage.init_args) (w : World) :
  registry_ok w →
  Stage.arg_lock a1 = true → Stage.arg_lock a2 = true →
  let w1 := (Stage.construct env a1 w).1 in
  let s1 := (Stage.construct env a1 w).2 in
  let w2 := (Stage.construct_all env between w1).1 in
  let w3 := (Stage.construct env a2 w2).1 in
  let s2 := (Stage.construct env a2 w2).2 in
  registry_ok w3
  ∧ (Stage.name s1 ≠ Stage.name s2 →
     ∃ l1 l2, Stage._lock s1 = Some l1 ∧ Stage._lock s2 = Some l2 ∧ l1 ≠ l2).
Proof.
  intros Hok Hl1 Hl2 w1 s1 w2 w3 s2.
  assert (registry_ok w3) as Hok3.
  { by apply registry_ok_construct, registry_ok_construct_all,
      registry_ok_construct. }
  split; [done|]. intros Hne.
  destruct (construct_lock_registered env a1 w Hl1) as (l1 & Hs1 & Hr1).
  destruct (construct_lock_registered env a2 w2 Hl2) as (l2 & Hs2 & Hr2).
  fold w1 s1 in Hs1, Hr1. fold w3 s2 in Hs2, Hr2.
  exists l1, l2. split; [done|]. split; [done|]. intros ->.
  apply Hne. apply (proj2 Hok3 _ _ l2); [|done].
  by apply construct_keeps_locks, construct_all_keeps_locks.
Qed.

Lemma distinct_names_distinct_locks_witness :
  ∃ l1 l2,
    Stage._lock Scenario.stage_pkg = Some l1
    ∧ Stage._lock
        (Stage.construct Scenario.env_ok Scenario.args_other
           (Stage.construct_all Scenario.env_ok [Scenario.args_pkg_again]
              Scenario.world_pkg).1).2 = Some l2
    ∧ l1 ≠ l2.
Proof.
  apply (proj2 (distinct_names_distinct_locks Scenario.env_ok Scenario.args_pkg
    Scenario.args_other [Scenario.args_pkg_again] Scenario.world0
    (registry_ok_empty Scenario.world0 eq_refl) eq_refl eq_refl)).
  vm_compute. discriminate.
Defined.

(** ** The fetch chain, continued *)

Section FetchMore.
Import Stage.

Lemma dict_get_set_eq {V} k (v : V) d : dict_get k (dict_set k v d) = Some v.
Proof.
  induction d as [|[k' v'] d IH]; cbn.
  - by rewrite String.eqb_refl.
  - destruct (String.eqb k k') eqn:E; cbn; rewrite ?String.eqb_refl, ?E; done.
Qed.

Lemma dict_get_set_ne {V} k k' (v : V) d :
  k ≠ k' → dict_get k' (dict_set k v d) = dict_get k' d.
Proof.
  intros Hne. induction d as [|[k0 v0] d IH]; cbn.
  - apply String.eqb_neq in Hne. rewrite String.eqb_sym in Hne. by rewrite Hne.
  - destruct (String.eqb k k0) eqn:E; cbn.
    + apply String.eqb_eq in E as <-.
      assert (String.eqb k' k = false) as ->; [|done].
      apply String.eqb_neq. congruence.
    + by rewrite IH.
Qed.

Lemma dict_set_keys {V} k (v : V) d k' :
  k' ∈ map fst (dict_set k v d) ↔ k' = k ∨ k' ∈ map fst d.
Proof.
  induction d as [|[k0 v0] d IH]; cbn.
  - set_solver.
  - destruct (String.eqb k k0) eqn:E; cbn.
    + apply String.eqb_eq in E as <-. set_solver.
    + rewrite !elem_of_cons, IH. tauto.
Qed.

Lemma dict_set_NoDup {V} k (v : V) d :
  NoDup (map fst d) → NoDup (map fst (dict_set k v d)).
Proof.
  induction d as [|[k0 v0] d IH]; cbn; intros Hnd.
  - apply NoDup_singleton.
  - apply NoDup_cons in Hnd as [Hni Hnd].
    destruct (String.eqb k k0) eqn:E; cbn.
    + apply String.eqb_eq in E as <-. by apply NoDup_cons.
    + apply NoDup_cons. split; [|by apply IH].
      rewrite dict_set_keys. intros [->|?]; [|done].
      by rewrite String.eqb_refl in E.
Qed.

Lemma dict_set_set {V} k (v1 v2 : V) d :
  dict_set k v2 (dict_set k v1 d) = dict_set k v2 d.
Proof.
  induction d as [|[k0 v0] d IH]; cbn.
  - by rewrite String.eqb_refl.
  - destruct (String.eqb k k0) eqn:E; cbn; rewrite ?String.eqb_refl, ?E; [done|].
    by rewrite IH.
Qed.

Lemma dict_get_keys {V} k (d : list (string * V)) :
  k ∈ map fst d ↔ is_Some (dict_get k d).
Proof.
  induction d as [|[k0 v0] d IH]; cbn.
  - split; [set_solver|]. by intros [? ?].
  - destruct (String.eqb k k0) eqn:E.
    + apply String.eqb_eq in E as <-. split; [eauto|set_solver].
    + apply String.eqb_neq in E. rewrite elem_of_cons, IH. naive_solver.
Qed.

Lemma mirror_urls_assign env paths :
  mirror_urls env paths = foldl assign_pair [] (mirror_url_pairs env paths).
Proof.
  unfold mirror_urls, mirror_url_pairs.
  generalize (@nil (string * option Connection)).
  induction (mirrors env) as [|m ms IH]; intros tbl; [done|].
  cbn [foldl flat_map]. rewrite foldl_app, IH. f_equal.
  clear IH. revert tbl. induction paths as [|p ps IHp]; intros tbl; [done|].
  cbn [foldl map]. rewrite IHp. f_equal.
  unfold assign_pair, connection_of. cbn [fst snd].
  destruct (has_credentials m); [|done]. apply dict_set_set.
Qed.

Lemma assign_all_spec {V} (kvs : list (string * V)) : ∀ d,
  NoDup (map fst d) →
  NoDup (map fst (foldl assign_pair d kvs))
  ∧ (∀ k, k ∈ map fst (foldl assign_pair d kvs) ↔ k ∈ map fst d ∨ k ∈ map fst kvs)
  ∧ (∀ k, dict_get k (foldl assign_pair d kvs)
          = match last (filter (λ kv, kv.1 = k) kvs) with
            | Some kv => Some kv.2
            | None => dict_get k d
            end).
Proof.
  induction kvs as [|kv kvs IH] using rev_ind; intros d Hnd.
  - cbn. split; [done|]. split; [set_solver|done].
  - destruct (IH d Hnd) as (Hnd' & Hkeys & Hget).
    rewrite foldl_app. cbn [foldl]. unfold assign_pair at 1 3 5.
    split; [by apply dict_set_NoDup|]. split.
    + intros k. rewrite dict_set_keys, Hkeys, map_app, elem_of_app. set_solver.
    + intros k. rewrite filter_app.
      destruct (decide (kv.1 = k)) as [<-|Hne].
      * rewrite dict_get_set_eq, filter_cons_True by done.
        by rewrite filter_nil, last_snoc.
      * rewrite dict_get_set_ne by done.
        rewrite filter_cons_False by done. by rewrite filter_nil, app_nil_r.
Qed.

End FetchMore.

(** X5. The dictionary [mirror_urls] that [Stage.fetch] builds holds every
    URL once; its keys are the joins of a configured mirror's fetch URL with
    a mirror path; and under each URL it holds the connection of the last
    mirror, in configuration order, that yields this URL: the empty
    connection when that mirror has no credentials, whatever an earlier
    mirror with the same URL had. *)
Theorem mirror_urls_last_mirror_wins (env : Env) (paths : list string) :
  let tbl := Stage.mirror_urls env paths in
  NoDup (map fst tbl)
  ∧ (∀ u, u ∈ map fst tbl
          ↔ ∃ m p, m ∈ mirrors env ∧ p ∈ paths
                   ∧ u = url_join env (fetch_url m) p)
  ∧ (∀ u, Stage.dict_get u tbl
          = snd <$> last (filter (λ kv, kv.1 = u) (mirror_url_pairs env paths))).
Proof.
  cbn zeta. rewrite mirror_urls_assign.
  destruct (assign_all_spec (mirror_url_pairs env paths) [] (NoDup_nil_2))
    as (Hnd & Hkeys & Hget).
  split; [done|]. split.
  - intros u. rewrite Hkeys. unfold mirror_url_pairs.
    change (map fst (@nil (string * option Connection))) with (@nil string).
    split.
    + intros [H|H]; [by apply elem_of_nil in H|].
      apply list_elem_of_fmap in H as ([u' c] & -> & H).
      apply list_elem_of_In, in_flat_map in H as (m & Hm & H).
      apply list_elem_of_In, list_elem_of_fmap in H as (p & Heq & Hp).
      injection Heq as -> ->. exists m, p. by rewrite list_elem_of_In.
    + intros (m & p & Hm & Hp & ->). right. apply list_elem_of_fmap.
      exists (url_join env (fetch_url m) p, connection_of m). split; [done|].
      apply list_elem_of_In, in_flat_map. exists m.
      split; [by apply list_elem_of_In|].
      apply list_elem_of_In, list_elem_of_fmap. by exists p.
  - intros u. rewrite Hget.
    by destruct (last (filter (λ kv, kv.1 = u) (mirror_url_pairs env paths))).
Qed.

Section FetchTrace.
Import Stage.

Lemma insert_front_all_oids {X} (make : X → origin) (xs : list X) :
  ∀ w acc, ∃ w' news,
    insert_front_all make xs (w, acc) = (w', news ++ acc)
    ∧ next_oid w ≤ next_oid w'
    ∧ Forall (λ f, next_oid w ≤ oid f < next_oid w') news.
Proof.
  induction xs as [|x xs IH]; intros w acc.
  - exists w, []. done.
  - rewrite insert_front_all_cons.
    destruct (IH (fresh w).2 ({| oid := (fresh w).1; made := make x |} :: acc))
      as (w' & news & -> & Hle & Hall).
    cbn [fresh fst snd next_oid] in *.
    exists w', (news ++ [{| oid := next_oid w; made := make x |}]).
    rewrite <- app_assoc. split; [done|]. split; [lia|].
    apply Forall_app. split.
    + eapply Forall_impl; [exact Hall|]. cbn. intros; lia.
    + apply Forall_singleton. cbn. lia.
Qed.

(** The objects in front of the default fetcher are created by the call,
    and the flag is set from the mirror paths and the digest. *)
Lemma build_fetchers_more env mirror_only s w :
  ∃ w' s' news,
    build_fetchers env mirror_only s w
      = (w', s', news ++ (if mirror_only then [] else [default_fetcher s]))
    ∧ Forall (λ f, next_oid w ≤ oid f) news
    ∧ skip_checksum_for_mirror s' = skip_after_fetch s
    ∧ mirror_paths s' = mirror_paths s
    ∧ fetcher s' = fetcher s.
Proof.
  unfold build_fetchers, skip_after_fetch.
  cbn [mirror_paths set_skip_checksum_for_mirror].
  destruct (mirror_paths s) as [|p ps] eqn:Hmp.
  { exists w, (set_skip_checksum_for_mirror true s), []. done. }
  change (mirror_metadata (set_skip_checksum_for_mirror true s))
    with (mirror_metadata s).
  destruct (mirror_metadata s) as [[d e] x].
  cbn [default_fetcher set_skip_checksum_for_mirror fst].
  set (urls := mirror_urls env (p :: ps)).
  set (base := if mirror_only then [] else [default_fetcher s]).
  destruct (insert_front_all_oids
    (λ u, FromUrlScheme u d e x (default None (dict_get u urls)))
    (rev (map fst urls)) w base) as (w1 & ms & -> & Hle1 & Hms).
  destruct (cachable (default_fetcher s)).
  - destruct (insert_front_all_oids
      (λ rel_path, FromFetchCache rel_path d e x)
      (rev (p :: ps)) w1 (ms ++ base)) as (w2 & cs & -> & Hle2 & Hcs).
    eexists w2, _, (cs ++ ms). rewrite <- app_assoc. split; [done|].
    split; [|done]. apply Forall_app. split.
    + eapply Forall_impl; [exact Hcs|]. cbn. intros; lia.
    + eapply Forall_impl; [exact Hms|]. cbn. intros; lia.
  - eexists w1, _, ms. split; [done|]. split; [|done].
    eapply Forall_impl; [exact Hms|]. cbn. intros; lia.
Qed.

(** What the loop appends to the trace and what it leaves alone. *)
Lemma try_fetchers_more env cands : ∀ errors s w,
  ∃ w' s' errors' broke,
    try_fetchers env cands errors s w = (w', s', errors', broke)
    ∧ trace w' = trace w ++ map FetcherFetch (tried env cands)
    ∧ skip_checksum_for_mirror s' = skip_checksum_for_mirror s
    ∧ mirror_paths s' = mirror_paths s
    ∧ broke = negb (forallb (λ f, negb (succeeds env f)) cands).
Proof.
  induction cands as [|f rest IH]; intros errors s w.
  - exists w, s, errors, false. cbn. rewrite app_nil_r. done.
  - cbn [try_fetchers tried forallb map].
    destruct (fetch_outcome env f) eqn:Hf.
    + assert (succeeds env f = true) as -> by (unfold succeeds; by rewrite Hf).
      eexists _, _, _, _. split; [done|]. done.
    + assert (succeeds env f = false) as -> by (unfold succeeds; by rewrite Hf).
      destruct (IH errors (set_fetcher f s) (emit (FetcherFetch f) w))
        as (w' & s' & e' & b & -> & Htr & Hsk & Hmp & Hb).
      eexists _, _, _, _. split; [done|].
      rewrite Htr. cbn [trace emit map negb andb]. rewrite <- app_assoc. done.
    + assert (succeeds env f = false) as -> by (unfold succeeds; by rewrite Hf).
      destruct (IH (errors ++ [f]) (set_fetcher f s) (emit (FetcherFetch f) w))
        as (w' & s' & e' & b & -> & Htr & Hsk & Hmp & Hb).
      eexists _, _, _, _. split; [done|].
      rewrite Htr. cbn [trace emit map negb andb]. rewrite <- app_assoc. done.
Qed.

Lemma tried_elem env cands f : f ∈ tried env cands → f ∈ cands.
Proof.
  induction cands as [|g rest IH]; [done|]. cbn [tried].
  rewrite !elem_of_cons. intros [->|H]; [by left|].
  destruct (succeeds env g); [by apply elem_of_nil in H|]. right. by apply IH.
Qed.

End FetchTrace.

Section FetchRun.
Import Stage.

(** [fetch] leaves the flag that the mirror paths and the digest decide. *)
Lemma fetch_flags env mirror_only err_msg s w :
  skip_checksum_for_mirror (fetch env mirror_only err_msg s w).1.2
    = skip_after_fetch s
  ∧ mirror_paths (fetch env mirror_only err_msg s w).1.2 = mirror_paths s.
Proof.
  unfold fetch.
  destruct (build_fetchers_more env mirror_only s w)
    as (w0 & s0 & news & -> & _ & Hsk0 & Hmp0 & _).
  destruct (try_fetchers_more env
    (news ++ (if mirror_only then [] else [default_fetcher s])) [] s0 w0)
    as (w1 & s1 & e1 & b1 & -> & _ & Hsk1 & Hmp1 & _).
  destruct b1; [cbn; split; congruence|].
  destruct (search_fn s1) as [dyn|]; [|cbn; split; congruence].
  destruct (negb mirror_only); [|cbn; split; congruence].
  destruct (try_fetchers_more env dyn e1 s1 (emit SearchFn w1))
    as (w2 & s2 & e2 & b2 & -> & _ & Hsk2 & Hmp2 & _).
  destruct b2; cbn; split; congruence.
Qed.

End FetchRun.

(** X6. The calls [Stage.fetch] makes, in order: [fetch()] on the static
    candidates up to the first that succeeds; then, only when every static
    candidate failed, the stage has a [search_fn] and [mirror_only] is off,
    one call of [search_fn] followed by [fetch()] on what it returned, again
    up to the first success.  Nothing else is called; a success among the
    static candidates means [search_fn] is never called. *)
Theorem fetch_calls_in_order (env : Env) (mirror_only : bool)
    (err_msg : option string) (s : Stage.t) (w : World) :
  let static := (Stage.build_fetchers env mirror_only s w).2 in
  trace (Stage.fetch env mirror_only err_msg s w).1.1
  = trace w ++ map FetcherFetch (Stage.tried env static)
    ++ match Stage.search_fn s with
       | Some dyn =>
           if negb mirror_only
              && forallb (λ f, negb (Stage.succeeds env f)) static
           then SearchFn :: map FetcherFetch (Stage.tried env dyn)
           else []
       | None => []
       end.
Proof.
  cbn zeta. unfold Stage.fetch.
  destruct (build_fetchers_spec env mirror_only s w)
    as (w0 & s0 & news & Hb & _ & Htr0 & _ & _ & Hsf0 & _).
  rewrite Hb. cbn [snd].
  set (static := news ++ _) in *.
  destruct (try_fetchers_spec env static [] s0 w0)
    as (w1 & s1 & e1 & b1 & Ht & _ & _ & _ & Hsf1 & _).
  destruct (try_fetchers_more env static [] s0 w0)
    as (w1' & s1' & e1' & b1' & Ht' & Htr1 & _ & _ & Hb1).
  rewrite Ht in Ht'. injection Ht' as <- <- <- <-. rewrite Ht.
  rewrite <- Hsf0, <- Hsf1, <- Htr0, Hb1.
  destruct (forallb _ static); cbn [negb].
  - destruct (Stage.search_fn s1) as [dyn|].
    + destruct mirror_only; cbn [negb andb].
      * cbn. by rewrite Htr1, app_nil_r.
      * destruct (try_fetchers_more env dyn e1 s1 (emit SearchFn w1))
          as (w2 & s2 & e2 & b2 & -> & Htr2 & _).
        cbn [trace emit] in Htr2.
        assert (trace (if b2 then (w2, s2, Return tt)
                       else (w2, Stage.set_fetcher (Stage.default_fetcher s2) s2,
                             Raise (FetchError
                               (Stage.py_or err_msg (Stage.default_msg s2))))).1.1
                = trace w2) as -> by (by destruct b2).
        rewrite Htr2, Htr1, <- !app_assoc. done.
    + cbn. by rewrite Htr1, app_nil_r.
  - rewrite andb_false_r. cbn. rewrite Htr1.
    destruct (Stage.search_fn s1); by rewrite app_nil_r.
Qed.

(** X7. With [mirror_only] on, [Stage.fetch] calls nothing but [fetch()]
    on fetchers that it created itself for the fetch cache and the mirrors:
    the default fetcher, which existed before the call, is never contacted
    and [search_fn] is never called.  Without mirror paths there is nobody to
    contact: the call raises [FetchError] after no call at all. *)
Theorem fetch_mirror_only (env : Env) (err_msg : option string)
    (s : Stage.t) (w : World) :
  oid (Stage.default_fetcher s) < next_oid w →
  ∃ contacted,
    trace (Stage.fetch env true err_msg s w).1.1
      = trace w ++ map FetcherFetch contacted
    ∧ Forall (λ f, same_object f (Stage.default_fetcher s) = false
                   ∧ made f ∈ Stage.cache_origins s ++ Stage.mirror_origins env s)
        contacted
    ∧ (Stage.mirror_paths s = [] →
       contacted = []
       ∧ (Stage.fetch env true err_msg s w).2
         = Raise (FetchError (Stage.py_or err_msg (Stage.default_msg s)))).
Proof.
  intros Hold.
  destruct (build_fetchers_spec env true s w)
    as (w0 & s0 & news & Hb & Hmade & Htr0 & _ & _ & Hsf0 & Hn0).
  destruct (build_fetchers_more env true s w)
    as (w0' & s0' & news' & Hb' & Hoids & _).
  rewrite Hb in Hb'. injection Hb' as <- <- Hnews.
  apply app_inv_tail in Hnews as <-.
  rewrite app_nil_r in Hb.
  destruct (try_fetchers_spec env news [] s0 w0)
    as (w1 & s1 & e1 & b1 & Ht & _ & _ & _ & _ & Hn1 & Hfind).
  destruct (try_fetchers_more env news [] s0 w0)
    as (w1' & s1' & e1' & b1' & Ht' & Htr1 & _ & _ & Hb1).
  rewrite Ht in Ht'. injection Ht' as <- <- <- <-.
  assert (Stage.fetch env true err_msg s w
          = if b1 then (w1, s1, Return tt)
            else (w1, Stage.set_fetcher (Stage.default_fetcher s1) s1,
                  Raise (FetchError
                    (Stage.py_or err_msg (Stage.default_msg s1))))) as Hfetch.
  { unfold Stage.fetch. rewrite Hb, Ht.
    destruct b1; [done|]. by destruct (Stage.search_fn s1). }
  exists (Stage.tried env news). split; [|split].
  - rewrite Hfetch, <- Htr0, <- Htr1. by destruct b1.
  - apply Forall_forall. intros f Hf%tried_elem. split.
    + rewrite Forall_forall in Hoids. specialize (Hoids f Hf).
      unfold same_object. apply Nat.eqb_neq. lia.
    + rewrite <- Hmade. apply list_elem_of_fmap. by exists f.
  - intros Hmp.
    assert (news = []) as ->.
    { apply (f_equal length) in Hmade. revert Hmade.
      unfold Stage.cache_origins, Stage.mirror_origins. rewrite Hmp.
      rewrite mirror_urls_no_paths.
      destruct (Stage.mirror_metadata s) as [[d e] x].
      destruct (cachable (Stage.default_fetcher s)); cbn;
        rewrite length_map; by destruct news. }
    split; [done|].
    cbn in Hb1. subst b1. rewrite Hfetch. cbn [snd].
    unfold Stage.default_msg. by rewrite Hn1, Hn0.
Qed.

Lemma fetch_mirror_only_witness :
  ∃ contacted,
    trace (Stage.fetch Scenario.env_ok true None
             (Stage.construct Scenario.env_ok Scenario.args_other Scenario.world0).2
             (Stage.construct Scenario.env_ok Scenario.args_other Scenario.world0).1).1.1
      = map FetcherFetch contacted
    ∧ contacted = [].
Proof.
  destruct (fetch_mirror_only Scenario.env_ok None
    (Stage.construct Scenario.env_ok Scenario.args_other Scenario.world0).2
    (Stage.construct Scenario.env_ok Scenario.args_other Scenario.world0).1)
    as (c & Htr & _ & Hnone).
  - vm_compute. lia.
  - exists c. split; [exact Htr|]. apply Hnone. reflexivity.
Defined.

(** X8. [Stage.check] after a successful [Stage.fetch]: the archive is
    verified, and a mismatch raised, exactly when checksums are configured
    and either the fetcher that succeeded is the default fetcher itself or
    the stage has mirror paths and its default fetcher is a URL fetcher with
    a digest.  A download by any other object, be it a mirror or cache
    fetcher of a stage without digest or a fetcher that [search_fn] returned
    for a stage without mirror paths, is accepted with the mirror warning
    and no check. *)
Theorem fetch_then_check (env : Env) (mirror_only : bool)
    (err_msg : option string) (s s' : Stage.t) (w w' : World) :
  Stage.fetch env mirror_only err_msg s w = (w', s', Return tt) →
  ((Stage.check env s' w').2 = Raise ChecksumError
   ↔ config_checksum env = true
     ∧ check_ok env (Stage.fetcher s') = false
     ∧ (same_object (Stage.fetcher s') (Stage.default_fetcher s) = true
        ∨ (Stage.mirror_paths s ≠ []
           ∧ truthy (Stage.mirror_metadata s).1.1 = true)))
  ∧ (same_object (Stage.fetcher s') (Stage.default_fetcher s) = false →
     Stage.mirror_paths s = [] ∨ truthy (Stage.mirror_metadata s).1.1 = false →
     Stage.check env s' w' = (emit (Warn Stage.mirror_warning) w', Return tt)).
Proof.
  intros Hfetch.
  destruct (fetch_flags env mirror_only err_msg s w) as [Hsk _].
  destruct (fetch_spec env mirror_only err_msg s w)
    as (w0 & s0 & r & Heq & _ & _ & Hd & _).
  rewrite Hfetch in Hsk, Heq. injection Heq as <- <- <-. cbn [fst snd] in Hsk.
  unfold Stage.check. rewrite Hd, Hsk. unfold skip_after_fetch.
  split.
  - destruct (same_object (Stage.fetcher s') (Stage.default_fetcher s));
      cbn [negb andb].
    + destruct (config_checksum env); cbn [snd]; [|naive_solver].
      destruct (check_ok env (Stage.fetcher s')); cbn [snd]; naive_solver.
    + destruct (Stage.mirror_paths s) as [|p ps]; cbn [snd]; [naive_solver|].
      destruct (truthy (Stage.mirror_metadata s).1.1); cbn [negb snd];
        [|naive_solver].
      destruct (config_checksum env); cbn [snd]; [|naive_solver].
      destruct (check_ok env (Stage.fetcher s')); cbn [snd]; naive_solver.
  - intros -> Hor. cbn [negb andb].
    destruct (Stage.mirror_paths s) as [|p ps]; [done|].
    destruct Hor as [H | H]; [done|]. by rewrite H.
Qed.

Lemma fetch_then_check_witness :
  (Stage.check (Scenario.env_with Scenario.outcome_mirror_ok true false)
     (Stage.fetch (Scenario.env_with Scenario.outcome_mirror_ok true false)
        false None Scenario.stage_pkg Scenario.world_pkg).1.2
     (Stage.fetch (Scenario.env_with Scenario.outcome_mirror_ok true false)
        false None Scenario.stage_pkg Scenario.world_pkg).1.1).2
  = Raise ChecksumError.
Proof.
  pose (env := Scenario.env_with Scenario.outcome_mirror_ok true false).
  pose (r := Stage.fetch env false None Scenario.stage_pkg Scenario.world_pkg).
  assert (r = (r.1.1, r.1.2, Return tt)) as Hr by (vm_compute; reflexivity).
  apply (fetch_then_check env false None _ _ _ _ Hr).
  split; [reflexivity|]. split; [reflexivity|].
  right. split; [discriminate|reflexivity].
Defined.

(** ** The external build directory, continued *)

Section DirectoryEntries.

Lemma children_elem (p : FS.path) (m : FS.fs) (n : string) :
  n ∈ FS.children p m ↔ is_Some (m !! (p ++ [n])).
Proof.
  unfold FS.children. rewrite list_elem_of_omap. split.
  - intros (k & Hk & Hf).
    apply list_elem_of_fmap in Hk as ([k' x] & -> & Hk).
    apply elem_of_map_to_list in Hk. cbn [fst] in Hf.
    destruct (reverse k') as [|n' rp] eqn:Hrev; [done|].
    destruct (decide (reverse rp = p)) as [<-|]; [|done].
    injection Hf as <-.
    assert (k' = reverse rp ++ [n']) as <-; [|by eexists].
    apply (f_equal reverse) in Hrev.
    by rewrite reverse_involutive, reverse_cons in Hrev.
  - intros [x Hx]. exists (p ++ [n]). split.
    + apply list_elem_of_fmap. exists (p ++ [n], x). split; [done|].
      by apply elem_of_map_to_list.
    + rewrite reverse_app.
      change (reverse [n] ++ reverse p) with (n :: reverse p).
      cbn beta iota. rewrite reverse_involutive. by rewrite decide_True.
Qed.

Lemma parent_snoc (p : FS.path) (n : string) : FS.parent (p ++ [n]) = p.
Proof. unfold FS.parent. apply removelast_last. Qed.

Lemma parent_prefix (p : FS.path) : FS.parent p `prefix_of` p.
Proof.
  unfold FS.parent. destruct (decide (p = [])) as [->|Hne]; [done|].
  exists [List.last p ""]. by apply app_removelast_last.
Qed.

(** [Path.mkdir(parents=True, exist_ok=True)] only adds directories, on the
    way to [p], and leaves a directory at [p]. *)
Lemma mkdir_parents_fuel_spec (fuel : nat) : ∀ (p : FS.path) (m m' : FS.fs),
  FS.mkdir_parents_fuel fuel p m = Return m' →
  m ⊆ m' ∧ FS.is_dir p m' = true
  ∧ ∀ q n, m' !! q = Some n → m !! q = Some n ∨ (n = FS.Dir ∧ q `prefix_of` p).
Proof.
  assert (∀ (p : FS.path) (m m' : FS.fs), FS.mkdir p m = Return m' →
    m ⊆ m' ∧ FS.is_dir p m' = true
    ∧ ∀ q n, m' !! q = Some n → m !! q = Some n ∨ (n = FS.Dir ∧ q `prefix_of` p))
    as Hmk.
  { intros p m m' H. pose proof (mkdir_subseteq _ _ _ H) as Hsub.
    apply mkdir_result in H as ->. split; [done|]. split.
    - apply is_dir_of_dir, lookup_insert_eq.
    - intros q n. destruct (decide (p = q)) as [<-|Hne].
      + rewrite lookup_insert_eq. intros [= <-]. by right.
      + rewrite lookup_insert_ne by done. by left. }
  assert (∀ (p : FS.path) (m m' : FS.fs) e,
    (if is_OSError e && FS.is_dir p m then Return m else Raise e) = Return m' →
    m ⊆ m' ∧ FS.is_dir p m' = true
    ∧ ∀ q n, m' !! q = Some n → m !! q = Some n ∨ (n = FS.Dir ∧ q `prefix_of` p))
    as Hok.
  { intros p m m' e H. destruct (is_OSError e); [|done].
    destruct (FS.is_dir p m) eqn:Hd; [|done]. cbn in H. injection H as <-.
    split; [done|]. split; [done|]. intros; by left. }
  induction fuel as [|k IH]; intros p m m'; cbn [FS.mkdir_parents_fuel].
  - destruct (FS.mkdir p m) as [m0|e] eqn:E.
    + intros [= <-]. by apply Hmk.
    + destruct e; try done; apply Hok.
  - destruct (FS.mkdir p m) as [m0|e] eqn:E.
    + intros [= <-]. by apply Hmk.
    + destruct e; try done; try apply Hok.
      destruct (FS.mkdir_parents_fuel k (FS.parent p) m) as [m1|e1] eqn:E1;
        [|done].
      cbn. apply IH in E1 as (Hsub1 & _ & Hadd1).
      unfold FS.mkdir_exist_ok.
      intros H.
      assert (m1 ⊆ m' ∧ FS.is_dir p m' = true
        ∧ ∀ q n, m' !! q = Some n
                 → m1 !! q = Some n ∨ (n = FS.Dir ∧ q `prefix_of` p))
        as (Hsub2 & Hd & Hadd2).
      { destruct (FS.mkdir p m1) as [m2|e2] eqn:E2.
        - injection H as <-. by apply Hmk.
        - by apply Hok in H. }
      split; [by etrans|]. split; [done|].
      intros q n Hq. destruct (Hadd2 q n Hq) as [Hq1|?]; [|by right].
      destruct (Hadd1 q n Hq1) as [?|[-> Hpre]]; [by left|right].
      split; [done|]. etrans; [exact Hpre|apply parent_prefix].
Qed.

End DirectoryEntries.

Section SequentialAllocation.
Import CMakeBuildStage.

Lemma mkdir_attempts_first others remaining k (p : FS.path) w (m' : FS.fs) :
  FS.mkdir p (others k (files w)) = Return m' →
  mkdir_attempts others (S remaining) k p w
  = (set_files m' (emit (TryMkdir p) (set_files (others k (files w)) w)),
     Return true).
Proof.
  intros H. cbn [mkdir_attempts]. cbn [files emit set_files]. by rewrite H.
Qed.

(** A directory that is not reached through a link is its own node. *)
Lemma is_dir_not_link (p : FS.path) (m : FS.fs) :
  FS.is_dir p m = true → FS.is_link p m = false → m !! p = Some FS.Dir.
Proof.
  unfold FS.is_dir, FS.is_link, FS.max_links. cbn [FS.follow].
  unfold FS.lstat. destruct (m !! p) as [[| |t]|] eqn:Hp; try done.
  by rewrite Hp.
Qed.

End SequentialAllocation.

(** The call of a process that is alone, as an equation. *)
Lemma setup_remote_alone (c : CMakeBuildStage.t) (w : World) (m : FS.fs) :
  FS.is_link (CMakeBuildStage._remote_root c) (files w) = false →
  FS.mkdir_parents (CMakeBuildStage._remote_root c) (files w) = Return m →
  Forall (λ n, n ≠ "") (FS.children (CMakeBuildStage._remote_root c) (files w)) →
  ∃ sub,
    CMakeBuildStage._setup_remote_build_stage CMakeBuildStage.alone c w
    = (set_files (<[CMakeBuildStage._remote_root c ++ [sub] := FS.Dir]> m)
         (emit (TryMkdir (CMakeBuildStage._remote_root c ++ [sub])) w),
       Return (CMakeBuildStage._remote_root c ++ [sub]))
    ∧ files w !! (CMakeBuildStage._remote_root c ++ [sub]) = None
    ∧ m !! (CMakeBuildStage._remote_root c ++ [sub]) = None
    ∧ (∀ y, y ∈ FS.children (CMakeBuildStage._remote_root c) (files w) →
            AllocatorOrder.length_lex_lt y sub).
Proof.
  set (root := CMakeBuildStage._remote_root c).
  intros Hlink Hm Hnames.
  destruct (mkdir_parents_fuel_spec _ _ _ _ Hm) as (Hsub & Hdir & Hadd).
  assert (∀ n, n ∈ FS.children root m → n ∈ FS.children root (files w))
    as Hsame.
  { intros n [x Hx]%children_elem. apply children_elem.
    destruct (Hadd _ _ Hx) as [?|[_ Hpre]]; [by eexists|].
    apply prefix_length in Hpre. rewrite length_app in Hpre. cbn in Hpre. lia. }
  assert (m !! root = Some FS.Dir) as Hroot.
  { apply is_dir_not_link; [done|].
    unfold FS.is_link, FS.lstat in *.
    destruct (m !! root) as [n|] eqn:Hn; [|done].
    destruct (Hadd _ _ Hn) as [Hw|[-> _]]; [|done]. by rewrite Hw in Hlink. }
  destruct (next_open_subdir_above (FS.children root m)) as (sub & Hsubdir & Habove).
  { apply Forall_forall. intros n Hn.
    rewrite Forall_forall in Hnames. by apply Hnames, Hsame. }
  assert (m !! (root ++ [sub]) = None) as Hfree.
  { apply eq_None_not_Some. intros Hin%children_elem.
    exact (length_lex_lt_irrefl sub (Habove sub Hin)). }
  exists sub. split; [|split; [|split]].
  - unfold CMakeBuildStage._setup_remote_build_stage, CMakeBuildStage.alone.
    fold root. rewrite set_files_same, Hm. cbn [files set_files].
    unfold FS.iterdir. rewrite follow_dir by done.
    unfold FS.lstat. rewrite Hroot, Hsubdir.
    change CMakeBuildStage.max_attempts with (S 199).
    rewrite (mkdir_attempts_first _ _ _ _ _ (<[root ++ [sub] := FS.Dir]> m)).
    + by destruct w.
    + cbn [files set_files]. unfold FS.mkdir, FS.lstat.
      rewrite Hfree, parent_snoc. by rewrite is_dir_of_dir.
  - destruct (files w !! (root ++ [sub])) as [n|] eqn:Hn; [|done].
    eapply lookup_weaken in Hn; [|exact Hsub]. congruence.
  - done.
  - intros y Hy. apply Habove, children_elem.
    apply children_elem in Hy as [x Hx]. exists x.
    by eapply lookup_weaken.
Qed.

(** X9. Allocation of the external build directory by a process that is
    alone.  When the external root is not a symbolic link, it and its missing
    parents can be made, and no entry of it has the empty name,
    [_setup_remote_build_stage] returns normally: it calls [mkdir] once,
    on an entry of the root whose name comes after every existing entry, that
    did not exist before and is a directory afterwards; nothing that was
    there is changed or removed. *)
Theorem setup_remote_sequential (c : CMakeBuildStage.t) (w : World) (m : FS.fs) :
  FS.is_link (CMakeBuildStage._remote_root c) (files w) = false →
  FS.mkdir_parents (CMakeBuildStage._remote_root c) (files w) = Return m →
  Forall (λ n, n ≠ "") (FS.children (CMakeBuildStage._remote_root c) (files w)) →
  ∃ sub w',
    CMakeBuildStage._setup_remote_build_stage CMakeBuildStage.alone c w
    = (w', Return (CMakeBuildStage._remote_root c ++ [sub]))
    ∧ CMakeBuildStage.mkdir_tries (trace w')
      = CMakeBuildStage.mkdir_tries (trace w)
        ++ [CMakeBuildStage._remote_root c ++ [sub]]
    ∧ files w !! (CMakeBuildStage._remote_root c ++ [sub]) = None
    ∧ files w' !! (CMakeBuildStage._remote_root c ++ [sub]) = Some FS.Dir
    ∧ files w ⊆ files w'
    ∧ (∀ y, y ∈ FS.children (CMakeBuildStage._remote_root c) (files w) →
            AllocatorOrder.length_lex_lt y sub).
Proof.
  intros Hlink Hm Hnames.
  destruct (setup_remote_alone c w m Hlink Hm Hnames)
    as (sub & Heq & Hnew & Hfree & Habove).
  destruct (mkdir_parents_fuel_spec _ _ _ _ Hm) as (Hsub & _).
  eexists sub, _. split; [exact Heq|].
  cbn [trace files set_files emit]. rewrite mkdir_tries_app.
  split; [done|]. split; [done|]. split; [apply lookup_insert_eq|].
  split; [|done]. etrans; [exact Hsub|]. by apply insert_subseteq.
Qed.

Lemma setup_remote_sequential_witness :
  ∃ sub,
    (CMakeBuildStage._setup_remote_build_stage CMakeBuildStage.alone
       Scenario.cmake_pkg Scenario.world_ext).2
    = Return (CMakeBuildStage._remote_root Scenario.cmake_pkg ++ [sub])
    ∧ files Scenario.world_ext
        !! (CMakeBuildStage._remote_root Scenario.cmake_pkg ++ [sub]) = None.
Proof.
  destruct (setup_remote_sequential Scenario.cmake_pkg Scenario.world_ext
              (files Scenario.world_ext)) as (sub & w' & Heq & _ & Hnew & _).
  - reflexivity.
  - vm_compute. reflexivity.
  - vm_compute. repeat constructor; discriminate.
  - exists sub. rewrite Heq. split; [reflexivity|exact Hnew].
Defined.

(** ** Removal of the external build directory *)

Section Teardown.
Import CMakeBuildStage.

Lemma NoDup_omap_inj {A B} (f : A → option B) (l : list A) :
  NoDup l →
  (∀ x y z, x ∈ l → y ∈ l → f x = Some z → f y = Some z → x = y) →
  NoDup (omap f l).
Proof.
  induction 1 as [|x l Hx Hnd IH]; intros Hinj; cbn; [constructor|].
  assert (NoDup (omap f l)) as Hrest.
  { apply IH. intros a b z Ha Hb. apply Hinj; by right. }
  destruct (f x) as [z|] eqn:Hfx; [|done].
  constructor; [|done].
  rewrite list_elem_of_omap. intros (y & Hy & Hfy).
  assert (x = y) as <-; [|done].
  apply (Hinj x y z); [by left|by right|done..].
Qed.

Lemma children_NoDup (p : FS.path) (m : FS.fs) : NoDup (FS.children p m).
Proof.
  unfold FS.children. apply NoDup_omap_inj.
  - apply (NoDup_fst_map_to_list m).
  - intros x y z _ _ Hx Hy.
    assert (∀ k : FS.path,
      match reverse k with
      | n :: rp => if decide (reverse rp = p) then Some n else None
      | [] => None
      end = Some z → k = p ++ [z]) as Hkey.
    { intros k Hk. destruct (reverse k) as [|n rp] eqn:Hrev; [done|].
      destruct (decide (reverse rp = p)) as [<-|]; [|done].
      injection Hk as ->. apply (f_equal reverse) in Hrev.
      by rewrite reverse_involutive, reverse_cons in Hrev. }
    rewrite (Hkey x Hx), (Hkey y Hy). done.
Qed.

Lemma follow_weaken (fuel : nat) : ∀ (p r : FS.path) (m1 m2 : FS.fs),
  m1 ⊆ m2 → FS.follow fuel p m1 = Some r → FS.follow fuel p m2 = Some r.
Proof.
  induction fuel as [|k IH]; intros p r m1 m2 Hsub; cbn [FS.follow];
    unfold FS.lstat; destruct (m1 !! p) as [n|] eqn:Hp; try done;
    rewrite (lookup_weaken _ _ _ _ Hp Hsub); [done|].
  destruct n; try done. by apply IH.
Qed.

Lemma is_dir_weaken (p : FS.path) (m1 m2 : FS.fs) :
  m1 ⊆ m2 → FS.is_dir p m1 = true → FS.is_dir p m2 = true.
Proof.
  intros Hsub. unfold FS.is_dir.
  destruct (FS.follow FS.max_links p m1) as [r|] eqn:Hf; [|done].
  rewrite (follow_weaken _ _ _ _ _ Hsub Hf). unfold FS.lstat.
  destruct (m1 !! r) as [n|] eqn:Hr; [|done].
  by rewrite (lookup_weaken _ _ _ _ Hr Hsub).
Qed.

Lemma snoc_prefix_eq (p q : FS.path) (n n' : string) :
  p ++ [n] `prefix_of` q → p ++ [n'] `prefix_of` q → n = n'.
Proof.
  intros [k ->] [k' Heq]. rewrite <- !app_assoc in Heq.
  apply app_inv_head in Heq. by injection Heq.
Qed.

Lemma snoc_not_prefix (p : FS.path) (n : string) : ¬ p ++ [n] `prefix_of` p.
Proof.
  intros H%prefix_length. rewrite length_app in H. cbn in H. lia.
Qed.

(** In a tree, whatever has something below it is a directory. *)
Lemma tree_chain (pth : FS.path) (m : FS.fs) :
  (∀ (q : FS.path) (n : string),
     pth `prefix_of` q → is_Some (m !! (q ++ [n])) → m !! q = Some FS.Dir) →
  ∀ (l : list string) (sub : FS.path), pth `prefix_of` sub →
    l ≠ [] → is_Some (m !! (sub ++ l)) → m !! sub = Some FS.Dir.
Proof.
  intros Hclosed l. induction l as [|n0 l' IH] using rev_ind;
    intros sub Hpre Hne Hsome; [done|].
  rewrite app_assoc in Hsome.
  apply Hclosed in Hsome; [|by apply prefix_app_r].
  destruct (decide (l' = [])) as [->|Hne']; [by rewrite app_nil_r in Hsome|].
  apply IH; [done..|]. by rewrite Hsome.
Qed.

Lemma foldl_rmtree_subseteq (pth : FS.path) (l : list string) : ∀ m : FS.fs,
  foldl (λ a n, FS.rmtree (pth ++ [n]) a) m l ⊆ m.
Proof.
  induction l as [|n l IH]; intros m; cbn [foldl]; [done|].
  etrans; [apply IH|apply rmtree_subseteq].
Qed.

Lemma foldl_rmtree_inside (pth q : FS.path) (l : list string) : ∀ (m : FS.fs) n,
  n ∈ l → pth ++ [n] `prefix_of` q →
  foldl (λ a n, FS.rmtree (pth ++ [n]) a) m l !! q = None.
Proof.
  induction l as [|n0 l IH]; intros m n Hin Hpre; [by inversion Hin|].
  cbn [foldl]. apply elem_of_cons in Hin as [->|Hin]; [|by eapply IH].
  destruct (foldl _ _ l !! q) as [x|] eqn:Hx; [|done].
  eapply lookup_weaken in Hx; [|apply foldl_rmtree_subseteq].
  by rewrite rmtree_inside in Hx.
Qed.

Lemma foldl_rmtree_outside (pth q : FS.path) (l : list string) : ∀ m : FS.fs,
  (∀ n, n ∈ l → ¬ pth ++ [n] `prefix_of` q) →
  foldl (λ a n, FS.rmtree (pth ++ [n]) a) m l !! q = m !! q.
Proof.
  induction l as [|n0 l IH]; intros m Hout; [done|].
  cbn [foldl]. rewrite IH by (intros n Hn; apply Hout; by right).
  apply rmtree_outside, Hout. by left.
Qed.

End Teardown.

Section TeardownSpec.
Import CMakeBuildStage.

Lemma delete_leaf_rmtree (pth sub : FS.path) (m mc : FS.fs) :
  (∀ (q : FS.path) (n : string),
     pth `prefix_of` q → is_Some (m !! (q ++ [n])) → m !! q = Some FS.Dir) →
  pth `prefix_of` sub → mc ⊆ m → m !! sub ≠ Some FS.Dir →
  delete sub mc = FS.rmtree sub mc.
Proof.
  intros Hclosed Hpre Hsub Hleaf. apply map_eq. intros q.
  destruct (decide (sub `prefix_of` q)) as [Hq|Hq].
  - rewrite rmtree_inside by done.
    destruct (decide (sub = q)) as [<-|Hne]; [apply lookup_delete_eq|].
    rewrite lookup_delete_ne by done.
    destruct (mc !! q) as [y|] eqn:Hy; [|done].
    eapply lookup_weaken in Hy; [|exact Hsub].
    destruct Hq as [l ->]. destruct Hleaf.
    apply (tree_chain pth m Hclosed l); [done| |by rewrite Hy].
    intros ->. by rewrite app_nil_r in Hne.
  - rewrite rmtree_outside by done. apply lookup_delete_ne.
    intros <-. by apply Hq.
Qed.

(** [teardown] on a tree removes the tree, and the depth given by the
    number of entries is enough. *)
Lemma teardown_spec (depth : nat) : ∀ (pth : FS.path) (m : FS.fs),
  plain_tree pth m →
  size (filter (λ kv : FS.path * FS.node, pth `prefix_of` kv.1) m) ≤ depth →
  teardown depth pth m = (FS.rmtree pth m, Return tt).
Proof.
  induction depth as [|d IH]; intros pth m (Hdir & Hclosed & Hlinks) Hsize.
  { exfalso.
    assert (filter (λ kv : FS.path * FS.node, pth `prefix_of` kv.1) m !! pth
            = Some FS.Dir) as H by (by apply map_lookup_filter_Some).
    assert (size (filter (λ kv : FS.path * FS.node, pth `prefix_of` kv.1) m) = 0)
      as H0 by lia.
    apply map_size_empty_iff in H0. rewrite H0 in H. by rewrite lookup_empty in H. }
  cbn [teardown]. unfold FS.iterdir. rewrite follow_dir by done.
  unfold FS.lstat at 1. rewrite Hdir.
  match goal with |- context [for_each ?f _ _] => set (body := f) end.
  assert (∀ (l : list string) (mc : FS.fs), NoDup l →
    (∀ n, n ∈ l → is_Some (m !! (pth ++ [n]))) → mc ⊆ m →
    (∀ n q, n ∈ l → pth ++ [n] `prefix_of` q → mc !! q = m !! q) →
    for_each body l mc
    = (foldl (λ a n, FS.rmtree (pth ++ [n]) a) mc l, Return tt)) as Hloop.
  { induction l as [|n l IHl]; intros mc Hnd Hin Hsub Hagree; [done|].
    cbn [for_each foldl]. apply NoDup_cons in Hnd as [Hnl Hnd].
    assert (body n mc = (FS.rmtree (pth ++ [n]) mc, Return tt)) as ->.
    { subst body. cbn beta zeta. set (sub := pth ++ [n]).
      assert (pth `prefix_of` sub) as Hps by (by apply prefix_app_r).
      assert (∀ q, sub `prefix_of` q → mc !! q = m !! q) as Hbelow.
      { intros q Hq. apply (Hagree n); [by left|done]. }
      assert (mc !! sub = m !! sub) as Hs by (by apply Hbelow).
      destruct (Hin n) as [x Hx]; [by left|]. fold sub in Hx.
      destruct (FS.is_dir sub mc) eqn:Hd.
      - pose proof (is_dir_weaken _ _ _ Hsub Hd) as Hdm.
        assert (m !! sub = Some FS.Dir) as Hsd.
        { apply is_dir_not_link; [done|]. unfold FS.is_link, FS.lstat.
          rewrite Hx. destruct x as [| |t]; try done.
          by rewrite (Hlinks sub t) in Hdm. }
        apply IH.
        + split; [by rewrite Hs|]. split.
          * intros q n0 Hpre Hsome. rewrite Hbelow by done.
            apply (Hclosed q n0); [by etrans|].
            rewrite <- Hbelow; [done|by apply prefix_app_r].
          * intros q t Hpre Hq. rewrite Hbelow in Hq by done.
            destruct (FS.is_dir q mc) eqn:E; [|done].
            apply (is_dir_weaken _ _ _ Hsub) in E.
            rewrite (Hlinks q t) in E; [done|by etrans|done].
        + assert (filter (λ kv : FS.path * FS.node, sub `prefix_of` kv.1) mc
                  ⊆ delete pth
                      (filter (λ kv : FS.path * FS.node, pth `prefix_of` kv.1) m))
            as Hless.
          { apply map_subseteq_spec.
            intros q y [Hq Hp]%map_lookup_filter_Some. cbn in Hp.
            rewrite lookup_delete_ne.
            2:{ intros <-. by apply snoc_not_prefix in Hp. }
            apply map_lookup_filter_Some. split; [by eapply lookup_weaken|].
            cbn. by etrans. }
          apply map_subseteq_size in Hless.
          rewrite map_size_delete_Some in Hless; [lia|].
          exists FS.Dir. by apply map_lookup_filter_Some.
      - unfold attempt, FS.unlink, FS.lstat. rewrite Hs, Hx.
        assert (m !! sub ≠ Some FS.Dir) as Hleaf.
        { intros Hsd. rewrite <- Hs in Hsd.
          apply is_dir_of_dir in Hsd. congruence. }
        rewrite <- (delete_leaf_rmtree pth sub m mc) by done.
        destruct x; done. }
    apply IHl; [done| | |].
    - intros n' Hn'. apply Hin. by right.
    - etrans; [apply rmtree_subseteq|done].
    - intros n' q Hn' Hq. rewrite rmtree_outside.
      + apply (Hagree n'); [by right|done].
      + intros Hq'. assert (n = n') as -> by (by eapply snoc_prefix_eq). done. }
  rewrite Hloop; [|apply children_NoDup| |done|done].
  2:{ intros n Hn. by apply children_elem. }
  set (mf := foldl (λ a n, FS.rmtree (pth ++ [n]) a) m (FS.children pth m)).
  assert (mf ⊆ m) as Hmf by apply foldl_rmtree_subseteq.
  assert (∀ q n, pth ++ [n] `prefix_of` q → mf !! q = None) as Hgone.
  { intros q n Hq. destruct (mf !! q) as [y|] eqn:Hy; [|done].
    rewrite <- Hy. apply (foldl_rmtree_inside pth q _ m n); [|done].
    apply children_elem. eapply lookup_weaken in Hy; [|exact Hmf].
    destruct Hq as [l ->]. rewrite <- app_assoc in Hy.
    destruct (decide (l = [])) as [->|Hl]; [by eexists|].
    exists FS.Dir. rewrite app_assoc in Hy.
    apply (tree_chain pth m Hclosed l); [by apply prefix_app_r|done|by eexists]. }
  assert (mf !! pth = Some FS.Dir) as Hpth.
  { unfold mf. rewrite foldl_rmtree_outside; [done|].
    intros n _. apply snoc_not_prefix. }
  unfold FS.rmdir, FS.lstat. rewrite Hpth.
  destruct (FS.children pth mf) as [|n ns] eqn:Hch.
  2:{ assert (n ∈ FS.children pth mf) as Hn by (rewrite Hch; by left).
      apply children_elem in Hn as [y Hy].
      by rewrite (Hgone (pth ++ [n]) n) in Hy. }
  f_equal. apply map_eq. intros q.
  destruct (decide (pth `prefix_of` q)) as [Hq|Hq].
  - rewrite rmtree_inside by done.
    destruct (decide (pth = q)) as [<-|Hne]; [apply lookup_delete_eq|].
    rewrite lookup_delete_ne by done.
    destruct Hq as [l ->]. destruct l as [|n l]; [by rewrite app_nil_r in Hne|].
    apply (Hgone _ n). exists l. by rewrite <- app_assoc.
  - rewrite rmtree_outside by done.
    rewrite lookup_delete_ne by (intros <-; by apply Hq).
    unfold mf. apply foldl_rmtree_outside.
    intros n _ Hn. apply Hq. etrans; [|exact Hn]. by apply prefix_app_r.
Qed.

End TeardownSpec.

Section PlainTrees.
Import CMakeBuildStage.

Lemma plain_treeb_sound (pth : FS.path) (m : FS.fs) :
  plain_treeb pth m = true → plain_tree pth m.
Proof.
  unfold plain_treeb. intros [Hd Hall]%andb_true_iff.
  apply bool_decide_eq_true in Hd. rewrite forallb_forall in Hall.
  split; [done|]. split.
  - intros q n Hpre [x Hx]. apply elem_of_map_to_list, list_elem_of_In in Hx.
    apply Hall in Hx. apply andb_true_iff in Hx as [Hx _]. cbn [fst] in Hx.
    rewrite reverse_app in Hx.
    change (reverse [n] ++ reverse q) with (n :: reverse q) in Hx.
    cbn beta iota in Hx. rewrite reverse_involutive in Hx.
    rewrite decide_True in Hx by done. by apply bool_decide_eq_true in Hx.
  - intros q t Hpre Hq. apply elem_of_map_to_list, list_elem_of_In in Hq.
    apply Hall in Hq. apply andb_true_iff in Hq as [_ Hq]. cbn [fst snd] in Hq.
    rewrite decide_True in Hq by done. by apply negb_true_iff in Hq.
Qed.

(** Removing something that is not a directory leaves a tree a tree. *)
Lemma plain_tree_delete (pth x : FS.path) (m : FS.fs) :
  plain_tree pth m → m !! x ≠ Some FS.Dir → plain_tree pth (delete x m).
Proof.
  intros (Hdir & Hclosed & Hlinks) Hx.
  assert (∀ q, m !! q = Some FS.Dir → delete x m !! q = Some FS.Dir) as Hkeep.
  { intros q Hq. rewrite lookup_delete_ne; [done|]. by intros ->. }
  split; [by apply Hkeep|]. split.
  - intros q n Hpre [y Hy]. apply Hkeep, (Hclosed q n); [done|].
    exists y. eapply lookup_weaken; [exact Hy|apply delete_subseteq].
  - intros q t Hpre Hq.
    destruct (FS.is_dir q (delete x m)) eqn:E; [|done].
    apply (is_dir_weaken _ _ m) in E; [|apply delete_subseteq].
    rewrite (Hlinks q t) in E; [done..|].
    eapply lookup_weaken; [exact Hq|apply delete_subseteq].
Qed.

Lemma teardown_remote_plain (c : t) (w : World) (remote : FS.path) :
  _remote_stage c = Some remote → plain_tree remote (files w) →
  _teardown_remote_stage c w
  = (set_files (FS.rmtree remote (files w)) w, set_remote_stage None c,
     Return tt).
Proof.
  intros Hr Hplain. unfold _teardown_remote_stage. rewrite Hr.
  rewrite exists_dir by apply Hplain.
  rewrite teardown_spec; [done..|].
  etrans; [apply map_subseteq_size, map_filter_subseteq|lia].
Qed.

End PlainTrees.

(** X10. [_teardown_remote_stage] on an external build directory that is a
    directory tree (every entry in a directory, no link to a directory)
    returns normally, whatever the size and depth of the tree; afterwards
    nothing at or below the directory is left, every other entry is
    untouched, and [_remote_stage] is [None]. *)
Theorem teardown_remote_removes_tree (c : CMakeBuildStage.t) (w : World)
    (remote : FS.path) :
  CMakeBuildStage._remote_stage c = Some remote →
  plain_tree remote (files w) →
  ∃ w' c',
    CMakeBuildStage._teardown_remote_stage c w = (w', c', Return tt)
    ∧ CMakeBuildStage._remote_stage c' = None
    ∧ CMakeBuildStage.base c' = CMakeBuildStage.base c
    ∧ trace w' = trace w
    ∧ ∀ q, files w' !! q
           = if decide (remote `prefix_of` q) then None else files w !! q.
Proof.
  intros Hr Hplain. eexists _, _.
  split; [by apply teardown_remote_plain|].
  split; [done|]. split; [done|]. split; [done|].
  intros q. cbn [files set_files].
  destruct (decide (remote `prefix_of` q)).
  - by apply rmtree_inside.
  - by apply rmtree_outside.
Qed.

Lemma teardown_remote_removes_tree_witness :
  ∃ w' c',
    CMakeBuildStage._teardown_remote_stage BuildTree.cmake_built
      BuildTree.world_built = (w', c', Return tt)
    ∧ files w' !! ["b"; "b"; "CMakeFiles"; "main.obj"] = None
    ∧ files w' !! ["b"; "a"] = Some FS.Dir.
Proof.
  destruct (teardown_remote_removes_tree BuildTree.cmake_built
              BuildTree.world_built BuildTree.remote)
    as (w' & c' & Heq & _ & _ & _ & Hfiles).
  - reflexivity.
  - apply plain_treeb_sound. vm_compute. reflexivity.
  - exists w', c'. split; [exact Heq|]. rewrite !Hfiles. split; reflexivity.
Defined.

(** X11. [CMakeBuildStage.destroy] of a stage whose link is in place and
    whose external build directory is a directory tree removes both, whether
    it returns or raises: nothing at or below the external directory is left,
    the link is gone, the stage path no longer exists, nothing has been
    added, and the object has no external directory.  It returns, with the
    stage marked not created, exactly when the working directory still exists
    afterwards or the parent of the stage path is a directory; otherwise it
    raises the error of [os.chdir] and [created] is as it was. *)
Theorem cmake_destroy_removes_both (c : CMakeBuildStage.t) (w : World)
    (remote : FS.path) (n : FS.node) :
  CMakeBuildStage._remote_stage c = Some remote →
  files w !! CMakeBuildStage.root_stage_context c = Some n →
  n ≠ FS.Dir →
  plain_tree remote (files w) →
  let r := CMakeBuildStage.destroy c w in
  CMakeBuildStage._remote_stage r.1.2 = None
  ∧ files r.1.1 ⊆ files w
  ∧ (∀ q, remote `prefix_of` q → files r.1.1 !! q = None)
  ∧ files r.1.1 !! CMakeBuildStage.root_stage_context c = None
  ∧ FS.exists_ (Stage.path (CMakeBuildStage.base c)) (files r.1.1) = false
  ∧ trace r.1.1 = trace w
  ∧ (r.2 = Return tt
     ↔ FS.exists_ (cwd w) (files r.1.1) = true
       ∨ FS.is_dir (FS.parent (Stage._path (CMakeBuildStage.base c)))
           (files r.1.1) = true)
  ∧ (r.2 = Return tt → Stage.created (CMakeBuildStage.base r.1.2) = false)
  ∧ (∀ e, r.2 = Raise e →
       (e = FileNotFoundError ∨ e = NotADirectoryError)
       ∧ Stage.created (CMakeBuildStage.base r.1.2)
         = Stage.created (CMakeBuildStage.base c)).
Proof.
  intros Hr Hctx Hn Hplain. cbn zeta.
  set (ctx := CMakeBuildStage.root_stage_context c) in *.
  set (w1 := set_files (delete ctx (files w)) w).
  assert (CMakeBuildStage._remove_context_link c w = (w1, Return tt)) as Hun.
  { unfold CMakeBuildStage._remove_context_link, on_files, FS.unlink, FS.lstat.
    fold ctx. rewrite Hctx. by destruct n. }
  assert (plain_tree remote (files w1)) as Hplain1.
  { apply plain_tree_delete; [done|]. rewrite Hctx. congruence. }
  pose proof (teardown_remote_plain c w1 remote Hr Hplain1) as Htd.
  set (w2 := set_files (FS.rmtree remote (files w1)) w1) in *.
  set (c2 := CMakeBuildStage.set_remote_stage None c) in *.
  assert (files w2 ⊆ files w) as Hsub2.
  { etrans; [apply rmtree_subseteq|apply delete_subseteq]. }
  assert (CMakeBuildStage.destroy c w
          = ((Stage.destroy (CMakeBuildStage.base c) w2).1.1,
             CMakeBuildStage.set_base
               (Stage.destroy (CMakeBuildStage.base c) w2).1.2 c2,
             (Stage.destroy (CMakeBuildStage.base c) w2).2)) as ->.
  { unfold CMakeBuildStage.destroy, CMakeBuildStage._return_destroy_remote.
    rewrite Hr, Hun, Htd.
    change (CMakeBuildStage.base c2) with (CMakeBuildStage.base c).
    by destruct (Stage.destroy (CMakeBuildStage.base c) w2) as [[w3 b3] r3]. }
  destruct (destroy_spec (CMakeBuildStage.base c) w2)
    as (Hfiles & Hgone & Htr & _ & _ & _ & _ & Hiff & Hcr & Hraise).
  assert (files (Stage.destroy (CMakeBuildStage.base c) w2).1.1 ⊆ files w2)
    as Hsub3 by (rewrite Hfiles; apply remove_linked_tree_subseteq).
  destruct (Stage.destroy (CMakeBuildStage.base c) w2) as [[w3 b3] r3].
  cbn [fst snd CMakeBuildStage._remote_stage CMakeBuildStage.set_base
       CMakeBuildStage.base c2 CMakeBuildStage.set_remote_stage] in *.
  split; [done|]. split; [by etrans|]. split; [|split; [|split; [done|]]].
  - intros q Hq. destruct (files w3 !! q) as [y|] eqn:Hy; [|done].
    eapply lookup_weaken in Hy; [|exact Hsub3].
    cbn [w2 files set_files] in Hy. by rewrite rmtree_inside in Hy.
  - destruct (files w3 !! ctx) as [y|] eqn:Hy; [|done].
    eapply lookup_weaken in Hy; [|exact Hsub3].
    eapply lookup_weaken in Hy; [|apply rmtree_subseteq].
    cbn [w1 files set_files] in Hy. by rewrite lookup_delete_eq in Hy.
  - split; [done|]. split; [exact Hiff|]. split; [exact Hcr|].
    intros e He. destruct (Hraise e He) as (-> & _ & ?). done.
Qed.

Lemma cmake_destroy_removes_both_witness :
  files (CMakeBuildStage.destroy BuildTree.cmake_built BuildTree.world_built).1.1
    !! ["b"; "b"] = None
  ∧ (CMakeBuildStage.destroy BuildTree.cmake_built BuildTree.world_built).2
    = Return tt.
Proof.
  destruct (cmake_destroy_removes_both BuildTree.cmake_built
              BuildTree.world_built BuildTree.remote (FS.Link BuildTree.remote))
    as (_ & _ & Hgone & _ & _ & _ & Hiff & _).
  - reflexivity.
  - vm_compute. reflexivity.
  - discriminate.
  - apply plain_treeb_sound. vm_compute. reflexivity.
  - split; [apply Hgone; reflexivity|].
    apply Hiff. left. vm_compute. reflexivity.
Defined.



(** ** [CMakeBuildStage.create] *)

(** X13. [CMakeBuildStage.create] by a process that is alone.  When the
    stage directory can be created, no link is in it yet, the external root
    lies outside the stage directory, is not a symbolic link, can be made,
    and has no entry with the empty name, [create] returns normally: the
    stage is created, a directory that did not exist has been made in the
    external root, [_remote_stage] is that directory, and the link in the
    stage directory points to it and resolves to it.  Nothing that was there
    is changed or removed. *)
Theorem cmake_create_alone (env : Env) (c : CMakeBuildStage.t)
    (w w1 : World) (b1 : Stage.t) (m : FS.fs) :
  Stage.created (CMakeBuildStage.base c) = false →
  Stage.create env (CMakeBuildStage.base c) w = (w1, b1, Return tt) →
  files w1 !! CMakeBuildStage.root_stage_context c = None →
  ¬ Stage.path (CMakeBuildStage.base c) `prefix_of` CMakeBuildStage._remote_root c →
  FS.is_link (CMakeBuildStage._remote_root c) (files w1) = false →
  FS.mkdir_parents (CMakeBuildStage._remote_root c) (files w1) = Return m →
  Forall (λ n, n ≠ "") (FS.children (CMakeBuildStage._remote_root c) (files w1)) →
  ∃ sub w' c',
    CMakeBuildStage.create env CMakeBuildStage.alone c w = (w', c', Return tt)
    ∧ CMakeBuildStage._remote_stage c'
      = Some (CMakeBuildStage._remote_root c ++ [sub])
    ∧ Stage.created (CMakeBuildStage.base c') = true
    ∧ files w1 !! (CMakeBuildStage._remote_root c ++ [sub]) = None
    ∧ files w' !! (CMakeBuildStage._remote_root c ++ [sub]) = Some FS.Dir
    ∧ files w' !! CMakeBuildStage.root_stage_context c
      = Some (FS.Link (CMakeBuildStage._remote_root c ++ [sub]))
    ∧ FS.realpath (CMakeBuildStage.root_stage_context c) (files w')
      = CMakeBuildStage._remote_root c ++ [sub]
    ∧ files w1 ⊆ files w'.
Proof.
  intros Hnot Hcreate Hctx Hout Hlink Hm Hnames.
  destruct (create_is_dir _ _ _ _ _ Hcreate) as (Hdir & _ & ->).
  set (c1 := CMakeBuildStage.set_base
               (Stage.set_created true (CMakeBuildStage.base c)) c).
  set (root := CMakeBuildStage._remote_root c) in *.
  set (ctx := CMakeBuildStage.root_stage_context c) in *.
  destruct (setup_remote_alone c1 w1 m Hlink Hm Hnames)
    as (sub & Heq & Hnew & Hfree & _).
  change (CMakeBuildStage._remote_root c1) with root in *.
  set (remote := root ++ [sub]) in *.
  destruct (mkdir_parents_fuel_spec _ _ _ _ Hm) as (Hsub & _ & Hadd).
  assert (ctx ≠ remote) as Hne.
  { unfold ctx, remote, CMakeBuildStage.root_stage_context.
    intros [Hp _]%app_inj_tail. apply Hout. unfold Stage.path. by rewrite Hp. }
  assert (m !! ctx = None) as Hctxm.
  { destruct (m !! ctx) as [n|] eqn:Hn; [|done].
    destruct (Hadd _ _ Hn) as [?|[_ Hpre]]; [congruence|].
    destruct Hout. etrans; [|exact Hpre].
    unfold ctx, CMakeBuildStage.root_stage_context, Stage.path.
    by apply prefix_app_r. }
  set (m1 := <[remote := FS.Dir]> m).
  assert (m ⊆ m1) as Hsub1 by (by apply insert_subseteq).
  assert (FS.symlink remote ctx m1 = Return (<[ctx := FS.Link remote]> m1))
    as Hsym.
  { unfold FS.symlink, FS.lstat. unfold m1 at 1.
    rewrite lookup_insert_ne by done. rewrite Hctxm.
    unfold ctx, CMakeBuildStage.root_stage_context. rewrite parent_snoc.
    rewrite (is_dir_weaken _ (files w1)); [done| |done]. by etrans. }
  eexists sub, _, _. split.
  { unfold CMakeBuildStage.create. rewrite Hnot, Hcreate. fold c1.
    change (CMakeBuildStage.root_stage_context c1) with ctx.
    rewrite (exists_missing _ _ Hctx). cbn [negb]. rewrite Heq.
    unfold CMakeBuildStage._establish_context_link, on_files, symlink.
    change (CMakeBuildStage.root_stage_context _) with ctx.
    cbn [files set_files emit]. fold remote m1. rewrite Hsym. reflexivity. }
  cbn [files set_files emit CMakeBuildStage._remote_stage
       CMakeBuildStage.set_remote_stage CMakeBuildStage.base
       CMakeBuildStage.set_base Stage.created Stage.set_created].
  assert ((<[ctx := FS.Link remote]> m1) !! remote = Some FS.Dir) as Hr.
  { rewrite lookup_insert_ne by done. apply lookup_insert_eq. }
  split; [done|]. split; [done|]. split; [done|]. split; [done|].
  split; [apply lookup_insert_eq|]. split.
  - unfold FS.realpath, FS.max_links. cbn [FS.follow]. unfold FS.lstat.
    rewrite lookup_insert_eq, Hr. done.
  - etrans; [exact Hsub|]. etrans; [exact Hsub1|].
    apply insert_subseteq. unfold m1. by rewrite lookup_insert_ne.
Qed.

Lemma cmake_create_alone_witness :
  ∃ sub w' c',
    CMakeBuildStage.create Scenario.env_ok CMakeBuildStage.alone
      Scenario.cmake_pkg Scenario.world_ext = (w', c', Return tt)
    ∧ FS.realpath (CMakeBuildStage.root_stage_context Scenario.cmake_pkg)
        (files w')
      = CMakeBuildStage._remote_root Scenario.cmake_pkg ++ [sub].
Proof.
  pose (r := Stage.create Scenario.env_ok
               (CMakeBuildStage.base Scenario.cmake_pkg) Scenario.world_ext).
  assert (r.2 = Return tt) as H2 by (vm_compute; reflexivity).
  assert (r = (r.1.1, r.1.2, Return tt)) as Hr.
  { rewrite <- H2. rewrite <- !surjective_pairing. reflexivity. }
  destruct (cmake_create_alone Scenario.env_ok Scenario.cmake_pkg
              Scenario.world_ext r.1.1 r.1.2 (files r.1.1))
    as (sub & w' & c' & Heq & _ & _ & _ & _ & _ & Hreal & _).
  - reflexivity.
  - exact Hr.
  - vm_compute. reflexivity.
  - vm_compute. intros [k Hk]. discriminate Hk.
  - vm_compute. reflexivity.
  - vm_compute. reflexivity.
  - vm_compute. repeat constructor; discriminate.
  - exists sub, w', c'. split; [exact Heq|exact Hreal].
Defined.

(** X14. [CMakeBuildStage.create] by a process that is alone picks up an
    external build directory that is already linked: when the stage directory
    is there and the link in it points to a directory, [create] changes
    nothing in the file system, makes no attempt to allocate, and sets
    [_remote_stage] to the directory the link points to. *)
Theorem cmake_create_adopts (env : Env) (c : CMakeBuildStage.t) (w : World)
    (remote : FS.path) :
  Stage.created (CMakeBuildStage.base c) = false →
  FS.is_dir (Stage.path (CMakeBuildStage.base c)) (files w) = true →
  Stage.ensure_access env (Stage.path (CMakeBuildStage.base c)) = Return tt →
  files w !! CMakeBuildStage.root_stage_context c = Some (FS.Link remote) →
  files w !! remote = Some FS.Dir →
  ∃ c',
    CMakeBuildStage.create env CMakeBuildStage.alone c w = (w, c', Return tt)
    ∧ CMakeBuildStage._remote_stage c' = Some remote
    ∧ Stage.created (CMakeBuildStage.base c') = true
    ∧ FS.realpath (CMakeBuildStage.root_stage_context c') (files w) = remote.
Proof.
  intros Hnot Hdir Hacc Hctx Hremote.
  assert (Stage.create env (CMakeBuildStage.base c) w
          = (w, Stage.set_created true (CMakeBuildStage.base c), Return tt))
    as Hcreate.
  { unfold Stage.create. unfold Stage.path in Hdir, Hacc.
    rewrite (is_dir_exists _ _ Hdir), Hdir. cbn [negb]. by rewrite Hacc. }
  assert (FS.follow FS.max_links (CMakeBuildStage.root_stage_context c) (files w)
          = Some remote) as Hfollow.
  { unfold FS.max_links. cbn [FS.follow]. unfold FS.lstat.
    by rewrite Hctx, Hremote. }
  eexists. split.
  - unfold CMakeBuildStage.create. rewrite Hnot, Hcreate.
    change (CMakeBuildStage.root_stage_context (CMakeBuildStage.set_base _ c))
      with (CMakeBuildStage.root_stage_context c).
    unfold FS.exists_, FS.realpath. rewrite Hfollow. cbn [negb]. reflexivity.
  - split; [done|]. split; [done|].
    change (CMakeBuildStage.root_stage_context
              (CMakeBuildStage.set_remote_stage _ (CMakeBuildStage.set_base _ c)))
      with (CMakeBuildStage.root_stage_context c).
    unfold FS.realpath. by rewrite Hfollow.
Qed.

Lemma cmake_create_adopts_witness :
  ∃ c',
    CMakeBuildStage.create Scenario.env_ok CMakeBuildStage.alone
      Scenario.cmake_pkg BuildTree.world_built
    = (BuildTree.world_built, c', Return tt)
    ∧ CMakeBuildStage._remote_stage c' = Some BuildTree.remote.
Proof.
  destruct (cmake_create_adopts Scenario.env_ok
              Scenario.cmake_pkg BuildTree.world_built BuildTree.remote)
    as (c' & Heq & Hr & _).
  - reflexivity.
  - vm_compute. reflexivity.
  - reflexivity.
  - vm_compute. reflexivity.
  - vm_compute. reflexivity.
  - exists c'. split; [exact Heq|exact Hr].
Defined.

(** ** Composite stages *)

Section FileFacts.

Lemma exists_weaken (p : FS.path) (m1 m2 : FS.fs) :
  m1 ⊆ m2 → FS.exists_ p m2 = false → FS.exists_ p m1 = false.
Proof.
  intros Hsub. unfold FS.exists_.
  destruct (FS.follow FS.max_links p m1) as [r|] eqn:Hf; [|done].
  by rewrite (follow_weaken _ _ _ _ _ Hsub Hf).
Qed.

Lemma Forall2_rev_rev {A B} (P : A → B → Prop) (l : list A) (k : list B) :
  Forall2 P l k → Forall2 P (rev l) (rev k).
Proof.
  induction 1 as [|x y l k Hxy Hlk IH]; cbn [rev]; [constructor|].
  apply Forall2_app; [done|]. by repeat constructor.
Qed.

End FileFacts.

(** [Stage.destroy] meets the contract. *)
Lemma stage_lawful : StageComposite.lawful Stage.t.
Proof.
  split; [done|]. intros x w. cbn zeta.
  change (Stage.destroy_method x w) with (Stage.destroy x w).
  destruct (destroy_spec x w) as (Hfiles & Hgone & Htr & Hl & Hp & Hn & _).
  split; [done|]. split; [done|]. split; [|done].
  rewrite Hfiles. apply remove_linked_tree_subseteq.
Qed.

Section Composite.
Context {T : Type} `{Stage.StageLike T}.
Import StageComposite.

Lemma releases_app (a b : list T) : releases (a ++ b) = releases a ++ releases b.
Proof. unfold releases. apply flat_map_app. Qed.


Lemma same_member_refl (l : list T) : Forall2 same_member l l.
Proof. induction l; constructor; done. Qed.

Hypothesis Hlaw : lawful T.

Lemma set_member_keep_stage (k : bool) (s : T) :
  Stage.stage_of (set_member_keep k s) = Stage.set_keep k (Stage.stage_of s).
Proof. unfold set_member_keep. apply Hlaw. Qed.

(** One member leaving, with the flag the composite gave it. *)
Lemma exit_member (k : bool) (exc_type : option exn) (s : T) (w : World) :
  let r := Stage.__exit__ (set_member_keep k s) exc_type w in
  same_member r.1.2 s
  ∧ files r.1.1 ⊆ files w
  ∧ (is_Some exc_type ∨ k = true →
     r.2 = Return tt ∧ files r.1.1 = files w ∧ r.1.2 = set_member_keep k s)
  ∧ (r.2 = Return tt → trace r.1.1 = trace w ++ releases [s])
  ∧ (∀ e, r.2 = Raise e → trace r.1.1 = trace w)
  ∧ (exc_type = None → k = false → r.2 = Return tt →
     FS.exists_ (Stage.path (Stage.stage_of s)) (files r.1.1) = false).
Proof.
  cbn zeta. destruct Hlaw as [Hlens Hdestroy].
  pose proof (set_member_keep_stage k s) as Hst.
  assert (releases [s]
          = match Stage._lock (Stage.stage_of s) with
            | Some lk => [ReleaseWrite lk]
            | None => []
            end) as Hrel by (unfold releases; cbn; apply app_nil_r).
  destruct (decide (is_Some exc_type ∨ k = true)) as [Hk|Hk].
  - rewrite exit_keeps.
    2:{ destruct Hk as [?|Hk']; [by left|right]. by rewrite Hst, Hk'. }
    rewrite Hst. cbn [Stage._lock Stage.set_keep fst snd].
    unfold same_member. rewrite ?Hst, Hrel.
    cbn [Stage._lock Stage._path Stage.name Stage.set_keep Stage.path].
    destruct (Stage._lock (Stage.stage_of s)); cbn [fst snd files trace
      release_write emit]; rewrite ?app_nil_r;
      repeat split; try done; intros He Hk'.
    all: destruct Hk as [[? Hx]|Hx]; congruence.
  - assert (exc_type = None ∧ k = false) as [-> ->].
    { destruct exc_type; [destruct Hk; left; by eexists|].
      destruct k; [destruct Hk; by right|done]. }
    rewrite exit_destroys by (by rewrite Hst).
    destruct (Hdestroy (set_member_keep false s) w)
      as ((Hl & Hp & Hn) & Htr & Hsub & Hgone).
    rewrite Hst in Hl, Hp, Hn, Hgone.
    cbn [Stage._lock Stage._path Stage.name Stage.set_keep Stage.path]
      in Hl, Hp, Hn, Hgone.
    destruct (Stage.destroy_method (set_member_keep false s) w)
      as [[wd sd] [[]|e]]; cbn [fst snd] in *.
    + unfold same_member. rewrite Hl, Hrel.
      destruct (Stage._lock (Stage.stage_of s)); cbn [fst snd files trace
        release_write emit]; rewrite ?app_nil_r, ?Htr;
        repeat split; try done; try (by intros [[? [=]]|[=]]); auto.
    + unfold same_member.
      repeat split; try done; try (by intros [[? [=]]|[=]]).
Qed.

(** The loop of [__exit__] over any sequence of members. *)
Lemma exit_items_spec (k : bool) (exc_type : option exn) (l : list T) :
  ∀ w : World,
  let r := exit_items k exc_type l w in
  ∃ n, n ≤ length l
    ∧ trace r.1.1 = trace w ++ releases (take n l)
    ∧ files r.1.1 ⊆ files w
    ∧ Forall2 same_member r.1.2 l
    ∧ (r.2 = Return tt → n = length l)
    ∧ (∀ e, r.2 = Raise e → n < length l)
    ∧ (is_Some exc_type ∨ k = true →
       r.2 = Return tt ∧ files r.1.1 = files w
       ∧ r.1.2 = map (set_member_keep k) l)
    ∧ (exc_type = None → k = false →
       ∀ s, s ∈ take n l →
         FS.exists_ (Stage.path (Stage.stage_of s)) (files r.1.1) = false).
Proof.
  induction l as [|s l IH]; intros w; cbn zeta.
  { exists 0. cbn. rewrite app_nil_r. repeat split; try done;
      try constructor.
    all: intros; match goal with Hs : _ ∈ [] |- _ => by inversion Hs end. }
  cbn [exit_items].
  pose proof (exit_member k exc_type s w)
    as (Hsame & Hsub & Hkeep & Hret & Hraise & Hgone).
  destruct (Stage.__exit__ (set_member_keep k s) exc_type w)
    as [[w1 s1] [[]|e]]; cbn [fst snd] in *.
  - destruct (IH w1)
      as (n & Hn & Htr' & Hsub' & Hall & Hret' & Hraise' & Hkeep' & Hgone').
    destruct (exit_items k exc_type l w1) as [[w2 l'] r]. cbn [fst snd] in *.
    exists (S n). cbn [length take].
    split; [lia|]. split.
    { rewrite Htr', Hret by done. rewrite <- app_assoc.
      by rewrite <- releases_app. }
    split; [by etrans|]. split; [by constructor|].
    split; [intros Hr; f_equal; by apply Hret'|].
    split; [intros e Hr; apply Hraise' in Hr; lia|]. split.
    + intros Hk. destruct (Hkeep Hk) as (_ & Hf & ->).
      destruct (Hkeep' Hk) as (-> & Hf' & ->).
      split; [done|]. split; [congruence|done].
    + intros He Hk s0 [->|Hs0]%elem_of_cons; [|by apply Hgone'].
      eapply exists_weaken; [exact Hsub'|by apply Hgone].
  - exists 0. cbn [take length]. unfold releases at 1. cbn [flat_map].
    rewrite app_nil_r. split; [lia|]. split; [by eapply Hraise|].
    split; [done|]. split; [constructor; [done|apply same_member_refl]|].
    split; [done|]. split; [intros; lia|]. split.
    + intros Hk. by destruct (Hkeep Hk).
    + intros _ _ s0 Hs0. by inversion Hs0.
Qed.

End Composite.

Section CompositeEnter.
Import StageComposite.



End CompositeEnter.





(** ** The classes of stage.py meet the contract of [destroy] *)

Section Contract.

Lemma for_each_subseteq {X : Type} (f : X → FS.fs → FS.fs * result unit)
    (l : list X) :
  (∀ x m, x ∈ l → (f x m).1 ⊆ m) → ∀ m, (for_each f l m).1 ⊆ m.
Proof.
  induction l as [|x l IH]; intros Hf m; cbn [for_each]; [done|].
  pose proof (Hf x m ltac:(by left)) as Hx.
  destruct (f x m) as [m1 [[]|e]]; cbn [fst] in *; [|done].
  etrans; [apply IH|done]. intros y m' Hy. apply Hf. by right.
Qed.

Lemma teardown_subseteq (depth : nat) : ∀ (pth : FS.path) (m : FS.fs),
  (CMakeBuildStage.teardown depth pth m).1 ⊆ m.
Proof.
  induction depth as [|d IH]; intros pth m; cbn [CMakeBuildStage.teardown];
    [done|].
  destruct (FS.iterdir pth m) as [names|e]; [|done].
  match goal with |- context [for_each ?f _ _] => set (body := f) end.
  pose proof (for_each_subseteq body names) as Hloop.
  assert (∀ x m0, x ∈ names → (body x m0).1 ⊆ m0) as Hbody.
  { intros x m0 _. subst body. cbn beta zeta.
    destruct (FS.is_dir (pth ++ [x]) m0); [apply IH|].
    unfold attempt, FS.unlink. destruct (FS.lstat (pth ++ [x]) m0) as [[| |]|];
      cbn [fst]; try done; apply delete_subseteq. }
  specialize (Hloop Hbody m).
  destruct (for_each body names m) as [m1 [[]|e]]; cbn [fst] in *; [|done].
  unfold FS.rmdir. destruct (FS.lstat pth m1) as [[| |]|]; cbn [fst]; try done.
  destruct (FS.children pth m1); cbn [fst]; [|done].
  etrans; [apply delete_subseteq|done].
Qed.

Lemma return_destroy_remote_facts (c : CMakeBuildStage.t) (w : World) :
  let r := CMakeBuildStage._return_destroy_remote c w in
  trace r.1.1 = trace w ∧ files r.1.1 ⊆ files w
  ∧ CMakeBuildStage.base r.1.2 = CMakeBuildStage.base c.
Proof.
  cbn zeta. unfold CMakeBuildStage._return_destroy_remote.
  destruct (CMakeBuildStage._remote_stage c) as [remote|] eqn:Hr; [|done].
  pose proof (on_files_trace (FS.unlink (CMakeBuildStage.root_stage_context c)) w)
    as Htr.
  assert (files (CMakeBuildStage._remove_context_link c w).1 ⊆ files w) as Hsub.
  { unfold CMakeBuildStage._remove_context_link, on_files, FS.unlink.
    destruct (FS.lstat _ (files w)) as [[| |]|]; cbn [fst files set_files];
      try done; apply delete_subseteq. }
  unfold CMakeBuildStage._remove_context_link in *.
  destruct (on_files _ w) as [w1 r1]. cbn [fst] in *.
  unfold CMakeBuildStage._teardown_remote_stage. rewrite Hr.
  destruct (FS.exists_ remote (files w1)).
  - pose proof (teardown_subseteq (S (size (files w1))) remote (files w1)) as Htd.
    destruct (CMakeBuildStage.teardown _ remote (files w1)) as [m [[]|e]];
      cbn [fst snd trace files set_files CMakeBuildStage.base
           CMakeBuildStage.set_remote_stage] in *;
      (split; [done|]); (split; [by etrans|done]).
  - by destruct r1.
Qed.

(** [CMakeBuildStage.destroy] meets the contract, whatever the other
    processes do. *)
Lemma cmake_lawful (others : CMakeBuildStage.interference) :
  @StageComposite.lawful CMakeBuildStage.t (CMakeBuildStage.stage_like others).
Proof.
  split; [done|]. intros c w. cbn zeta.
  change (@Stage.destroy_method _ (CMakeBuildStage.stage_like others) c w)
    with (CMakeBuildStage.destroy c w).
  change (@Stage.stage_of _ (CMakeBuildStage.stage_like others))
    with CMakeBuildStage.base.
  unfold StageComposite.same_member.
  change (@Stage.stage_of _ (CMakeBuildStage.stage_like others))
    with CMakeBuildStage.base.
  unfold CMakeBuildStage.destroy.
  destruct (return_destroy_remote_facts c w) as (Htr & Hsub & Hbase).
  destruct (CMakeBuildStage._return_destroy_remote c w) as [[w1 c1] [[]|e]];
    cbn [fst snd] in *.
  - destruct (destroy_spec (CMakeBuildStage.base c1) w1)
      as (Hfiles & Hgone & Htr' & Hl & Hp & Hn & _).
    assert (files (Stage.destroy (CMakeBuildStage.base c1) w1).1.1 ⊆ files w1)
      as Hsub' by (rewrite Hfiles; apply remove_linked_tree_subseteq).
    destruct (Stage.destroy (CMakeBuildStage.base c1) w1) as [[w2 b2] r2].
    cbn [fst snd CMakeBuildStage.base CMakeBuildStage.set_base] in *.
    rewrite Hbase in *.
    split; [done|]. split; [congruence|]. split; [by etrans|done].
  - rewrite Hbase. done.
Qed.

(** [ResourceStage] inherits [destroy], and with it the contract. *)
Lemma resource_lawful : StageComposite.lawful ResourceStage.t.
Proof.
  split; [done|]. intros rs w. cbn zeta.
  unfold StageComposite.same_member.
  cbn [Stage.destroy_method Stage.stage_of ResourceStage.stage_like].
  destruct (destroy_spec (ResourceStage.base rs) w)
    as (Hfiles & Hgone & Htr & Hl & Hp & Hn & _).
  assert (files (Stage.destroy (ResourceStage.base rs) w).1.1 ⊆ files w)
    as Hsub by (rewrite Hfiles; apply remove_linked_tree_subseteq).
  destruct (Stage.destroy (ResourceStage.base rs) w) as [[w1 b1] r1].
  cbn [fst snd ResourceStage.base ResourceStage.set_base] in *. done.
Qed.

End Contract.

(** X15. [StageComposite.__exit__] leaves the members in reverse order,
    and stops at the first member whose [__exit__] raises.  For members of
    any class whose [destroy] meets the contract: the locks of the members
    left so far are released, last member first; when the call returns, all
    members have been left and the first member, entered first, is released
    last; when it raises, the member that raised and the members before it
    in the sequence keep their locks.  The composite still holds the same
    stages in the same order, and nothing is added to the file system. *)
Theorem composite_exit_reverse_order {T : Type} `{Stage.StageLike T}
    (c : StageComposite.t T) (exc_type : option exn) (w : World) :
  StageComposite.lawful T →
  let r := StageComposite.__exit__ c exc_type w in
  ∃ n, n ≤ length (StageComposite.items c)
    ∧ trace r.1.1
      = trace w
        ++ StageComposite.releases (take n (rev (StageComposite.items c)))
    ∧ (r.2 = Return tt → n = length (StageComposite.items c))
    ∧ (∀ e, r.2 = Raise e → n < length (StageComposite.items c))
    ∧ Forall2 StageComposite.same_member
        (StageComposite.items r.1.2) (StageComposite.items c)
    ∧ files r.1.1 ⊆ files w.
Proof.
  intros Hlaw. cbn zeta. unfold StageComposite.__exit__.
  destruct (exit_items_spec Hlaw (default false (StageComposite.keep c))
              exc_type (rev (StageComposite.items c)) w)
    as (n & Hn & Htr & Hsub & Hall & Hret & Hraise & _).
  destruct (StageComposite.exit_items _ exc_type _ w) as [[w' l] r].
  cbn [fst snd StageComposite.items StageComposite.set_items] in *.
  rewrite length_rev in *. exists n.
  split; [done|]. split; [done|]. split; [done|]. split; [done|].
  split; [|done].
  apply Forall2_rev_rev in Hall. by rewrite rev_involutive in Hall.
Qed.

Lemma composite_exit_reverse_order_witness :
  (@StageComposite.__exit__ _
     (CMakeBuildStage.stage_like CMakeBuildStage.alone)
     CMakeComposite.composite None BuildTree.world_link_lost).2
  = Raise FileNotFoundError
  ∧ Stage._lock (CMakeBuildStage.base BuildTree.cmake_built) = Some 10
  ∧ trace (@StageComposite.__exit__ _
             (CMakeBuildStage.stage_like CMakeBuildStage.alone)
             CMakeComposite.composite None BuildTree.world_link_lost).1.1
    = trace BuildTree.world_link_lost.
Proof.
  assert ((@StageComposite.__exit__ _
             (CMakeBuildStage.stage_like CMakeBuildStage.alone)
             CMakeComposite.composite None BuildTree.world_link_lost).2
          = Raise FileNotFoundError) as Hr by (vm_compute; reflexivity).
  split; [exact Hr|]. split; [vm_compute; reflexivity|].
  destruct (@composite_exit_reverse_order _
              (CMakeBuildStage.stage_like CMakeBuildStage.alone)
              CMakeComposite.composite None BuildTree.world_link_lost
              (cmake_lawful CMakeBuildStage.alone))
    as (n & _ & Htr & _ & Hraise & _).
  apply Hraise in Hr. destruct n as [|n]; [|cbn in Hr; lia].
  rewrite Htr. apply app_nil_r.
Defined.

(** X16. On exit the composite's own [keep] decides, not the members'.
    When the body raised or the composite's [keep] is true, no member is
    destroyed: the call returns, the file system is unchanged, and every
    member carries the composite's flag.  When the body ended normally and
    the composite has no [keep] or a false one, every member left has been
    destroyed, kept or not: its stage path does not exist; when the call
    returns this holds for all members; when a member's [destroy] raises the
    members before it in the sequence are not destroyed by this call. *)
Theorem composite_keep_overrides {T : Type} `{Stage.StageLike T}
    (c : StageComposite.t T) (w : World) :
  StageComposite.lawful T →
  (∀ exc_type, is_Some exc_type ∨ StageComposite.keep c = Some true →
     let r := StageComposite.__exit__ c exc_type w in
     r.2 = Return tt ∧ files r.1.1 = files w
     ∧ StageComposite.items r.1.2
       = map (StageComposite.set_member_keep
                (default false (StageComposite.keep c)))
           (StageComposite.items c))
  ∧ (StageComposite.keep c ≠ Some true →
     let r := StageComposite.__exit__ c None w in
     (r.2 = Return tt →
      ∀ s, s ∈ StageComposite.items c →
        FS.exists_ (Stage.path (Stage.stage_of s)) (files r.1.1) = false)
     ∧ ∃ n, n ≤ length (StageComposite.items c)
         ∧ (∀ s, s ∈ take n (rev (StageComposite.items c)) →
              FS.exists_ (Stage.path (Stage.stage_of s)) (files r.1.1) = false)
         ∧ (∀ e, r.2 = Raise e → n < length (StageComposite.items c))
         ∧ trace r.1.1
           = trace w
             ++ StageComposite.releases (take n (rev (StageComposite.items c)))).
Proof.
  intros Hlaw. split.
  - intros exc_type Hk. cbn zeta. unfold StageComposite.__exit__.
    destruct (exit_items_spec Hlaw (default false (StageComposite.keep c))
                exc_type (rev (StageComposite.items c)) w)
      as (n & _ & _ & _ & _ & _ & _ & Hkeep & _).
    destruct (StageComposite.exit_items _ exc_type _ w) as [[w' l] r].
    cbn [fst snd StageComposite.items StageComposite.set_items] in *.
    destruct Hkeep as (-> & Hf & ->).
    { destruct Hk as [?|Hk]; [by left|right]. by rewrite Hk. }
    split; [done|]. split; [done|].
    by rewrite <- map_rev, rev_involutive.
  - intros Hk. cbn zeta. unfold StageComposite.__exit__.
    destruct (exit_items_spec Hlaw (default false (StageComposite.keep c))
                None (rev (StageComposite.items c)) w)
      as (n & Hn & Htr & _ & _ & Hret & Hraise & _ & Hgone).
    destruct (StageComposite.exit_items _ None _ w) as [[w' l] r].
    cbn [fst snd StageComposite.items StageComposite.set_items] in *.
    rewrite length_rev in *.
    assert (default false (StageComposite.keep c) = false) as Hfalse.
    { destruct (StageComposite.keep c) as [[]|]; done. }
    specialize (Hgone eq_refl Hfalse).
    split.
    + intros Hr s Hs. apply Hgone. rewrite (Hret Hr).
      rewrite <- (length_rev (StageComposite.items c)), firstn_all.
      by apply list_elem_of_In, in_rev, list_elem_of_In in Hs.
    + exists n. done.
Qed.

Lemma composite_keep_overrides_witness :
  Stage.keep (Stage.set_keep true
    (Stage.construct Scenario.env_ok Scenario.args_pkg Scenario.world0).2) = true
  ∧ FS.exists_ ["tmp"; "spack-stage"; "pkg"]
      (files (StageComposite.__exit__ CompositeScenario.composite None
                (StageComposite.__enter__ Scenario.env_ok
                   CompositeScenario.composite
                   CompositeScenario.members.1).1.1).1.1)
    = false.
Proof.
  split; [reflexivity|].
  destruct (composite_keep_overrides CompositeScenario.composite
    (StageComposite.__enter__ Scenario.env_ok CompositeScenario.composite
       CompositeScenario.members.1).1.1 stage_lawful) as (_ & Hgone).
  destruct (Hgone ltac:(discriminate)) as [Hall _].
  apply (Hall ltac:(vm_compute; reflexivity)
    (Stage.set_keep true
       (Stage.construct Scenario.env_ok Scenario.args_pkg Scenario.world0).2)).
  vm_compute. left.
Defined.

(** ** [purge] *)

Section PurgeLoop.
Import Purge.

(** Removing an entry that is a file or a directory. *)
Lemma remove_entry_plain (p : FS.path) (m : FS.fs) (x : FS.node) :
  m !! p = Some x → (∀ t, x ≠ FS.Link t) →
  ∃ m', remove_entry p m = (m', Return tt)
    ∧ m' ⊆ m ∧ m' !! p = None
    ∧ ∀ q, ¬ p `prefix_of` q → m' !! q = m !! q.
Proof.
  intros Hp Hx. unfold remove_entry.
  destruct (FS.is_dir p m) eqn:Hd.
  - exists (FS.rmtree p m).
    assert (remove_linked_tree p m = FS.rmtree p m) as ->.
    { unfold remove_linked_tree. rewrite (is_dir_exists _ _ Hd).
      unfold FS.is_link, FS.lstat. rewrite Hp. destruct x; try done.
      by destruct (Hx target). }
    split; [done|]. split; [apply rmtree_subseteq|].
    split; [by apply rmtree_inside|]. intros q Hq. by apply rmtree_outside.
  - exists (delete p m). unfold attempt, FS.unlink, FS.lstat. rewrite Hp.
    destruct x as [content| |t].
    + split; [done|]. split; [apply delete_subseteq|].
      split; [apply lookup_delete_eq|]. intros q Hq.
      apply lookup_delete_ne. intros <-. by apply Hq.
    + by rewrite (is_dir_of_dir _ _ Hp) in Hd.
    + by destruct (Hx t).
Qed.

Lemma realpath_dir (p : FS.path) (m : FS.fs) :
  m !! p = Some FS.Dir → FS.realpath p m = p.
Proof. intros H. unfold FS.realpath. by rewrite follow_dir. Qed.

(** The first loop, on entries that are files or directories. *)
Lemma purge_loop (root : FS.path) (l : list string) : ∀ mc : FS.fs,
  NoDup l → mc !! root = Some FS.Dir →
  (∀ n, n ∈ l → is_stage_entry n = true →
        ∃ x, mc !! (root ++ [n]) = Some x ∧ ∀ t, x ≠ FS.Link t) →
  ∃ mc',
    for_each
      (λ stage_dir m,
         if is_stage_entry stage_dir then
           remove_entry (FS.realpath root m ++ [stage_dir]) m
         else (m, Return tt)) l mc = (mc', Return tt)
    ∧ mc' ⊆ mc
    ∧ (∀ n, n ∈ l → is_stage_entry n = true → mc' !! (root ++ [n]) = None)
    ∧ (∀ q, (∀ n, n ∈ l → is_stage_entry n = true → ¬ root ++ [n] `prefix_of` q)
            → mc' !! q = mc !! q).
Proof.
  induction l as [|n l IH]; intros mc Hnd Hroot Hall.
  { exists mc. split; [done|]. split; [done|]. split; [|done].
    intros n Hn. by inversion Hn. }
  apply NoDup_cons in Hnd as [Hnl Hnd]. cbn [for_each].
  assert (∃ m1, (if is_stage_entry n
                 then remove_entry (FS.realpath root mc ++ [n]) mc
                 else (mc, Return tt)) = (m1, Return tt)
    ∧ m1 ⊆ mc
    ∧ (is_stage_entry n = true → m1 !! (root ++ [n]) = None)
    ∧ ∀ q, (is_stage_entry n = true → ¬ root ++ [n] `prefix_of` q)
           → m1 !! q = mc !! q) as (m1 & -> & Hsub1 & Hgone1 & Hframe1).
  { destruct (is_stage_entry n) eqn:Hn.
    - destruct (Hall n) as (x & Hx & Hlink); [by left|done|].
      rewrite (realpath_dir _ _ Hroot).
      destruct (remove_entry_plain _ _ _ Hx Hlink) as (m1 & Heq & ? & ? & Hfr).
      exists m1. repeat split; try done. intros q Hq. by apply Hfr, Hq.
    - exists mc. repeat split; done. }
  destruct (IH m1) as (mc' & Heq & Hsub & Hgone & Hframe); [done| | |].
  - rewrite Hframe1; [done|]. intros _. apply snoc_not_prefix.
  - intros n' Hn' Hs'. rewrite Hframe1; [apply Hall; [by right|done]|].
    intros _ Hpre. assert (n = n') as ->; [|done].
    by apply (snoc_prefix_eq root (root ++ [n'])).
  - exists mc'. split; [done|]. split; [by etrans|]. split.
    + intros n' [->|Hn']%elem_of_cons Hs'; [|by apply Hgone].
      destruct (mc' !! (root ++ [n])) as [y|] eqn:Hy; [|done].
      eapply lookup_weaken in Hy; [|exact Hsub]. by rewrite Hgone1 in Hy.
    + intros q Hq. rewrite Hframe.
      * apply Hframe1. intros Hs. apply Hq; [by left|done].
      * intros n' Hn' Hs'. apply Hq; [by right|done].
Qed.

End PurgeLoop.

(** X19. [purge] with no external build root configured, on a stage root
    that is a directory in which no [spack-stage-*] or [.lock] entry is a
    symbolic link: the call returns normally; every such entry is gone;
    nothing is added; and whatever does not lie at or below such an entry,
    the stage directories with other names among it, is untouched. *)
Theorem purge_removes_stage_entries (env : Env) (w : World) :
  files w !! stage_root env = Some FS.Dir →
  (∀ n t, Purge.is_stage_entry n = true →
          files w !! (stage_root env ++ [n]) ≠ Some (FS.Link t)) →
  ∃ w',
    Purge.purge env None w = (w', Return tt)
    ∧ cwd w' = cwd w ∧ trace w' = trace w
    ∧ files w' ⊆ files w
    ∧ (∀ n, Purge.is_stage_entry n = true →
            files w' !! (stage_root env ++ [n]) = None)
    ∧ (∀ q, (∀ n, Purge.is_stage_entry n = true →
                  ¬ stage_root env ++ [n] `prefix_of` q) →
            files w' !! q = files w !! q).
Proof.
  intros Hroot Hlinks.
  set (root := stage_root env) in *.
  destruct (purge_loop root (FS.children root (files w)) (files w))
    as (m' & Heq & Hsub & Hgone & Hframe);
    [apply children_NoDup|done| |].
  { intros n [x Hx]%children_elem Hs. exists x. split; [done|].
    intros t ->. by apply (Hlinks n t). }
  exists (set_files m' w). split.
  { unfold Purge.purge, Purge.purge_stage_root, Purge.listdir, FS.iterdir.
    fold root. rewrite (is_dir_of_dir _ _ Hroot), follow_dir by done.
    unfold FS.lstat. rewrite Hroot, Heq. done. }
  cbn [files cwd trace set_files].
  split; [done|]. split; [done|]. split; [done|]. split.
  - intros n Hs. destruct (decide (n ∈ FS.children root (files w))) as [Hn|Hn].
    + by apply Hgone.
    + destruct (m' !! (root ++ [n])) as [y|] eqn:Hy; [|done].
      eapply lookup_weaken in Hy; [|exact Hsub].
      destruct Hn. apply children_elem. by eexists.
  - intros q Hq. apply Hframe. intros n _ Hs. by apply Hq.
Qed.

Lemma purge_removes_stage_entries_witness :
  ∃ w',
    Purge.purge Scenario.env_ok None
      (StageComposite.__enter__ Scenario.env_ok CompositeScenario.composite
         CompositeScenario.members.1).1.1 = (w', Return tt)
    ∧ files w' !! ["tmp"; "spack-stage"; "spack-stage-k3j2h1g0"] = None
    ∧ files w' !! ["tmp"; "spack-stage"; "pkg"] = Some FS.Dir.
Proof.
  destruct (purge_removes_stage_entries Scenario.env_ok
    (StageComposite.__enter__ Scenario.env_ok CompositeScenario.composite
       CompositeScenario.members.1).1.1)
    as (w' & Heq & _ & _ & _ & Hgone & Hframe).
  - vm_compute. reflexivity.
  - intros n t _ H. apply elem_of_map_to_list in H. vm_compute in H.
    repeat (apply elem_of_cons in H as [H|H]; [discriminate H|]).
    by apply elem_of_nil in H.
  - exists w'. split; [exact Heq|]. split.
    + apply (Hgone "spack-stage-k3j2h1g0"). reflexivity.
    + rewrite Hframe; [vm_compute; reflexivity|].
      intros n Hs [k Hk]. injection Hk as Hn _. subst n.
      vm_compute in Hs. discriminate Hs.
Defined.

(** X20. The second loop of [purge] takes the names listed in the external
    build root as paths relative to the working directory.  When the
    external root has entries and the working directory has none of these
    names, [purge] raises [FileNotFoundError] at the first of them and
    removes nothing of the external root: the file system is as the first
    loop left it. *)
Theorem purge_external_relative (env : Env) (d : FS.path) (w : World)
    (m1 : FS.fs) (names : list string) :
  Purge.purge_stage_root env (files w) = (m1, Return tt) →
  Purge.listdir d m1 = Return names →
  names ≠ [] →
  (∀ n, n ∈ names → m1 !! (cwd w ++ [n]) = None) →
  Purge.purge env (Some (FS.Abs d)) w = (set_files m1 w, Raise FileNotFoundError).
Proof.
  intros Hfirst Hlist Hne Hmissing.
  unfold Purge.purge. rewrite Hfirst.
  unfold Purge.purge_external. cbn [FS.truthy_pathname FS.join andb].
  assert (FS.exists_ d m1 = true) as ->.
  { revert Hlist. unfold Purge.listdir, FS.iterdir, FS.exists_.
    by destruct (FS.follow FS.max_links d m1). }
  rewrite Hlist. destruct names as [|n names]; [done|].
  cbn [for_each]. unfold Purge.remove_entry.
  assert (m1 !! (cwd w ++ [n]) = None) as Hn by (apply Hmissing; by left).
  assert (FS.is_dir (cwd w ++ [n]) m1 = false) as ->.
  { destruct (FS.is_dir (cwd w ++ [n]) m1) eqn:E; [|done].
    apply is_dir_lookup in E as [x Hx]. congruence. }
  unfold attempt, FS.unlink, FS.lstat. by rewrite Hn.
Qed.

Lemma purge_external_relative_witness :
  (Purge.purge Scenario.env_ok (Some (FS.Abs ["b"])) BuildTree.world_built).2
  = Raise FileNotFoundError.
Proof.
  pose (r := Purge.purge_stage_root Scenario.env_ok (files BuildTree.world_built)).
  assert (r.2 = Return tt) as H2 by (vm_compute; reflexivity).
  assert (r = (r.1, Return tt)) as Hr by (rewrite <- H2; apply surjective_pairing).
  rewrite (purge_external_relative Scenario.env_ok ["b"] BuildTree.world_built
             r.1 ["b"; "a"] Hr); [reflexivity| |discriminate|].
  - vm_compute. reflexivity.
  - intros n Hn.
    repeat (apply elem_of_cons in Hn as [->|Hn]; [vm_compute; reflexivity|]).
    apply elem_of_nil in Hn. destruct Hn.
Defined.
